(** * m3u-content-manager: the playlist parser, the generator and the relay

    A shallow embedding of
    - [src/app/api/m3u/parse/route.ts] (the streaming parser and its
      [POST] handler),
    - the client-side [parseM3U] of the player component,
    - the download route ([generateM3UContent], [generateFilename],
      [sanitizeFilename], [isBlockedHostname] and the relay [GET]
      handler),
    - the pages and the page buttons of the player component,
    followed by the properties of the specification that concern them and
    by further properties of the code.

    JavaScript strings are sequences of UTF-16 code units; they are
    modelled as lists of [N].  Regular expressions are kept as syntax trees
    and run by a small backtracking matcher that lists the successes in the
    priority order of the JavaScript semantics.  The platform functions
    the relay calls (the URL parser, the URI component codecs, [fetch])
    are parameters of its model.

    The properties come in the order: ids, [finalize], group summary,
    SSRF guard and relay, parse endpoint, chunks of bytes and of text,
    round trip through the generator, names; then well-formed entries,
    chunks of ASCII bytes, totals, lines, the guard on every hostname,
    file names, the text of the generator for any channel, the two
    parsers side by side, the pages, and chunks cut between
    characters. *)

From Stdlib Require Import String Ascii.
From Stdlib Require Import List NArith ZArith Arith Bool Lia DecimalNat.
From Stdlib Require Finite.
Import ListNotations.

Set Implicit Arguments.
Local Open Scope N_scope.

(* ================================================================== *)
(** ** JavaScript strings *)

Module JS.

Definition char := N.
Definition jsstring := list char.

(** An ASCII literal as a JavaScript string. *)
Definition js (s : string) : jsstring :=
  List.map N_of_ascii (list_ascii_of_string s).

Definition LF : char := 10.
Definition CR : char := 13.
Definition dquote : char := 34.
Definition squote : char := 39.
Definition comma : char := 44.
Definition dot : char := 46.
Definition space : char := 32.

Fixpoint eqs (a b : jsstring) : bool :=
  match a, b with
  | [], [] => true
  | x :: a', y :: b' => (x =? y) && eqs a' b'
  | _, _ => false
  end.

(** Truthiness of a string value: the empty string is falsy. *)
Definition truthy (s : jsstring) : bool :=
  match s with [] => false | _ :: _ => true end.

(** Truthiness of a possibly [undefined] string. *)
Definition truthy_opt (o : option jsstring) : bool :=
  match o with Some s => truthy s | None => false end.

(** [a || b] where [a] may be [undefined]. *)
Definition or_else (a : option jsstring) (b : jsstring) : jsstring :=
  match a with
  | Some s => if truthy s then s else b
  | None => b
  end.

(** LineTerminator of ECMAScript: LF, CR, U+2028, U+2029. *)
Definition is_line_terminator (c : char) : bool :=
  (c =? 10) || (c =? 13) || (c =? 8232) || (c =? 8233).

(** WhiteSpace and LineTerminator of ECMAScript: what [trim] strips and
    what [\s] matches. *)
Definition is_ws (c : char) : bool :=
  (c =? 9) || (c =? 11) || (c =? 12) || (c =? 32) || (c =? 160)
  || (c =? 5760) || ((8192 <=? c) && (c <=? 8202))
  || (c =? 8239) || (c =? 8287) || (c =? 12288) || (c =? 65279)
  || is_line_terminator c.

Definition is_digit (c : char) : bool := (48 <=? c) && (c <=? 57).

Fixpoint drop_while (p : char -> bool) (s : jsstring) : jsstring :=
  match s with
  | [] => []
  | c :: s' => if p c then drop_while p s' else s
  end.

Definition trimStart (s : jsstring) : jsstring := drop_while is_ws s.
Definition trimEnd (s : jsstring) : jsstring :=
  rev (drop_while is_ws (rev s)).
Definition trim (s : jsstring) : jsstring := trimEnd (trimStart s).

Fixpoint startsWith (p s : jsstring) : bool :=
  match p with
  | [] => true
  | x :: p' =>
      match s with
      | [] => false
      | y :: s' => (x =? y) && startsWith p' s'
      end
  end.

Definition endsWith (p s : jsstring) : bool := startsWith (rev p) (rev s).

(** [s.substring(n)] *)
Definition substring_from (n : nat) (s : jsstring) : jsstring := skipn n s.

(** [String.prototype.toLowerCase] on the ASCII letters.  The strings it is
    applied to are compared with ASCII literals none of whose characters is
    the lower case of a character outside ASCII. *)
Definition lower_char (c : char) : char :=
  if (65 <=? c) && (c <=? 90) then c + 32 else c.
Definition toLowerCase (s : jsstring) : jsstring := List.map lower_char s.

(** The decimal digits of a number, as in a template literal. *)
Fixpoint uint_chars (d : Decimal.uint) : jsstring :=
  match d with
  | Decimal.Nil => []
  | Decimal.D0 d => 48 :: uint_chars d
  | Decimal.D1 d => 49 :: uint_chars d
  | Decimal.D2 d => 50 :: uint_chars d
  | Decimal.D3 d => 51 :: uint_chars d
  | Decimal.D4 d => 52 :: uint_chars d
  | Decimal.D5 d => 53 :: uint_chars d
  | Decimal.D6 d => 54 :: uint_chars d
  | Decimal.D7 d => 55 :: uint_chars d
  | Decimal.D8 d => 56 :: uint_chars d
  | Decimal.D9 d => 57 :: uint_chars d
  end.

Definition number_to_string (n : nat) : jsstring := uint_chars (Nat.to_uint n).

(** Prepend a character to the first piece of a split. *)
Definition cons_first (c : char) (l : list jsstring) : list jsstring :=
  match l with
  | [] => [[c]]
  | x :: l' => (c :: x) :: l'
  end.

(** [s.split(/\r?\n/)]: the pieces between the line terminators; a
    terminator is LF, together with one CR right before it. *)
Fixpoint split_lines (s : jsstring) : list jsstring :=
  match s with
  | [] => [[]]
  | c :: s' =>
      if c =? LF then [] :: split_lines s'
      else
        match s' with
        | d :: s'' =>
            if (c =? CR) && (d =? LF) then [] :: split_lines s''
            else cons_first c (split_lines s')
        | [] => [[c]]
        end
  end.

(** [s.split(".")] and the like: split at every occurrence of one
    character. *)
Fixpoint split_on (sep : char) (s : jsstring) : list jsstring :=
  match s with
  | [] => [[]]
  | c :: s' =>
      if c =? sep then [] :: split_on sep s'
      else cons_first c (split_on sep s')
  end.

(** [lines.pop()]: the array without its last element, and that element. *)
Fixpoint pop (l : list jsstring) : list jsstring * option jsstring :=
  match l with
  | [] => ([], None)
  | x :: l' =>
      match l' with
      | [] => ([], Some x)
      | _ :: _ => let '(init, last) := pop l' in (x :: init, last)
      end
  end.

End JS.

(* ================================================================== *)
(** ** Regular expressions *)

Module Regex.
Import JS.

(** The constructs the source uses.  A pattern that starts with [^] is run
    by [match_at_start]; the others by [search], which tries every start
    position from the left. *)
Inductive regex : Type :=
| Lit (l : jsstring)                     (* a literal text *)
| Cls (p : char -> bool)                 (* one character of a class *)
| Cat (r1 r2 : regex)                    (* r1 r2 *)
| Opt (r : regex)                        (* r?  greedy *)
| Rep (lo : nat) (hi : option nat) (p : char -> bool)
                                         (* p{lo,hi} on a class, greedy *)
| Times (n : nat) (r : regex)            (* r{n} *)
| Grp (r : regex)                        (* ( r ), the capture group *)
| Eos.                                   (* $ without the m flag *)

Definition Star (p : char -> bool) : regex := Rep 0 None p.
Definition Plus (p : char -> bool) : regex := Rep 1 None p.
Definition Chr (c : char) : regex := Cls (fun x => x =? c).

Definition can_take (hi : option nat) : bool :=
  match hi with Some O => false | _ => true end.

(** The inputs left after a greedy repetition of a class, longest
    repetition first. *)
Fixpoint rep (p : char -> bool) (lo : nat) (hi : option nat) (s : jsstring)
  : list jsstring :=
  let stop := match lo with O => [s] | S _ => [] end in
  match s with
  | c :: s' =>
      if p c && can_take hi
      then rep p (Nat.pred lo) (option_map Nat.pred hi) s' ++ stop
      else stop
  | [] => stop
  end.

Definition later (c2 c1 : option jsstring) : option jsstring :=
  match c2 with Some _ => c2 | None => c1 end.

(** [r{n}]: [n] matches of [r] in a row, given the matcher [m] of [r].
    Every round starts with the captures inside [r] cleared, so the
    capture is the one of the last round. *)
Fixpoint times (m : jsstring -> list (jsstring * option jsstring))
  (n : nat) (s : jsstring) (c : option jsstring)
  : list (jsstring * option jsstring) :=
  match n with
  | O => [(s, c)]
  | S n' => flat_map (fun m1 => times m n' (fst m1) (snd m1)) (m s)
  end.

(** [matches r s]: every way [r] matches a prefix of [s], in the order the
    backtracking matcher tries them; each with the input left and the text
    of the capture group. *)
Fixpoint matches (r : regex) (s : jsstring)
  : list (jsstring * option jsstring) :=
  match r with
  | Lit l => if startsWith l s then [(skipn (length l) s, None)] else []
  | Cls p =>
      match s with
      | c :: s' => if p c then [(s', None)] else []
      | [] => []
      end
  | Cat r1 r2 =>
      flat_map (fun m1 =>
        List.map (fun m2 => (fst m2, later (snd m2) (snd m1)))
                 (matches r2 (fst m1)))
        (matches r1 s)
  | Opt r1 => matches r1 s ++ [(s, None)]
  | Rep lo hi p => List.map (fun s' => (s', None)) (rep p lo hi s)
  | Times n r1 => times (matches r1) n s None
  | Grp r1 =>
      List.map (fun m1 =>
        (fst m1, Some (firstn (length s - length (fst m1)) s)))
        (matches r1 s)
  | Eos => match s with [] => [([], None)] | _ :: _ => [] end
  end.

(** The result of the first match: the text before it, the text after it
    and the capture. *)
Definition found := (jsstring * jsstring * option jsstring)%type.

Definition shift (c : char) (f : found) : found :=
  let '(b, a, g) := f in (c :: b, a, g).

(** Leftmost match: [RegExp.prototype.exec] without the sticky or global
    flag. *)
Fixpoint search (r : regex) (s : jsstring) : option found :=
  match matches r s with
  | m :: _ => Some ([], fst m, snd m)
  | [] =>
      match s with
      | [] => None
      | c :: s' => option_map (shift c) (search r s')
      end
  end.

(** [s.match(/r/)?.[1]]: the capture of the leftmost match; [None] stands
    for [undefined] (no match, or a group that took no part). *)
Definition match1 (r : regex) (s : jsstring) : option jsstring :=
  match search r s with
  | Some (_, _, g) => g
  | None => None
  end.

(** A pattern [^r]: a match can only start at the first character. *)
Definition match_at_start (r : regex) (s : jsstring)
  : option (jsstring * option jsstring) :=
  match matches r s with
  | m :: _ => Some m
  | [] => None
  end.

(** [/^r/.test(s)] *)
Definition test_at_start (r : regex) (s : jsstring) : bool :=
  match match_at_start r s with Some _ => true | None => false end.

(** [s.replace(/^r/, '')] *)
Definition remove_at_start (r : regex) (s : jsstring) : jsstring :=
  match match_at_start r s with
  | Some m => fst m
  | None => s
  end.

End Regex.

(* ================================================================== *)
(** ** The UTF-8 decoder of [TextDecoder] *)

Module Utf8.
Import JS.

(** The state of the WHATWG UTF-8 decoder. *)
Record decoder : Type := mkDecoder {
  code_point : N;
  bytes_seen : N;
  bytes_needed : N;
  lower_boundary : N;
  upper_boundary : N
}.

Definition fresh : decoder := mkDecoder 0 0 0 0x80 0xBF.

Definition replacement : N := 0xFFFD.

(** A byte read when no sequence is open. *)
Definition lead_byte (b : N) : decoder * list N :=
  if b <=? 0x7F then (fresh, [b])
  else if (0xC2 <=? b) && (b <=? 0xDF)
  then (mkDecoder (N.land b 0x1F) 0 1 0x80 0xBF, [])
  else if (0xE0 <=? b) && (b <=? 0xEF)
  then (mkDecoder (N.land b 0xF) 0 2
          (if b =? 0xE0 then 0xA0 else 0x80)
          (if b =? 0xED then 0x9F else 0xBF), [])
  else if (0xF0 <=? b) && (b <=? 0xF4)
  then (mkDecoder (N.land b 0x7) 0 3
          (if b =? 0xF0 then 0x90 else 0x80)
          (if b =? 0xF4 then 0x8F else 0xBF), [])
  else (fresh, [replacement]).

(** One step of the decoder: the new state and the code points emitted.  A
    byte that cannot continue the open sequence ends it with U+FFFD and is
    read again as a lead byte. *)
Definition handler (d : decoder) (b : N) : decoder * list N :=
  if bytes_needed d =? 0 then lead_byte b
  else if negb ((lower_boundary d <=? b) && (b <=? upper_boundary d))
  then let '(d', out) := lead_byte b in (d', replacement :: out)
  else
    let cp := N.lor (N.shiftl (code_point d) 6) (N.land b 0x3F) in
    let seen := bytes_seen d + 1 in
    if seen =? bytes_needed d then (fresh, [cp])
    else (mkDecoder cp seen (bytes_needed d) 0x80 0xBF, []).

Fixpoint run (d : decoder) (bs : list Byte.byte) : decoder * list N :=
  match bs with
  | [] => (d, [])
  | b :: bs' =>
      let '(d1, out1) := handler d (Byte.to_N b) in
      let '(d2, out2) := run d1 bs' in
      (d2, out1 ++ out2)
  end.

(** The UTF-16 code units of a code point. *)
Definition code_units (cp : N) : jsstring :=
  if cp <? 0x10000 then [cp]
  else
    let v := cp - 0x10000 in
    [0xD800 + N.shiftr v 10; 0xDC00 + N.land v 0x3FF].

(** The byte order mark is dropped when it is the first code point the
    decoder produces ([ignoreBOM] is false). *)
Definition strip_bom (cps : list N) : list N :=
  match cps with
  | c :: cps' => if c =? 0xFEFF then cps' else cps
  | [] => []
  end.

(** [new TextDecoder('utf-8', { fatal: false }).decode(chunk, { stream: true })]:
    a decoder created for this one call.  With [stream: true] the bytes of
    a sequence still open at the end of the chunk stay in the decoder,
    which is not used again. *)
Definition decode_stream_fresh (chunk : list Byte.byte) : jsstring :=
  flat_map code_units (strip_bom (snd (run fresh chunk))).

End Utf8.

(* ================================================================== *)
(** ** [src/app/api/m3u/parse/route.ts] *)

Module Route.
Import JS Regex.

(** [M3UChannel]; [currentInfo] is a [Partial<M3UChannel>], and an object
    cast to [M3UChannel] is the same object, so every field may be
    [undefined]. *)
Record M3UChannel : Type := mkChannel {
  id : option jsstring;
  tvgName : option jsstring;
  tvgLogo : option jsstring;
  tvgId : option jsstring;
  tvgCountry : option jsstring;
  tvgLanguage : option jsstring;
  groupTitle : option jsstring;
  url : option jsstring
}.

(** The object [{}]. *)
Definition empty_info : M3UChannel :=
  mkChannel None None None None None None None None.

Record StreamingM3UParser : Type := mkParser {
  channels : list M3UChannel;
  currentInfo : M3UChannel;
  buffer : jsstring;
  channelId : nat
}.

(** [new StreamingM3UParser()] *)
Definition new_parser : StreamingM3UParser := mkParser [] empty_info [] 0.

Definition not_dquote (c : char) : bool := negb (c =? dquote).
Definition not_line_terminator (c : char) : bool :=
  negb (is_line_terminator c).

(** [/^(-?\d+)\s*,?\s*/] *)
Definition re_duration : regex :=
  Cat (Grp (Cat (Opt (Chr 45)) (Plus is_digit)))
      (Cat (Star is_ws) (Cat (Opt (Chr comma)) (Star is_ws))).

(** The attribute patterns, such as the one of [tvg-name]: the key, an
    equals sign, a double quote, the captured run of characters other than
    the double quote, and a double quote. *)
Definition re_attr (key : jsstring) : regex :=
  Cat (Lit (key ++ [61; dquote])) (Cat (Grp (Star not_dquote)) (Chr dquote)).

(** [/,\s*(.+)$/] *)
Definition re_display : regex :=
  Cat (Chr comma) (Cat (Star is_ws) (Cat (Grp (Plus not_line_terminator)) Eos)).

Definition k_tvg_name : jsstring := Eval cbv in js "tvg-name".
Definition k_tvg_logo : jsstring := Eval cbv in js "tvg-logo".
Definition k_tvg_id : jsstring := Eval cbv in js "tvg-id".
Definition k_tvg_country : jsstring := Eval cbv in js "tvg-country".
Definition k_tvg_language : jsstring := Eval cbv in js "tvg-language".
Definition k_group_title : jsstring := Eval cbv in js "group-title".

Definition s_Unknown : jsstring := Eval cbv in js "Unknown".
Definition s_Other : jsstring := Eval cbv in js "Other".
Definition s_EXTM3U : jsstring := Eval cbv in js "#EXTM3U".
Definition s_EXTINF : jsstring := Eval cbv in js "#EXTINF:".
Definition s_http : jsstring := Eval cbv in js "http".
Definition s_channel_ : jsstring := Eval cbv in js "channel-".

(** The display name of an info line: the capture of [re_display],
    trimmed, or ['Unknown'] when the pattern does not match.  The group
    takes part in every match of the pattern, so the second case does not
    arise. *)
Definition display_name (rest : jsstring) : jsstring :=
  match search re_display rest with
  | Some (_, _, Some g) => trim g
  | Some (_, _, None) => []
  | None => s_Unknown
  end.

(** [parseExtInfo(line)]: the new value of [currentInfo].  The local
    [duration] is computed and not used. *)
Definition parseExtInfo (line : jsstring) : M3UChannel :=
  let infoLine := substring_from 8 line in
  let rest := remove_at_start re_duration infoLine in
  let tvgNameMatch := match1 (re_attr k_tvg_name) rest in
  let tvgLogoMatch := match1 (re_attr k_tvg_logo) rest in
  let tvgIdMatch := match1 (re_attr k_tvg_id) rest in
  let tvgCountryMatch := match1 (re_attr k_tvg_country) rest in
  let tvgLanguageMatch := match1 (re_attr k_tvg_language) rest in
  let groupTitleMatch := match1 (re_attr k_group_title) rest in
  let displayName := display_name rest in
  mkChannel None
    (Some (if truthy displayName then displayName
           else or_else tvgNameMatch s_Unknown))
    tvgLogoMatch tvgIdMatch tvgCountryMatch tvgLanguageMatch
    (Some (or_else groupTitleMatch s_Other))
    None.

(** [{ ...this.currentInfo, url: trimmed, id: `channel-${n}` }] *)
Definition make_channel (info : M3UChannel) (trimmed : jsstring) (n : nat)
  : M3UChannel :=
  mkChannel (Some (s_channel_ ++ number_to_string n))
    (tvgName info) (tvgLogo info) (tvgId info) (tvgCountry info)
    (tvgLanguage info) (groupTitle info) (Some trimmed).

(** The body of the loop of [parse]: the parser and [newChannels] after one
    complete line. *)
Definition parse_line (st : list M3UChannel * StreamingM3UParser)
  (line : jsstring) : list M3UChannel * StreamingM3UParser :=
  let '(newChannels, p) := st in
  let trimmed := trim line in
  if negb (truthy trimmed) || startsWith s_EXTM3U trimmed then st
  else if startsWith s_EXTINF trimmed then
    (newChannels,
     mkParser (channels p) (parseExtInfo trimmed) (buffer p) (channelId p))
  else if startsWith s_http trimmed then
    if truthy_opt (tvgName (currentInfo p)) then
      let channel := make_channel (currentInfo p) trimmed (channelId p) in
      (newChannels ++ [channel],
       mkParser (channels p ++ [channel]) empty_info (buffer p)
                (S (channelId p)))
    else
      (newChannels,
       mkParser (channels p) empty_info (buffer p) (channelId p))
  else st.

(** [parse(chunk)]: the channels completed by this call and the parser
    after it. *)
Definition parse (p : StreamingM3UParser) (chunk : jsstring)
  : list M3UChannel * StreamingM3UParser :=
  let buf := buffer p ++ chunk in
  let '(lines, last) := pop (split_lines buf) in
  let p1 := mkParser (channels p) (currentInfo p) (or_else last [])
                     (channelId p) in
  fold_left parse_line lines ([], p1).

(** [finalize()]: the value returned and the parser after it. *)
Definition finalize (p : StreamingM3UParser)
  : list M3UChannel * StreamingM3UParser :=
  let trimmed := trim (buffer p) in
  if truthy trimmed
     && startsWith s_http trimmed
     && truthy_opt (tvgName (currentInfo p))
  then
    let channel := make_channel (currentInfo p) trimmed (channelId p) in
    let p' := mkParser (channels p ++ [channel]) (currentInfo p) (buffer p)
                       (S (channelId p)) in
    (channels p', p')
  else (channels p, p).

(** A parse run on texts: every chunk fed in order, then [finalize]. *)
Definition feed_all (p : StreamingM3UParser) (chunks : list jsstring)
  : StreamingM3UParser :=
  fold_left (fun q c => snd (parse q c)) chunks p.

Definition parse_texts (chunks : list jsstring) : list M3UChannel :=
  fst (finalize (feed_all new_parser chunks)).

(** The same on bytes, as the loop of [POST] does it: each chunk goes
    through a decoder of its own. *)
Definition parse_bytes (chunks : list (list Byte.byte)) : list M3UChannel :=
  parse_texts (List.map Utf8.decode_stream_fresh chunks).

(** *** The handler [POST] *)

Record File : Type := mkFile {
  name : jsstring;
  content : list Byte.byte
}.

(** [file.size] *)
Definition size (f : File) : N := N.of_nat (length (content f)).

(** What [formData.get('file')] gives: nothing, a text field or an
    upload. *)
Inductive FormEntry : Type :=
| NoEntry
| TextField (v : jsstring)
| Upload (f : File).

(** A request: [None] when [request.formData()] rejects. *)
Definition Request := option FormEntry.

Record M3UParseResult : Type := mkResult {
  r_channels : list M3UChannel;
  totalChannels : nat;
  groups : list (jsstring * nat)
}.

Inductive ErrorText : Type :=
| FileRequired        (* 'Dosya gerekli' *)
| BadFormat           (* 'Gecersiz dosya formati. ...' *)
| TooLarge            (* 'Dosya boyutu cok buyuk. Maksimum 50MB' *)
| ProcessingFailed.   (* 'Dosya islenirken hata olustu' *)

Inductive Response : Type :=
| JsonError (status : N) (e : ErrorText)
| JsonResult (r : M3UParseResult).       (* status 200 *)

Definition MAX_FILE_SIZE : N := 50 * 1024 * 1024.
Definition CHUNK_SIZE : nat := N.to_nat (64 * 1024).

(** The chunks read by the [while] loop: [slice(offset, offset + chunkSize)]
    until [offset] reaches the length.  Every round takes at least one
    byte, so the length of the data bounds the number of rounds. *)
Fixpoint read_chunks (rounds : nat) (data : list Byte.byte)
  : list (list Byte.byte) :=
  match rounds with
  | O => []
  | S rounds' =>
      match data with
      | [] => []
      | _ :: _ =>
          firstn CHUNK_SIZE data :: read_chunks rounds' (skipn CHUNK_SIZE data)
      end
  end.

Definition file_chunks (data : list Byte.byte) : list (list Byte.byte) :=
  read_chunks (length data) data.

(** [Map<string, number>]: the entries in insertion order. *)
Fixpoint map_get (k : jsstring) (m : list (jsstring * nat)) : option nat :=
  match m with
  | [] => None
  | (k', v) :: m' => if eqs k k' then Some v else map_get k m'
  end.

Fixpoint map_set (k : jsstring) (v : nat) (m : list (jsstring * nat))
  : list (jsstring * nat) :=
  match m with
  | [] => [(k, v)]
  | (k', v') :: m' =>
      if eqs k k' then (k', v) :: m' else (k', v') :: map_set k v m'
  end.

(** [channel.groupTitle || 'Other'] *)
Definition group_of (c : M3UChannel) : jsstring :=
  or_else (groupTitle c) s_Other.

Definition count_group (groupMap : list (jsstring * nat)) (c : M3UChannel)
  : list (jsstring * nat) :=
  let groupName := group_of c in
  map_set groupName
    (match map_get groupName groupMap with Some n => n | None => 0%nat end + 1)%nat
    groupMap.

Definition group_summary (chs : list M3UChannel) : list (jsstring * nat) :=
  fold_left count_group chs [].

Definition s_m3u : jsstring := Eval cbv in js ".m3u".
Definition s_m3u8 : jsstring := Eval cbv in js ".m3u8".

Definition POST (request : Request) : Response :=
  match request with
  | None => JsonError 500 ProcessingFailed
  | Some NoEntry => JsonError 400 FileRequired
  | Some (TextField v) =>
      if truthy v then JsonError 500 ProcessingFailed  (* file.name is undefined *)
      else JsonError 400 FileRequired
  | Some (Upload file) =>
      let fileName := toLowerCase (name file) in
      if negb (endsWith s_m3u fileName) && negb (endsWith s_m3u8 fileName)
      then JsonError 400 BadFormat
      else if MAX_FILE_SIZE <? size file then JsonError 400 TooLarge
      else
        let chs := parse_bytes (file_chunks (content file)) in
        JsonResult (mkResult chs (length chs) (group_summary chs))
  end.

End Route.

(* ================================================================== *)
(** ** The client-side parser of the player component *)

Module Player.
Import JS Regex.

Record M3UChannel : Type := mkChannel {
  id : option jsstring;
  tvgName : option jsstring;
  tvgNameAttribute : option jsstring;
  tvgLogo : option jsstring;
  tvgId : option jsstring;
  tvgCountry : option jsstring;
  tvgLanguage : option jsstring;
  groupTitle : option jsstring;
  url : option jsstring
}.

Definition empty_info : M3UChannel :=
  mkChannel None None None None None None None None None.

(** The group given to an entry without one: D, i, U+011F, e, r. *)
Definition s_Diger : jsstring := [68; 105; 287; 101; 114].

(** The branch of [parseM3U] for an info line; the patterns are run on
    [infoLine] itself. *)
Definition parse_info (line : jsstring) : M3UChannel :=
  let infoLine := substring_from 8 line in
  let tvgNameMatch := match1 (Route.re_attr Route.k_tvg_name) infoLine in
  let tvgLogoMatch := match1 (Route.re_attr Route.k_tvg_logo) infoLine in
  let tvgIdMatch := match1 (Route.re_attr Route.k_tvg_id) infoLine in
  let tvgCountryMatch := match1 (Route.re_attr Route.k_tvg_country) infoLine in
  let tvgLanguageMatch := match1 (Route.re_attr Route.k_tvg_language) infoLine in
  let groupTitleMatch := match1 (Route.re_attr Route.k_group_title) infoLine in
  let displayName := Route.display_name infoLine in
  mkChannel None
    (Some (if truthy displayName then displayName
           else or_else tvgNameMatch Route.s_Unknown))
    tvgNameMatch tvgLogoMatch tvgIdMatch tvgCountryMatch tvgLanguageMatch
    (Some (or_else groupTitleMatch s_Diger))
    None.

(** The body of the loop of [parseM3U]: [parsedChannels] and
    [currentInfo] after one line. *)
Definition parse_line (st : list M3UChannel * M3UChannel) (raw : jsstring)
  : list M3UChannel * M3UChannel :=
  let '(parsedChannels, currentInfo) := st in
  let line := trim raw in
  if negb (truthy line) || startsWith Route.s_EXTM3U line then st
  else if startsWith Route.s_EXTINF line then (parsedChannels, parse_info line)
  else if startsWith Route.s_http line then
    if truthy_opt (tvgName currentInfo) then
      (parsedChannels ++
         [mkChannel
            (Some (Route.s_channel_ ++ number_to_string (length parsedChannels)))
            (tvgName currentInfo) (tvgNameAttribute currentInfo)
            (tvgLogo currentInfo) (tvgId currentInfo)
            (tvgCountry currentInfo) (tvgLanguage currentInfo)
            (groupTitle currentInfo) (Some line)],
       empty_info)
    else (parsedChannels, empty_info)
  else st.

Definition parseM3U (content : jsstring) : list M3UChannel :=
  fst (fold_left parse_line (split_lines content) ([], empty_info)).

End Player.

(* ================================================================== *)
(** ** The download route: generator, SSRF guard and relay *)

Module Download.
Import JS Regex.

(** An element of [DownloadRequest.channels]. *)
Record Channel : Type := mkChannel {
  id : jsstring;
  tvgName : jsstring;
  tvgNameAttribute : option jsstring;
  tvgLogo : option jsstring;
  tvgId : option jsstring;
  tvgCountry : option jsstring;
  tvgLanguage : option jsstring;
  groupTitle : option jsstring;
  url : jsstring
}.

Definition is_crlf (c : char) : bool := (c =? CR) || (c =? LF).

(** [escapeAttribute]: double quotes become single quotes, line breaks are
    removed. *)
Definition escapeAttribute (value : jsstring) : jsstring :=
  if negb (truthy value) then []
  else
    filter (fun c => negb (is_crlf c))
      (List.map (fun c => if c =? dquote then squote else c) value).

(** [escapeValue] *)
Definition escapeValue (value : jsstring) : jsstring :=
  if negb (truthy value) then Route.s_Unknown
  else trim (filter (fun c => negb (is_crlf c)) value).

(** [key="escaped value"] *)
Definition attribute (key value : jsstring) : jsstring :=
  key ++ [61; dquote] ++ escapeAttribute value ++ [dquote].

(** [if (v) info.push(...)] for an optional field. *)
Definition push_attr (key : jsstring) (v : option jsstring)
  (info : list jsstring) : list jsstring :=
  if truthy_opt v
  then info ++ [attribute key (match v with Some s => s | None => [] end)]
  else info.

(** [info.join(" ")] *)
Fixpoint join_space (l : list jsstring) : jsstring :=
  match l with
  | [] => []
  | [x] => x
  | x :: l' => x ++ [space] ++ join_space l'
  end.

Definition s_EXTM3U_nl : jsstring := Route.s_EXTM3U ++ [LF].
Definition s_EXTINF_1 : jsstring := Eval cbv in js "#EXTINF:-1 ".

(** The two lines of one channel. *)
Definition channel_lines (channel : Channel) : jsstring :=
  let info :=
    push_attr Route.k_group_title (groupTitle channel)
    (push_attr Route.k_tvg_language (tvgLanguage channel)
    (push_attr Route.k_tvg_country (tvgCountry channel)
    (push_attr Route.k_tvg_id (tvgId channel)
    (push_attr Route.k_tvg_logo (tvgLogo channel)
    (push_attr Route.k_tvg_name (Some (tvgName channel)) []))))) in
  s_EXTINF_1 ++ join_space info ++ [comma] ++ escapeValue (tvgName channel)
    ++ [LF] ++ url channel ++ [LF].

Definition generateM3UContent (channels : list Channel) : jsstring :=
  fold_left (fun content channel => content ++ channel_lines channel)
    channels s_EXTM3U_nl.

(** *** [sanitizeFilename] and the Content-Disposition header *)

Definition is_illegal (c : char) : bool :=
  (c <=? 31) || (c =? 60) || (c =? 62) || (c =? 58) || (c =? dquote)
  || (c =? 47) || (c =? 92) || (c =? 124) || (c =? 63) || (c =? 42).

(** [replace(/\s+/g, " ")] *)
Fixpoint collapse_ws (in_run : bool) (s : jsstring) : jsstring :=
  match s with
  | [] => []
  | c :: s' =>
      if is_ws c
      then (if in_run then collapse_ws true s' else space :: collapse_ws true s')
      else c :: collapse_ws false s'
  end.

(** [replace(/[. ]+$/g, "")] *)
Definition strip_trailing_dots (s : jsstring) : jsstring :=
  rev (drop_while (fun c => (c =? dot) || (c =? space)) (rev s)).

Definition s_download : jsstring := Eval cbv in js "download".

Definition sanitizeFilename (filename : jsstring) : jsstring :=
  let cleaned :=
    firstn 160
      (strip_trailing_dots
         (trim (collapse_ws false
                  (filter (fun c => negb (is_illegal c)) filename)))) in
  if truthy cleaned then cleaned else s_download.

(** *** [isBlockedHostname] *)

(** [/^\d{1,3}(\.\d{1,3}){3}$/] *)
Definition re_dotted_quad : regex :=
  Cat (Rep 1 (Some 3%nat) is_digit)
      (Cat (Times 3 (Grp (Cat (Chr dot) (Rep 1 (Some 3%nat) is_digit)))) Eos).

(** The value of a run of decimal digits. *)
Definition digits_value (s : jsstring) : N :=
  fold_left (fun acc c => 10 * acc + (c - 48)) s 0.

(** [Number(p)] on a non-empty run of digits; [None] stands for [NaN].
    Under the guard of [re_dotted_quad] every part is such a run; other
    strings are not given a value. *)
Definition Number (p : jsstring) : option N :=
  if truthy p && forallb is_digit p then Some (digits_value p) else None.

(** [Number.isNaN(p) || p < 0 || p > 255] *)
Definition out_of_range (p : option N) : bool :=
  match p with
  | None => true
  | Some v => 255 <? v
  end.

(** [parts[i] === v], [parts[i] >= v], [parts[i] <= v] *)
Definition part_is (parts : list (option N)) (i : nat) (v : N) : bool :=
  match nth i parts None with Some x => x =? v | None => false end.
Definition part_ge (parts : list (option N)) (i : nat) (v : N) : bool :=
  match nth i parts None with Some x => v <=? x | None => false end.
Definition part_le (parts : list (option N)) (i : nat) (v : N) : bool :=
  match nth i parts None with Some x => x <=? v | None => false end.

Definition s_localhost : jsstring := Eval cbv in js "localhost".
Definition s_127_0_0_1 : jsstring := Eval cbv in js "127.0.0.1".
Definition s_ipv6_loopback : jsstring := Eval cbv in js "::1".

Definition isBlockedHostname (hostname : jsstring) : bool :=
  let host := toLowerCase hostname in
  if eqs host s_localhost || eqs host s_127_0_0_1 || eqs host s_ipv6_loopback
  then true
  else if test_at_start re_dotted_quad host then
    let parts := List.map Number (split_on dot host) in
    if existsb out_of_range parts then true
    else if part_is parts 0 10 then true
    else if part_is parts 0 127 then true
    else if part_is parts 0 192 && part_is parts 1 168 then true
    else if part_is parts 0 172 && part_ge parts 1 16 && part_le parts 1 31
    then true
    else if part_is parts 0 169 && part_is parts 1 254 then true
    else if part_is parts 0 0 then true
    else false
  else false.

(** *** The relay [GET] *)

Section Relay.

(** The platform: the URL parser, the two URI component codecs ([None]
    when they throw) and the type of a response body stream. *)
Record URL : Type := mkURL {
  protocol : jsstring;
  hostname : jsstring;
  pathname : jsstring;
  href : jsstring
}.

Variable newURL : jsstring -> option URL.
Variable decodeURIComponent : jsstring -> option jsstring.
Variable encodeURIComponent : jsstring -> option jsstring.
Variable Body : Type.

Record Request : Type := mkRequest {
  urlParam : option jsstring;
  filenameParam : option jsstring;
  h_range : option jsstring;
  h_user_agent : option jsstring;
  h_accept_language : option jsstring;
  origin : jsstring
}.

(** The upstream response: its status, the four headers that are copied
    and its body. *)
Record Upstream : Type := mkUpstream {
  status : N;
  content_type : option jsstring;
  content_length : option jsstring;
  content_range : option jsstring;
  accept_ranges : option jsstring;
  body : Body
}.

(** [upstream.ok] *)
Definition ok (u : Upstream) : bool := (200 <=? status u) && (status u <=? 299).

Inductive ErrorText : Type :=
| InvalidUrl          (* 'Gecersiz url' *)
| BlockedUrl          (* 'Engellenen url' *)
| DownloadFailed.     (* 'Indirilemedi' *)

Inductive Response : Type :=
| JsonError (code : N) (e : ErrorText) (upstream_status : option N)
| Streamed (code : N) (headers : list (jsstring * jsstring)) (b : Body)
| EndpointInfo.

Inductive Outcome : Type :=
| Returns (r : Response)
| Throws.

(** The handler either finishes without any outbound request, or issues
    the one [fetch] (with [redirect: "follow"]) and continues with what it
    gives ([None] when the promise rejects). *)
Inductive Prog : Type :=
| Done (o : Outcome)
| Fetch (target : jsstring) (headers : list (jsstring * jsstring))
        (k : option Upstream -> Outcome).

(** [a ?? b] *)
Definition nullish (a : option jsstring) (b : jsstring) : jsstring :=
  match a with Some s => s | None => b end.

Definition s_http_colon : jsstring := Eval cbv in js "http:".
Definition s_https_colon : jsstring := Eval cbv in js "https:".
Definition s_bytes_0 : jsstring := Eval cbv in js "bytes=0-".
Definition s_default_agent : jsstring := Eval cbv in
  js "Mozilla/5.0 (Windows NT 10.0; Win64; x64) AppleWebKit/537.36 (KHTML, like Gecko) Chrome/120.0.0.0 Safari/537.36".
Definition s_default_language : jsstring := Eval cbv in
  js "tr-TR,tr;q=0.9,en-US;q=0.8,en;q=0.7".
Definition s_no_cache : jsstring := Eval cbv in
  js "no-cache, no-store, must-revalidate".

(** [createContentDispositionHeader] *)
Definition createContentDispositionHeader (filename : jsstring)
  : option jsstring :=
  let safe := sanitizeFilename filename in
  let asciiFallback :=
    or_else (Some (filter (fun c => (32 <=? c) && (c <=? 126)) safe))
            s_download in
  match encodeURIComponent safe with
  | None => None
  | Some encoded =>
      Some (js "attachment; filename=" ++ [dquote] ++ asciiFallback
            ++ [dquote] ++ js "; filename*=UTF-8" ++ [squote; squote]
            ++ encoded)
  end.

Definition set_if (name : string) (v : option jsstring)
  (headers : list (jsstring * jsstring)) : list (jsstring * jsstring) :=
  if truthy_opt v
  then headers ++ [(js name, match v with Some s => s | None => [] end)]
  else headers.

(** What follows the [fetch]. *)
Definition after_fetch (request : Request) (targetUrl : URL)
  (fetched : option Upstream) : Outcome :=
  match fetched with
  | None => Throws
  | Some upstream =>
      if negb (ok upstream) && negb (status upstream =? 206)
      then Returns (JsonError 502 DownloadFailed (Some (status upstream)))
      else
        match decodeURIComponent
                (or_else (snd (pop (split_on 47 (pathname targetUrl))))
                         s_download) with
        | None => Throws
        | Some filenameFromPath =>
            let finalName :=
              sanitizeFilename
                (or_else (filenameParam request)
                   (or_else (Some filenameFromPath) s_download)) in
            let headers :=
              set_if "Accept-Ranges" (accept_ranges upstream)
              (set_if "Content-Range" (content_range upstream)
              (set_if "Content-Length" (content_length upstream)
              (set_if "Content-Type" (content_type upstream) []))) in
            match createContentDispositionHeader finalName with
            | None => Throws
            | Some disposition =>
                Returns (Streamed (status upstream)
                  (headers ++
                   [(js "Content-Disposition", disposition);
                    (js "Cache-Control", s_no_cache);
                    (js "Pragma", js "no-cache");
                    (js "Expires", js "0")])
                  (body upstream))
            end
        end
  end.

Definition GET (request : Request) : Prog :=
  if truthy_opt (urlParam request) then
    match newURL (nullish (urlParam request) []) with
    | None => Done (Returns (JsonError 400 InvalidUrl None))
    | Some targetUrl =>
        if negb (eqs (protocol targetUrl) s_http_colon)
           && negb (eqs (protocol targetUrl) s_https_colon)
        then Done (Returns (JsonError 400 InvalidUrl None))
        else if isBlockedHostname (hostname targetUrl)
        then Done (Returns (JsonError 400 BlockedUrl None))
        else
          Fetch (href targetUrl)
            [(js "range", nullish (h_range request) s_bytes_0);
             (js "user-agent", nullish (h_user_agent request) s_default_agent);
             (js "accept", js "*/*");
             (js "accept-language",
              nullish (h_accept_language request) s_default_language);
             (js "referer", origin request ++ [47])]
            (after_fetch request targetUrl)
    end
  else Done (Returns EndpointInfo).

(** Running the handler against an upstream: the outcome and the outbound
    requests made. *)
Definition run (fetch : jsstring -> list (jsstring * jsstring) -> option Upstream)
  (p : Prog) : Outcome * list jsstring :=
  match p with
  | Done o => (o, [])
  | Fetch target headers k => (k (fetch target headers), [target])
  end.

End Relay.

Arguments JsonError {Body} code e upstream_status.
Arguments EndpointInfo {Body}.
Arguments Throws {Body}.

(** *** [generateFilename] *)

(** The letters the pattern of [generateFilename] lists after the ASCII
    ones: g breve, u diaeresis, s cedilla, dotless i, o diaeresis,
    c cedilla, and their capitals. *)
Definition is_turkish (c : char) : bool :=
  existsb (N.eqb c)
    [287; 252; 351; 305; 246; 231; 286; 220; 350; 304; 214; 199].

(** The class of the characters that stay: ASCII letters and digits, the
    letters above, whitespace and the hyphen. *)
Definition is_kept (c : char) : bool :=
  ((97 <=? c) && (c <=? 122)) || ((65 <=? c) && (c <=? 90)) || is_digit c
  || is_turkish c || is_ws c || (c =? 45).

Definition s_channels : jsstring := Eval cbv in js "channels".

(** [generateFilename(channelName, count)]; [date] is the day part of
    [new Date().toISOString()], read from the clock. *)
Definition generateFilename (date channelName : jsstring) (count : nat)
  : jsstring :=
  let safeName := firstn 50 (trim (filter is_kept channelName)) in
  or_else (Some safeName) s_channels
  ++ [95] ++ number_to_string count ++ [95] ++ date.

End Download.

(* ================================================================== *)
(** ** The pages of the player component *)

Module PlayerView.
Local Open Scope Z_scope.

(** [Array.prototype.slice(start, end)] with integer arguments: a negative
    index counts from the end, and both are clamped to the array. *)
Definition slice (A : Type) (l : list A) (start end_ : Z) : list A :=
  let len := Z.of_nat (length l) in
  let k := if start <? 0 then Z.max (len + start) 0 else Z.min start len in
  let final := if end_ <? 0 then Z.max (len + end_) 0 else Z.min end_ len in
  firstn (Z.to_nat (Z.max (final - k) 0)) (skipn (Z.to_nat k) l).

(** [Math.ceil(n / d)] for an array length [n] and a positive integer [d]:
    the quotient of the two numbers is too far from an integer it does
    not equal for the rounding of the division to reach it. *)
Definition ceil_div (n d : Z) : Z := - ((- n) / d).

(** [displayedChannels] and [totalPages] *)
Definition displayedChannels (A : Type) (filteredChannels : list A)
  (currentPage itemsPerPage : Z) : list A :=
  let startIndex := (currentPage - 1) * itemsPerPage in
  let endIndex := startIndex + itemsPerPage in
  slice filteredChannels startIndex endIndex.

Definition totalPages (A : Type) (filteredChannels : list A)
  (itemsPerPage : Z) : Z :=
  ceil_div (Z.of_nat (length filteredChannels)) itemsPerPage.

(** The number on the [i]-th page button. *)
Definition pageNum (totalPages currentPage i : Z) : Z :=
  if totalPages <=? 5 then i + 1
  else if currentPage <=? 3 then i + 1
  else if totalPages - 2 <=? currentPage then totalPages - 4 + i
  else currentPage - 2 + i.

(** [Array.from({ length: Math.min(5, totalPages) }, (_, i) => ...)] *)
Definition page_buttons (totalPages currentPage : Z) : list Z :=
  List.map (fun i => pageNum totalPages currentPage (Z.of_nat i))
    (seq 0 (Z.to_nat (Z.min 5 totalPages))).

End PlayerView.

(* ================================================================== *)
(** ** Notions used to state the properties *)

Module Spec.
Import JS Regex.

(** The id of the [k]-th entry of a parse run. *)
Definition channel_id (k : nat) : jsstring :=
  Route.s_channel_ ++ number_to_string k.

(** The ids [channel-0], ..., [channel-(n-1)]. *)
Definition dense_ids (n : nat) : list (option jsstring) :=
  List.map (fun k => Some (channel_id k)) (seq 0 n).

(** The ids as the specification writes them: [entry-0], ... *)
Definition entry_ids (n : nat) : list (option jsstring) :=
  List.map (fun k => Some (js "entry-" ++ number_to_string k)) (seq 0 n).

Definition ids_dense (p : Route.StreamingM3UParser) : Prop :=
  Route.channelId p = length (Route.channels p)
  /\ List.map Route.id (Route.channels p)
     = dense_ids (length (Route.channels p)).

(** The digits read back. *)
Fixpoint chars_uint (s : jsstring) : Decimal.uint :=
  match s with
  | [] => Decimal.Nil
  | c :: s' =>
      let d := chars_uint s' in
      if c =? 48 then Decimal.D0 d else if c =? 49 then Decimal.D1 d
      else if c =? 50 then Decimal.D2 d else if c =? 51 then Decimal.D3 d
      else if c =? 52 then Decimal.D4 d else if c =? 53 then Decimal.D5 d
      else if c =? 54 then Decimal.D6 d else if c =? 55 then Decimal.D7 d
      else if c =? 56 then Decimal.D8 d else Decimal.D9 d
  end.

(** The entries returned by the successive calls of [parse]. *)
Fixpoint returned_by_feeds (p : Route.StreamingM3UParser)
  (chunks : list jsstring) : list Route.M3UChannel :=
  match chunks with
  | [] => []
  | c :: chunks' =>
      fst (Route.parse p c) ++ returned_by_feeds (snd (Route.parse p c)) chunks'
  end.

(** A parser with another buffered text. *)
Definition with_buffer (b : jsstring) (p : Route.StreamingM3UParser)
  : Route.StreamingM3UParser :=
  Route.mkParser (Route.channels p) (Route.currentInfo p) b
                 (Route.channelId p).

Definition q : jsstring := [dquote].
Definition nl : jsstring := [LF].

(** The playlist of the scenario of the specification. *)
Definition sample_playlist : jsstring :=
  js "#EXTM3U" ++ nl
  ++ js "#EXTINF:-1 tvg-name=" ++ q ++ js "A" ++ q
  ++ js " group-title=" ++ q ++ js "G1" ++ q ++ js ",A" ++ nl
  ++ js "http://x/a" ++ nl
  ++ js "#EXTINF:-1 tvg-name=" ++ q ++ js "B" ++ q ++ js ",B" ++ nl
  ++ js "http://x/b" ++ nl.

(** The same playlist without the terminator of its last line. *)
Definition sample_unterminated : jsstring := removelast sample_playlist.

(** A playlist that ends inside an info line. *)
Definition sample_cut_info : jsstring :=
  sample_playlist ++ js "#EXTINF:-1 tvg-id=" ++ q ++ js "c" ++ q ++ js ",C".

(** Two info lines in a row, then nothing. *)
Definition sample_two_infos : jsstring :=
  js "#EXTINF:-1 tvg-id=" ++ q ++ js "a" ++ q ++ js ",A" ++ nl
  ++ js "#EXTINF:-1 tvg-id=" ++ q ++ js "b" ++ q ++ js ",B" ++ nl.

(** What the scenarios look at: the id, the group and the URL. *)
Definition summary_of (c : Route.M3UChannel)
  : option jsstring * option jsstring * option jsstring :=
  (Route.id c, Route.groupTitle c, Route.url c).

Definition mem (x : jsstring) (l : list jsstring) : bool :=
  existsb (eqs x) l.




(** The text of an info line after its duration, as [parseExtInfo]
    computes it. *)
Definition info_rest (line : jsstring) : jsstring :=
  remove_at_start Route.re_duration (substring_from 8 line).




(** A hostname of dotted-quad shape: four runs of one to three digits
    separated by dots. *)
Definition is_part (a : jsstring) : bool :=
  (1 <=? length a)%nat && (length a <=? 3)%nat && forallb is_digit a.

Definition quad (a b c d : jsstring) : jsstring :=
  a ++ [dot] ++ b ++ [dot] ++ c ++ [dot] ++ d.

(** The hosts of the rejection table of the specification. *)
Definition blocked_table : list jsstring :=
  [js "127.0.0.1"; js "10.1.2.3"; js "192.168.1.1"; js "172.20.0.5";
   js "169.254.1.1"; js "localhost"].

Definition public_host : jsstring := js "93.184.216.34".

(** The scheme gate of the relay. *)
Definition web_scheme (u : Download.URL) : bool :=
  eqs (Download.protocol u) Download.s_http_colon
  || eqs (Download.protocol u) Download.s_https_colon.

(** An info line whose only hint of a name is the [tvg-name] attribute,
    and one in the plain form of the format. *)
Definition info_name_only : jsstring :=
  js "#EXTINF:-1 tvg-name=" ++ q ++ js "A" ++ q.
Definition info_bare : jsstring := js "#EXTINF:-1,Name".

Definition playlist_of (info : jsstring) : jsstring :=
  js "#EXTM3U" ++ nl ++ info ++ nl ++ js "http://x/a" ++ nl.

(** The keys of the attributes. *)
Definition six_keys : list jsstring :=
  [Route.k_tvg_name; Route.k_tvg_logo; Route.k_tvg_id; Route.k_tvg_country;
   Route.k_tvg_language; Route.k_group_title].

(** A text that ends with an attribute key and an equals sign. *)
Definition ends_with_key (v : jsstring) : bool :=
  existsb (fun k => endsWith (k ++ [61]) v) six_keys.

(** A text without leading or trailing whitespace, and not empty. *)
Definition solid (s : jsstring) : bool :=
  match s with
  | [] => false
  | c :: _ => negb (is_ws c) && negb (is_ws (last s c))
  end.

Definition no_comma (c : char) : bool := negb (c =? comma).

(** A display name that survives the round trip: no surrounding
    whitespace, no comma, no line terminator, and no attribute key with
    an equals sign at its end. *)
Definition name_ok (n : jsstring) : bool :=
  solid n
  && forallb (fun c => no_comma c && negb (is_line_terminator c)) n
  && negb (ends_with_key n).

(** An attribute value that survives the round trip: not empty, no
    comma, no double quote, no line break, and no attribute key with an
    equals sign at its end. *)
Definition value_ok (v : jsstring) : bool :=
  truthy v
  && forallb (fun c => no_comma c && Route.not_dquote c
                       && negb (Download.is_crlf c)) v
  && negb (ends_with_key v).

(** A URL line: it starts with [http], has no surrounding whitespace and
    no line break. *)
Definition url_ok (u : jsstring) : bool :=
  startsWith Route.s_http u && solid u
  && forallb (fun c => negb (Download.is_crlf c)) u.

(** An optional field: absent, empty, or a value as above. *)
Definition optional_ok (o : option jsstring) : bool :=
  match o with
  | None => true
  | Some v => negb (truthy v) || value_ok v
  end.

Definition entry_ok (e : Download.Channel) : bool :=
  name_ok (Download.tvgName e) && url_ok (Download.url e)
  && match Download.groupTitle e with
     | Some g => value_ok g
     | None => false
     end
  && optional_ok (Download.tvgLogo e) && optional_ok (Download.tvgId e)
  && optional_ok (Download.tvgCountry e)
  && optional_ok (Download.tvgLanguage e).

(** An optional field of the entry comes back, when it was emitted. *)
Definition kept (o parsed : option jsstring) : Prop :=
  forall v, o = Some v -> truthy v = true -> parsed = Some v.

(** The fields of a parsed entry are those of the entry it was generated
    from. *)
Definition same_entry (e : Download.Channel) (c : Route.M3UChannel) : Prop :=
  Route.url c = Some (Download.url e)
  /\ Route.groupTitle c = Download.groupTitle e
  /\ Route.tvgName c = Some (Download.tvgName e)
  /\ kept (Download.tvgLogo e) (Route.tvgLogo c)
  /\ kept (Download.tvgId e) (Route.tvgId c)
  /\ kept (Download.tvgCountry e) (Route.tvgCountry c)
  /\ kept (Download.tvgLanguage e) (Route.tvgLanguage c).

(** The attributes a channel emits, each with its key and its escaped
    value, in the order of the generator. *)
Definition emitted_opt (k : jsstring) (v : option jsstring)
  : list (jsstring * jsstring) :=
  if truthy_opt v
  then [(k, Download.escapeAttribute
              (match v with Some x => x | None => [] end))]
  else [].

Definition emitted (e : Download.Channel) : list (jsstring * jsstring) :=
  emitted_opt Route.k_tvg_name (Some (Download.tvgName e))
  ++ emitted_opt Route.k_tvg_logo (Download.tvgLogo e)
  ++ emitted_opt Route.k_tvg_id (Download.tvgId e)
  ++ emitted_opt Route.k_tvg_country (Download.tvgCountry e)
  ++ emitted_opt Route.k_tvg_language (Download.tvgLanguage e)
  ++ emitted_opt Route.k_group_title (Download.groupTitle e).

Definition render (kv : jsstring * jsstring) : jsstring :=
  Download.attribute (fst kv) (snd kv).

(** The text of an attribute as it stands in the line: the value is
    already escaped. *)
Definition render_raw (kv : jsstring * jsstring) : jsstring :=
  fst kv ++ [61; dquote] ++ snd kv ++ [dquote].

Fixpoint assoc (k : jsstring) (l : list (jsstring * jsstring))
  : option jsstring :=
  match l with
  | [] => None
  | (k', v) :: l' => if eqs k k' then Some v else assoc k l'
  end.

(** An escaped value in which the patterns of the keys find nothing. *)
Definition zone_ok (a : jsstring) : Prop :=
  forallb Route.not_dquote a = true
  /\ forallb no_comma a = true
  /\ forall K i, In K six_keys -> skipn i a <> K ++ [61].

Definition attrs_ok (l : list (jsstring * jsstring)) : Prop :=
  Forall (fun kv =>
            In (fst kv) six_keys /\ zone_ok (snd kv)
            /\ forallb (fun c => negb (Download.is_crlf c)) (snd kv) = true)
         l.

(** The info line of a channel, without its terminator. *)
Definition info_line (e : Download.Channel) : jsstring :=
  Download.s_EXTINF_1
  ++ Download.join_space (List.map render_raw (emitted e))
  ++ comma :: Download.escapeValue (Download.tvgName e).

(** The two lines of a channel, without their terminators. *)
Definition lines_of (e : Download.Channel) : list jsstring :=
  [info_line e; Download.url e].

(** An entry whose name holds a comma, and a list that passes. *)
Definition comma_entry : Download.Channel :=
  Download.mkChannel (js "channel-0") (js "A,B") None None None None None
    (Some (js "G")) (js "http://x/a").

Definition plain_entries : list Download.Channel :=
  [Download.mkChannel (js "channel-0") (js "News 24 (HD)") None
     (Some (js "http://l/n.png?a=b&c=d")) (Some (js "n24")) None
     (Some (js "en")) (Some (js "News")) (js "http://x/a?t=1,2");
   Download.mkChannel (js "channel-1") ([233] ++ js "t" ++ [233]) None None
     None None None (Some (js "Other")) (js "https://x/b")].

(** The bytes of an ASCII text. *)
Definition ascii_bytes (s : jsstring) : list Byte.byte :=
  flat_map (fun c => match Byte.of_N c with Some b => [b] | None => [] end) s.

(** The extension gate of the parse endpoint. *)
Definition playlist_name (f : Route.File) : bool :=
  endsWith Route.s_m3u (toLowerCase (Route.name f))
  || endsWith Route.s_m3u8 (toLowerCase (Route.name f)).

(** What the endpoint answers for a file that passes its gates. *)
Definition parsed (f : Route.File) : Route.Response :=
  let chs := Route.parse_bytes (Route.file_chunks (Route.content f)) in
  Route.JsonResult
    (Route.mkResult chs (length chs) (Route.group_summary chs)).

Definition sample_file : Route.File :=
  Route.mkFile (js "list.M3U8") (ascii_bytes sample_playlist).
Definition sample_txt_file : Route.File :=
  Route.mkFile (js "list.txt") (ascii_bytes sample_playlist).
Definition empty_file : Route.File := Route.mkFile (js "list.m3u") [].
Definition huge_file : Route.File :=
  Route.mkFile (js "list.m3u") (repeat Byte.x0a (N.to_nat 52428801)).

(** A playlist whose single entry is named by U+00E9, the two bytes of
    which are the last byte of the first 64 KiB and the first byte after
    it: line feeds, the info line up to the comma, C3 A9, and the URL
    line. *)
Definition boundary_info : list Byte.byte :=
  ascii_bytes (js "#EXTINF:-1 tvg-id=" ++ q ++ js "x" ++ q ++ js ",").
Definition boundary_tail : list Byte.byte :=
  Byte.xa9 :: ascii_bytes (nl ++ js "http://x/a" ++ nl).
Definition boundary_head : list Byte.byte :=
  repeat Byte.x0a (Route.CHUNK_SIZE - 1 - length boundary_info)
  ++ boundary_info ++ [Byte.xc3].
Definition boundary_file : Route.File :=
  Route.mkFile (js "list.m3u") (boundary_head ++ boundary_tail).

(** The same split on a short text. *)
Definition short_head : list Byte.byte := boundary_info ++ [Byte.xc3].

(** A request whose target is the URL [u], for the URL parser [newURL]. *)
Definition targets (newURL : jsstring -> option Download.URL)
  (req : Download.Request) (u : Download.URL) : Prop :=
  truthy_opt (Download.urlParam req) = true
  /\ newURL (Download.nullish (Download.urlParam req) []) = Some u.

(** A hostname of the rejection table, or a dotted quad of the 0.0.0.0/8
    block. *)
Definition in_rejection_table (h : jsstring) : Prop :=
  In h blocked_table
  \/ exists a b c d,
       is_part a = true /\ is_part b = true /\ is_part c = true
       /\ is_part d = true /\ Download.digits_value a = 0
       /\ h = quad a b c d.

(** A toy platform for the examples: every URL text parses to the given
    URL, and the two codecs leave their argument as it is. *)
Definition url_of (scheme host path : string) : Download.URL :=
  Download.mkURL (js scheme ++ [58]) (js host) (js path)
    (js scheme ++ js "://" ++ js host ++ js path).

Definition toy_request : Download.Request :=
  Download.mkRequest (Some (js "http://host/a.ts")) None None None None
    (js "http://localhost:3000").

Definition toy_codec (s : jsstring) : option jsstring := Some s.

Definition toy_upstream (code : N) : Download.Upstream unit :=
  Download.mkUpstream code None None None None tt.

(** An entry as the parser of the route hands it out: an id, a name and a
    group that are not empty, a URL line that starts with [http] and has
    no surrounding whitespace. *)
Definition well_formed (c : Route.M3UChannel) : bool :=
  truthy_opt (Route.id c) && truthy_opt (Route.tvgName c)
  && truthy_opt (Route.groupTitle c)
  && match Route.url c with
     | Some u => startsWith Route.s_http u && solid u
     | None => false
     end.

(** A pending accumulator: when it has a name it has a group. *)
Definition pending_ok (i : Route.M3UChannel) : bool :=
  negb (truthy_opt (Route.tvgName i)) || truthy_opt (Route.groupTitle i).

(** Info lines and URL lines, as the loop of [parse] tells them apart. *)
Definition is_info_line (l : jsstring) : bool :=
  startsWith Route.s_EXTINF (trim l).
Definition is_url_line (l : jsstring) : bool :=
  startsWith Route.s_http (trim l).

(** The number of lines of a text that pass a test. *)
Definition count_lines (p : jsstring -> bool) (text : jsstring) : nat :=
  length (filter p (split_lines text)).

(** Bytes below 0x80. *)
Definition ascii_only (bs : list Byte.byte) : bool :=
  forallb (fun b => Byte.to_N b <=? 127) bs.

(** The sum of the counts of a group summary. *)
Definition total_count (groups : list (jsstring * nat)) : nat :=
  list_sum (List.map snd groups).

(** The invariant of a parse run: the entries so far are well formed and
    the pending accumulator is sound. *)
Definition parser_sound (p : Route.StreamingM3UParser) : Prop :=
  forallb well_formed (Route.channels p) = true
  /\ pending_ok (Route.currentInfo p) = true.

(** One when the accumulator holds a name, as the URL branch of [parse]
    tests it. *)
Definition pending_count (p : Route.StreamingM3UParser) : nat :=
  if truthy_opt (Route.tvgName (Route.currentInfo p)) then 1 else 0.

(** The verdict of the guard on a dotted quad, by the numbers of its
    parts. *)
Definition quad_verdict (a b c d : N) : bool :=
  (255 <? a) || (255 <? b) || (255 <? c) || (255 <? d)
  || (a =? 10) || (a =? 127) || ((a =? 192) && (b =? 168))
  || ((a =? 172) && (16 <=? b) && (b <=? 31))
  || ((a =? 169) && (b =? 254)) || (a =? 0).

(** The characters of a dotted quad. *)
Definition quad_char (c : char) : bool := is_digit c || (c =? dot).

(** Every character a pattern can consume belongs to the class [P]. *)
Fixpoint within (P : char -> bool) (r : regex) : Prop :=
  match r with
  | Lit l => forallb P l = true
  | Cls p => forall c, p c = true -> P c = true
  | Rep _ _ p => forall c, p c = true -> P c = true
  | Cat r1 r2 => within P r1 /\ within P r2
  | Opt r1 => within P r1
  | Times _ r1 => within P r1
  | Grp r1 => within P r1
  | Eos => True
  end.

(** A character that can stand in a file name, and one that can stand in
    the quoted file name of a header. *)
Definition name_char (c : char) : bool :=
  negb (Download.is_illegal c) && (negb (is_ws c) || (c =? space)).
Definition quoted_char (c : char) : bool :=
  (32 <=? c) && (c <=? 126) && negb (c =? dquote) && negb (c =? 92).

(** The header of [createContentDispositionHeader] for a quoted name and
    an encoded name. *)
Definition disposition (quoted encoded : jsstring) : jsstring :=
  js "attachment; filename=" ++ [dquote] ++ quoted ++ [dquote]
  ++ js "; filename*=UTF-8" ++ [squote; squote] ++ encoded.

(** A bracketed IPv6 loopback and a name with a trailing dot. *)
Definition bracketed_loopback : jsstring := js "[::1]".

(** Attributes with keys of the generator and values without a line
    break. *)
Definition plain_attrs (l : list (jsstring * jsstring)) : Prop :=
  Forall (fun kv =>
            In (fst kv) six_keys
            /\ forallb (fun c => negb (Download.is_crlf c)) (snd kv) = true)
         l.

(** A text without a line break. *)
Definition one_line (s : jsstring) : bool :=
  forallb (fun c => negb (Download.is_crlf c)) s.

(** A value as it can stand between the double quotes of an attribute. *)
Definition attr_char (c : char) : bool :=
  Route.not_dquote c && negb (Download.is_crlf c).

(** Entries with any name and any attributes, and a URL of two lines. *)
Definition odd_entries : list Download.Channel :=
  [Download.mkChannel (js "x") (js "A, B" ++ [LF] ++ js "http://evil/")
     None (Some (js "l" ++ [dquote] ++ js " tvg-id=" ++ [dquote] ++ js "z"))
     None None None None (js "http://x/a");
   Download.mkChannel (js "y") [] None None None None None None
     (js "https://x/b")].

(** The characters the duration pattern can consume. *)
Definition duration_char (c : char) : bool :=
  (c =? 45) || is_digit c || is_ws c || (c =? comma).

(** The group of an entry in the two parsers: the captured value, or the
    word each parser puts in its place. *)
Definition same_group (pg rg : option jsstring) : Prop :=
  (pg = None /\ rg = None)
  \/ exists m, pg = Some (or_else m Player.s_Diger)
               /\ rg = Some (or_else m Route.s_Other).

(** What the parser of the player and the parser of the route share in an
    accumulator, and in an entry. *)
Definition same_info (pi : Player.M3UChannel) (ri : Route.M3UChannel)
  : Prop :=
  truthy_opt (Player.tvgName pi) = truthy_opt (Route.tvgName ri)
  /\ Player.tvgLogo pi = Route.tvgLogo ri
  /\ Player.tvgId pi = Route.tvgId ri
  /\ Player.tvgCountry pi = Route.tvgCountry ri
  /\ Player.tvgLanguage pi = Route.tvgLanguage ri
  /\ same_group (Player.groupTitle pi) (Route.groupTitle ri).

Definition same_parsed (pc : Player.M3UChannel) (rc : Route.M3UChannel)
  : Prop :=
  Player.id pc = Route.id rc /\ Player.url pc = Route.url rc
  /\ truthy_opt (Player.tvgName pc) = true
  /\ same_info pc rc.

(** The two parsers in step. *)
Definition in_step (ps : list Player.M3UChannel * Player.M3UChannel)
  (p : Route.StreamingM3UParser) : Prop :=
  Forall2 same_parsed (fst ps) (Route.channels p)
  /\ Route.channelId p = length (Route.channels p)
  /\ same_info (snd ps) (Route.currentInfo p).

(** The entry the loop of the player pushes for a URL line. *)
Definition player_channel (info : Player.M3UChannel) (line : jsstring)
  (n : nat) : Player.M3UChannel :=
  Player.mkChannel (Some (Route.s_channel_ ++ number_to_string n))
    (Player.tvgName info) (Player.tvgNameAttribute info)
    (Player.tvgLogo info) (Player.tvgId info) (Player.tvgCountry info)
    (Player.tvgLanguage info) (Player.groupTitle info) (Some line).

(** The fields of an entry of the player are those of the channel it was
    generated from. *)
Definition same_entry_player (e : Download.Channel) (c : Player.M3UChannel)
  : Prop :=
  Player.url c = Some (Download.url e)
  /\ Player.groupTitle c = Download.groupTitle e
  /\ Player.tvgName c = Some (Download.tvgName e)
  /\ Player.tvgNameAttribute c
     = Some (Download.escapeAttribute (Download.tvgName e))
  /\ kept (Download.tvgLogo e) (Player.tvgLogo c)
  /\ kept (Download.tvgId e) (Player.tvgId c)
  /\ kept (Download.tvgCountry e) (Player.tvgCountry c)
  /\ kept (Download.tvgLanguage e) (Player.tvgLanguage c).

(** The page numbers 1, ..., n. *)
Definition page_numbers (n : nat) : list Z :=
  List.map (fun k => Z.of_nat (S k)) (seq 0 n).

(** The integers first, first + 1, ... *)
Definition run_from (first : Z) (n : nat) : list Z :=
  List.map (fun i => (first + Z.of_nat i)%Z) (seq 0 n).

(** A chunk that ends between two characters: the decoder is left with
    no sequence open. *)
Definition complete (chunk : list Byte.byte) : bool :=
  Utf8.bytes_needed (fst (Utf8.run Utf8.fresh chunk)) =? 0.

(** A chunk whose first code point is the byte order mark. *)
Definition starts_with_bom (chunk : list Byte.byte) : bool :=
  match snd (Utf8.run Utf8.fresh chunk) with
  | c :: _ => c =? 0xFEFF
  | [] => false
  end.

(** A cut of the bytes of a file that falls between characters, with no
    byte order mark at the start of a later chunk. *)
Definition clean_cut (chunks : list (list Byte.byte)) : bool :=
  forallb complete chunks
  && forallb (fun c => negb (starts_with_bom c)) (tl chunks).

(** A text with characters of two and three bytes, in UTF-8: the info
    line of a channel named by U+00E9 and U+20AC. *)
Definition wide_bytes : list Byte.byte :=
  ascii_bytes (js "#EXTINF:-1,")
  ++ [Byte.xc3; Byte.xa9; Byte.xe2; Byte.x82; Byte.xac; Byte.x0a]
  ++ ascii_bytes (js "http://x/a").

(** A request for a URL, a URL parser that knows this one URL, and one
    that refuses every text. *)
Definition request_for (url : string) : Download.Request :=
  Download.mkRequest (Some (js url)) None None None None
    (js "http://localhost:3000").

Definition parses_to (url : string) (u : Download.URL) (s : jsstring)
  : option Download.URL :=
  if eqs s (js url) then Some u else None.

Definition refuses (s : jsstring) : option Download.URL := None.




(** The name the parsers read for [comma_entry]: B, the closing quote of
    the name attribute, the group attribute, and the display name. *)
Definition comma_entry_read : jsstring :=
  js "B" ++ q ++ js " group-title=" ++ q ++ js "G" ++ q ++ js ",A,B".

End Spec.

(* ================================================================== *)
(** ** Properties *)

Import JS Regex.

(** *** Basic facts on strings *)

Lemma eqs_refl (a : jsstring) : eqs a a = true.
Proof.
  induction a as [|x a IH]; simpl; [reflexivity|].
  now rewrite N.eqb_refl.
Qed.

Lemma eqs_eq (a b : jsstring) : eqs a b = true <-> a = b.
Proof.
  split.
  - revert b; induction a as [|x a IH]; intros [|y b] H; simpl in H;
      try discriminate; [reflexivity|].
    apply andb_true_iff in H as [Hx Hr].
    apply N.eqb_eq in Hx. now rewrite Hx, (IH b Hr).
  - intros ->. apply eqs_refl.
Qed.

Lemma eqs_neq (a b : jsstring) : eqs a b = false <-> a <> b.
Proof.
  split.
  - intros H E. apply eqs_eq in E. congruence.
  - intros H. destruct (eqs a b) eqn:E; [|reflexivity].
    apply eqs_eq in E. contradiction.
Qed.

Lemma chars_uint_chars (d : Decimal.uint) :
  Spec.chars_uint (uint_chars d) = d.
Proof.
  induction d; simpl; try reflexivity; now rewrite IHd.
Qed.

Lemma number_to_string_inj (m n : nat) :
  number_to_string m = number_to_string n -> m = n.
Proof.
  unfold number_to_string. intros H.
  apply (f_equal Spec.chars_uint) in H.
  rewrite !chars_uint_chars in H.
  apply (f_equal Nat.of_uint) in H.
  now rewrite !DecimalNat.Unsigned.of_to in H.
Qed.

(** *** The cases of the loop body *)

(** The five ways through the body of the loop of [parse]: a line that is
    skipped, an info line, a URL line with and without a pending name, and
    any other line. *)
Ltac parse_line_cases line p :=
  unfold Route.parse_line;
  destruct (negb (truthy (trim line))
            || startsWith Route.s_EXTM3U (trim line));
  [ | destruct (startsWith Route.s_EXTINF (trim line));
      [ | destruct (startsWith Route.s_http (trim line));
          [ destruct (truthy_opt (Route.tvgName (Route.currentInfo p)))
          | ] ] ].

(** *** The scenarios of the specification *)

Section Scenarios.
Import Route Spec.

(** The sample playlist, fed as two chunks cut inside its second line:
    two entries, [channel-0] in [G1] and [channel-1] in the sentinel
    group. *)
Example scenario_two_chunks :
  List.map summary_of
    (parse_texts [firstn 30 sample_playlist; skipn 30 sample_playlist])
  = [(Some (js "channel-0"), Some (js "G1"), Some (js "http://x/a"));
     (Some (js "channel-1"), Some s_Other, Some (js "http://x/b"))].
Proof. vm_compute. reflexivity. Qed.

(** An info line right after another one: no entry from either. *)
Example scenario_two_infos : parse_texts [sample_two_infos] = [].
Proof. vm_compute. reflexivity. Qed.

(** A line ending in CR LF, cut between the two. *)
Example scenario_cut_crlf :
  List.map summary_of
    (parse_texts [js "#EXTINF:-1 tvg-id=" ++ q ++ js "a" ++ q ++ js ",A" ++ [CR];
                  nl ++ js "http://x/a" ++ [CR; LF]])
  = [(Some (js "channel-0"), Some s_Other, Some (js "http://x/a"))].
Proof. vm_compute. reflexivity. Qed.

End Scenarios.

(** *** Identifiers of a parse run *)

Section Ids.
Import Route Spec.

Lemma dense_ids_S (n : nat) :
  dense_ids (S n) = dense_ids n ++ [Some (channel_id n)].
Proof.
  unfold dense_ids. rewrite seq_S, map_app. reflexivity.
Qed.

Lemma dense_ids_NoDup (n : nat) : NoDup (dense_ids n).
Proof.
  unfold dense_ids. apply Finite.Injective_map_NoDup; [|apply seq_NoDup].
  intros a b H. apply number_to_string_inj.
  assert (E : channel_id a = channel_id b) by congruence.
  exact (app_inv_head _ _ _ E).
Qed.

Lemma ids_dense_push (p : StreamingM3UParser) (info : M3UChannel)
  (t b : jsstring) :
  ids_dense p ->
  ids_dense (mkParser (channels p ++ [make_channel info t (channelId p)])
                      empty_info b (S (channelId p))).
Proof.
  intros [Hn Hi]. split; simpl.
  - rewrite length_app, Hn. simpl. lia.
  - rewrite map_app, length_app, Hi. simpl.
    rewrite Nat.add_1_r, dense_ids_S, Hn. reflexivity.
Qed.

Lemma parse_line_ids (st : list M3UChannel * StreamingM3UParser)
  (line : jsstring) :
  ids_dense (snd st) -> ids_dense (snd (parse_line st line)).
Proof.
  destruct st as [nc p]. intros H.
  parse_line_cases line p; try exact H.
  now apply ids_dense_push.
Qed.

Lemma fold_parse_line_ids (lines : list jsstring)
  (st : list M3UChannel * StreamingM3UParser) :
  ids_dense (snd st) -> ids_dense (snd (fold_left parse_line lines st)).
Proof.
  revert st; induction lines as [|l lines IH]; intros st H; simpl;
    [exact H|].
  apply IH. now apply parse_line_ids.
Qed.

Lemma parse_ids (p : StreamingM3UParser) (chunk : jsstring) :
  ids_dense p -> ids_dense (snd (parse p chunk)).
Proof.
  intros H. unfold parse.
  destruct (pop (split_lines (buffer p ++ chunk))) as [lines last].
  apply fold_parse_line_ids. exact H.
Qed.

Lemma feed_all_ids (chunks : list jsstring) (p : StreamingM3UParser) :
  ids_dense p -> ids_dense (feed_all p chunks).
Proof.
  revert p; induction chunks as [|c chunks IH]; intros p H; simpl;
    [exact H|].
  apply IH. now apply parse_ids.
Qed.

Lemma finalize_ids (p : StreamingM3UParser) :
  ids_dense p ->
  List.map id (fst (finalize p)) = dense_ids (length (fst (finalize p))).
Proof.
  intros [Hn Hi]. unfold finalize.
  destruct (truthy (trim (buffer p)) && startsWith s_http (trim (buffer p))
            && truthy_opt (tvgName (currentInfo p))); simpl; [|exact Hi].
  rewrite map_app, length_app, Hi. simpl.
  rewrite Nat.add_1_r, dense_ids_S, Hn. reflexivity.
Qed.

Lemma new_parser_ids : ids_dense new_parser.
Proof. split; reflexivity. Qed.

(** C6 (as amended).  The ids of the [N] entries of a parse run are exactly
    [channel-0], ..., [channel-(N-1)], in that order and without repeats,
    whatever the chunks (of text or of bytes) and however many lines were
    skipped. *)
Theorem parse_run_ids_dense :
  (forall chunks : list jsstring,
     List.map id (parse_texts chunks)
     = dense_ids (length (parse_texts chunks))
     /\ NoDup (List.map id (parse_texts chunks)))
  /\ (forall chunks : list (list Byte.byte),
     List.map id (parse_bytes chunks)
     = dense_ids (length (parse_bytes chunks))
     /\ NoDup (List.map id (parse_bytes chunks))).
Proof.
  assert (H : forall chunks : list jsstring,
     List.map id (parse_texts chunks)
     = dense_ids (length (parse_texts chunks))
     /\ NoDup (List.map id (parse_texts chunks))).
  { intros chunks.
    assert (E : List.map id (parse_texts chunks)
                = dense_ids (length (parse_texts chunks))).
    { unfold parse_texts. apply finalize_ids, feed_all_ids, new_parser_ids. }
    split; [exact E|]. rewrite E. apply dense_ids_NoDup. }
  split; [exact H|].
  intros chunks. unfold parse_bytes. apply H.
Qed.

End Ids.

(** *** What [finalize] returns *)

Section Finalize.
Import Route Spec.

Lemma parse_line_channels (base : list M3UChannel)
  (st : list M3UChannel * StreamingM3UParser) (line : jsstring) :
  channels (snd st) = base ++ fst st ->
  channels (snd (parse_line st line)) = base ++ fst (parse_line st line).
Proof.
  destruct st as [nc p]. cbn [fst snd]. intros H.
  parse_line_cases line p; try exact H.
  cbn [fst snd channels]. now rewrite H, app_assoc.
Qed.

Lemma fold_parse_line_channels (base : list M3UChannel)
  (lines : list jsstring) (st : list M3UChannel * StreamingM3UParser) :
  channels (snd st) = base ++ fst st ->
  channels (snd (fold_left parse_line lines st))
  = base ++ fst (fold_left parse_line lines st).
Proof.
  revert st; induction lines as [|l lines IH]; intros st H; simpl;
    [exact H|].
  apply IH. now apply parse_line_channels.
Qed.

Lemma parse_channels (p : StreamingM3UParser) (chunk : jsstring) :
  channels (snd (parse p chunk)) = channels p ++ fst (parse p chunk).
Proof.
  unfold parse.
  destruct (pop (split_lines (buffer p ++ chunk))) as [lines last].
  apply fold_parse_line_channels. simpl. now rewrite app_nil_r.
Qed.

Lemma feed_all_channels (chunks : list jsstring) (p : StreamingM3UParser) :
  channels (feed_all p chunks) = channels p ++ returned_by_feeds p chunks.
Proof.
  revert p; induction chunks as [|c chunks IH]; intros p; simpl.
  - now rewrite app_nil_r.
  - rewrite IH, parse_channels, app_assoc. reflexivity.
Qed.

Lemma startsWith_http_truthy (t : jsstring) :
  startsWith s_http t = true -> truthy t = true.
Proof. destruct t; cbn; intros H; [discriminate H|reflexivity]. Qed.

Lemma startsWith_EXTINF_not_http (t : jsstring) :
  startsWith s_EXTINF t = true -> startsWith s_http t = false.
Proof.
  destruct t as [|c t]; [reflexivity|].
  unfold s_EXTINF, s_http. cbn [startsWith].
  destruct (35 =? c) eqn:E; [|discriminate].
  apply N.eqb_eq in E. subst c. reflexivity.
Qed.

(** C4 (as amended).  [finalize] returns the whole entry list of the run:
    the entries returned by the earlier calls of [parse], in order,
    followed by one last entry exactly when the trailing buffered text is
    a URL line and the pending accumulator has a name; that entry takes the
    next id.  In every other case, and in particular when the text ends in
    an unterminated info line, nothing is added. *)
Theorem finalize_returns_whole_run (chunks : list jsstring) :
  let p := feed_all new_parser chunks in
  let earlier := returned_by_feeds new_parser chunks in
  (startsWith s_http (trim (buffer p)) = true ->
   truthy_opt (tvgName (currentInfo p)) = true ->
   parse_texts chunks
   = earlier ++ [make_channel (currentInfo p) (trim (buffer p))
                              (length earlier)])
  /\ (startsWith s_http (trim (buffer p)) = false
      \/ truthy_opt (tvgName (currentInfo p)) = false ->
      parse_texts chunks = earlier)
  /\ (startsWith s_EXTINF (trim (buffer p)) = true ->
      parse_texts chunks = earlier).
Proof.
  intros p earlier.
  assert (Hc : channels p = earlier).
  { unfold p, earlier. now rewrite feed_all_channels. }
  assert (Hn : channelId p = length earlier).
  { rewrite <- Hc. apply (feed_all_ids chunks new_parser_ids). }
  assert (Hno : startsWith s_http (trim (buffer p)) = false
                \/ truthy_opt (tvgName (currentInfo p)) = false ->
                parse_texts chunks = earlier).
  { intros H. unfold parse_texts. fold p. unfold finalize.
    destruct H as [H|H]; rewrite H; rewrite ?andb_false_r; exact Hc. }
  split; [|split].
  - intros Hu Ht. unfold parse_texts. fold p. unfold finalize.
    rewrite (startsWith_http_truthy _ Hu), Hu, Ht. simpl.
    now rewrite Hc, Hn.
  - exact Hno.
  - intros H. apply Hno. left. now apply startsWith_EXTINF_not_http.
Qed.

(** The theorem at the sample playlists: one that ends in an unterminated
    URL line, the complete one, and one cut inside an info line. *)
Lemma finalize_returns_whole_run_witness :
  (parse_texts [sample_unterminated]
   = returned_by_feeds new_parser [sample_unterminated]
     ++ [make_channel
           (currentInfo (feed_all new_parser [sample_unterminated]))
           (trim (buffer (feed_all new_parser [sample_unterminated])))
           (length (returned_by_feeds new_parser [sample_unterminated]))])
  /\ parse_texts [sample_playlist]
     = returned_by_feeds new_parser [sample_playlist]
  /\ parse_texts [sample_cut_info]
     = returned_by_feeds new_parser [sample_cut_info].
Proof.
  split; [|split].
  - apply (proj1 (finalize_returns_whole_run [sample_unterminated]));
      reflexivity.
  - apply (proj1 (proj2 (finalize_returns_whole_run [sample_playlist]))).
    left. reflexivity.
  - apply (proj2 (proj2 (finalize_returns_whole_run [sample_cut_info]))).
    reflexivity.
Defined.

(** C4, as stated, fails: after a complete playlist nothing is buffered,
    and [finalize] still returns the two entries that the call of [parse]
    had returned. *)
Lemma finalize_only_new_entries_counterexample :
  let p := feed_all new_parser [sample_playlist] in
  buffer p = []
  /\ fst (finalize p) = fst (parse new_parser sample_playlist)
  /\ length (fst (finalize p)) = 2%nat.
Proof. vm_compute. repeat split. Qed.

(** C6, as stated, fails on the prefix of the ids. *)
Lemma entry_prefix_counterexample :
  List.map id (parse_texts [sample_playlist])
  <> entry_ids (length (parse_texts [sample_playlist])).
Proof. vm_compute. discriminate. Qed.

End Finalize.

(** *** The group summary *)

Section Groups.
Import Route Spec.

Lemma map_get_None (k : jsstring) (m : list (jsstring * nat)) :
  map_get k m = None <-> mem k (List.map fst m) = false.
Proof.
  induction m as [|[k' v] m IH]; simpl; [tauto|].
  destruct (eqs k k'); simpl; [split; discriminate|exact IH].
Qed.










End Groups.

(** *** Facts on the matcher *)

Section RegexFacts.

Lemma in_rep (p : char -> bool) (a s : jsstring) (lo hi : nat) :
  forallb p a = true -> (lo <= length a)%nat -> (length a <= hi)%nat ->
  In s (rep p lo (Some hi) (a ++ s)).
Proof.
  revert lo hi; induction a as [|x a IH]; intros lo hi Hp Hlo Hhi.
  - simpl in Hlo. assert (lo = 0%nat) by lia. subst lo. cbn [app].
    destruct s as [|c s']; cbn [rep]; [now left|].
    destruct (p c && can_take (Some hi)); [|now left].
    apply in_or_app. right. now left.
  - simpl in Hp. apply andb_true_iff in Hp as [Hx Ha].
    simpl in Hlo, Hhi. destruct hi as [|h]; [lia|].
    cbn [app rep]. rewrite Hx. cbn [can_take andb option_map Nat.pred].
    apply in_or_app. left. apply IH; [exact Ha|lia|lia].
Qed.

Lemma in_matches_Cat (r1 r2 : regex) (s s1 s2 : jsstring)
  (c1 c2 : option jsstring) :
  In (s1, c1) (matches r1 s) -> In (s2, c2) (matches r2 s1) ->
  In (s2, later c2 c1) (matches (Cat r1 r2) s).
Proof.
  intros H1 H2. cbn [matches]. apply in_flat_map.
  exists (s1, c1). split; [exact H1|].
  apply in_map_iff. exists (s2, c2). split; [reflexivity|exact H2].
Qed.

Lemma in_matches_Rep (p : char -> bool) (a s : jsstring) (lo hi : nat) :
  forallb p a = true -> (lo <= length a)%nat -> (length a <= hi)%nat ->
  In (s, None) (matches (Rep lo (Some hi) p) (a ++ s)).
Proof.
  intros Hp Hlo Hhi. cbn [matches]. apply in_map_iff.
  exists s. split; [reflexivity|now apply in_rep].
Qed.

Lemma in_matches_Grp (r : regex) (s s1 : jsstring) (c1 : option jsstring) :
  In (s1, c1) (matches r s) ->
  exists g, In (s1, Some g) (matches (Grp r) s).
Proof.
  intros H. exists (firstn (length s - length s1) s).
  cbn [matches]. apply in_map_iff. exists (s1, c1). split; [reflexivity|exact H].
Qed.

Lemma in_times_S (m : jsstring -> list (jsstring * option jsstring))
  (n : nat) (s s1 : jsstring) (c c1 : option jsstring)
  (x : jsstring * option jsstring) :
  In (s1, c1) (m s) -> In x (times m n s1 c1) ->
  In x (times m (S n) s c).
Proof.
  intros H1 H2. cbn [times]. apply in_flat_map.
  exists (s1, c1). split; [exact H1|exact H2].
Qed.

Lemma test_at_start_In (r : regex) (s : jsstring)
  (x : jsstring * option jsstring) :
  In x (matches r s) -> test_at_start r s = true.
Proof.
  unfold test_at_start, match_at_start.
  destruct (matches r s); [intros []|reflexivity].
Qed.

Lemma split_on_skip (sep : char) (a s : jsstring) :
  forallb (fun c => negb (c =? sep)) a = true ->
  split_on sep (a ++ sep :: s) = a :: split_on sep s.
Proof.
  induction a as [|x a IH]; intros H; simpl.
  - now rewrite N.eqb_refl.
  - simpl in H. apply andb_true_iff in H as [Hx Ha].
    apply negb_true_iff in Hx. rewrite Hx, (IH Ha). reflexivity.
Qed.

Lemma split_on_last (sep : char) (a : jsstring) :
  forallb (fun c => negb (c =? sep)) a = true ->
  split_on sep a = [a].
Proof.
  induction a as [|x a IH]; intros H; simpl; [reflexivity|].
  simpl in H. apply andb_true_iff in H as [Hx Ha].
  apply negb_true_iff in Hx. rewrite Hx, (IH Ha). reflexivity.
Qed.

Lemma forallb_impl (p r : char -> bool) (a : jsstring) :
  (forall c, p c = true -> r c = true) ->
  forallb p a = true -> forallb r a = true.
Proof.
  intros H. induction a as [|x a IH]; simpl; [reflexivity|].
  intros Hp. apply andb_true_iff in Hp as [Hx Ha].
  now rewrite (H x Hx), (IH Ha).
Qed.

Lemma digit_range (c : char) : is_digit c = true -> 48 <= c <= 57.
Proof.
  unfold is_digit. intros H. apply andb_true_iff in H as [H1 H2].
  apply N.leb_le in H1, H2. lia.
Qed.

Lemma digit_not_dot (c : char) :
  is_digit c = true -> negb (c =? dot) = true.
Proof.
  intros H. apply digit_range in H. apply negb_true_iff, N.eqb_neq.
  unfold dot. lia.
Qed.

Lemma digit_lower (c : char) : is_digit c = true -> lower_char c = c.
Proof.
  intros H. apply digit_range in H. unfold lower_char.
  replace (65 <=? c) with false; [reflexivity|].
  symmetry. apply N.leb_gt. lia.
Qed.

Lemma toLowerCase_digits (a : jsstring) :
  forallb is_digit a = true -> toLowerCase a = a.
Proof.
  induction a as [|x a IH]; simpl; [reflexivity|].
  intros H. apply andb_true_iff in H as [Hx Ha].
  now rewrite (digit_lower _ Hx), (IH Ha).
Qed.

Lemma toLowerCase_app (a b : jsstring) :
  toLowerCase (a ++ b) = toLowerCase a ++ toLowerCase b.
Proof. apply map_app. Qed.

End RegexFacts.

(** *** The SSRF guard *)

Section Guard.
Import Download Spec.

Lemma is_part_facts (a : jsstring) :
  is_part a = true ->
  forallb is_digit a = true /\ (1 <= length a)%nat /\ (length a <= 3)%nat.
Proof.
  unfold is_part. intros H.
  apply andb_true_iff in H as [H Hd]. apply andb_true_iff in H as [H1 H3].
  apply Nat.leb_le in H1, H3. auto.
Qed.

Lemma is_part_Number (a : jsstring) :
  is_part a = true -> Number a = Some (digits_value a).
Proof.
  intros H. apply is_part_facts in H as (Hd & H1 & _).
  unfold Number. rewrite Hd. destruct a; [simpl in H1; lia|reflexivity].
Qed.

Lemma toLowerCase_quad (a b c d : jsstring) :
  is_part a = true -> is_part b = true -> is_part c = true ->
  is_part d = true ->
  toLowerCase (quad a b c d) = quad a b c d.
Proof.
  intros Ha Hb Hc Hd.
  apply is_part_facts in Ha as (Ha & _), Hb as (Hb & _),
    Hc as (Hc & _), Hd as (Hd & _).
  unfold quad. rewrite !toLowerCase_app.
  rewrite (toLowerCase_digits _ Ha), (toLowerCase_digits _ Hb),
    (toLowerCase_digits _ Hc), (toLowerCase_digits _ Hd).
  reflexivity.
Qed.

Lemma quad_shape (a b c d : jsstring) :
  is_part a = true -> is_part b = true -> is_part c = true ->
  is_part d = true ->
  test_at_start re_dotted_quad (quad a b c d) = true.
Proof.
  intros Ha Hb Hc Hd.
  apply is_part_facts in Ha as (Ha & Ha1 & Ha3), Hb as (Hb & Hb1 & Hb3),
    Hc as (Hc & Hc1 & Hc3), Hd as (Hd & Hd1 & Hd3).
  assert (step : forall x s, forallb is_digit x = true ->
            (1 <= length x)%nat -> (length x <= 3)%nat ->
            exists g, In (s, Some g)
              (matches (Grp (Cat (Chr dot) (Rep 1 (Some 3%nat) is_digit)))
                       (dot :: x ++ s))).
  { intros x s Hx H1 H3.
    apply in_matches_Grp with (c1 := later None None).
    apply in_matches_Cat with (s1 := x ++ s).
    - cbn [matches Chr]. rewrite N.eqb_refl. now left.
    - now apply in_matches_Rep. }
  destruct (step d [] Hd Hd1 Hd3) as [gd Gd]. rewrite app_nil_r in Gd.
  destruct (step c (dot :: d) Hc Hc1 Hc3) as [gc Gc].
  destruct (step b (dot :: c ++ dot :: d) Hb Hb1 Hb3) as [gb Gb].
  eapply test_at_start_In with (x := ([], _)).
  unfold re_dotted_quad.
  apply in_matches_Cat with (s1 := dot :: b ++ dot :: c ++ dot :: d)
                            (c1 := None).
  - unfold quad. cbn [app]. now apply in_matches_Rep.
  - apply in_matches_Cat with (s1 := []) (c2 := None).
    + cbn [matches].
      eapply in_times_S; [exact Gb|].
      eapply in_times_S; [exact Gc|].
      eapply in_times_S; [exact Gd|].
      now left.
    + now left.
Qed.

Lemma quad_parts (a b c d : jsstring) :
  is_part a = true -> is_part b = true -> is_part c = true ->
  is_part d = true ->
  List.map Number (split_on dot (quad a b c d))
  = [Some (digits_value a); Some (digits_value b);
     Some (digits_value c); Some (digits_value d)].
Proof.
  intros Ha Hb Hc Hd.
  pose proof (is_part_Number _ Ha) as Na.
  pose proof (is_part_Number _ Hb) as Nb.
  pose proof (is_part_Number _ Hc) as Nc.
  pose proof (is_part_Number _ Hd) as Nd.
  apply is_part_facts in Ha as (Ha & _), Hb as (Hb & _),
    Hc as (Hc & _), Hd as (Hd & _).
  pose proof (forallb_impl _ _ _ digit_not_dot Ha) as Da.
  pose proof (forallb_impl _ _ _ digit_not_dot Hb) as Db.
  pose proof (forallb_impl _ _ _ digit_not_dot Hc) as Dc.
  pose proof (forallb_impl _ _ _ digit_not_dot Hd) as Dd.
  unfold quad. cbn [app].
  rewrite (split_on_skip _ _ _ Da), (split_on_skip _ _ _ Db),
    (split_on_skip _ _ _ Dc), (split_on_last _ _ Dd).
  cbn [List.map]. now rewrite Na, Nb, Nc, Nd.
Qed.

(** The guard on a hostname of dotted-quad shape, by its four numbers. *)
Lemma isBlockedHostname_quad (a b c d : jsstring) :
  is_part a = true -> is_part b = true -> is_part c = true ->
  is_part d = true ->
  (255 <? digits_value a) || (255 <? digits_value b)
  || (255 <? digits_value c) || (255 <? digits_value d)
  || (digits_value a =? 0) = true ->
  isBlockedHostname (quad a b c d) = true.
Proof.
  intros Ha Hb Hc Hd H. unfold isBlockedHostname.
  rewrite (toLowerCase_quad _ _ _ _ Ha Hb Hc Hd).
  destruct (eqs (quad a b c d) s_localhost || eqs (quad a b c d) s_127_0_0_1
            || eqs (quad a b c d) s_ipv6_loopback); [reflexivity|].
  rewrite (quad_shape _ _ _ _ Ha Hb Hc Hd).
  rewrite (quad_parts _ _ _ _ Ha Hb Hc Hd).
  cbn [existsb out_of_range part_is part_ge part_le nth].
  rewrite orb_false_r.
  destruct ((255 <? digits_value a) || (255 <? digits_value b)
            || (255 <? digits_value c) || (255 <? digits_value d)) eqn:E.
  - rewrite !orb_assoc. rewrite E. reflexivity.
  - rewrite !orb_assoc, E. simpl in H. rewrite H.
    repeat match goal with
           | |- (if ?x then true else _) = true => destruct x; [reflexivity|]
           end.
    reflexivity.
Qed.

End Guard.

(** *** The relay *)

Section RelayProps.
Import Download Spec.

Variable newURL : jsstring -> option URL.
Variable decodeURIComponent : jsstring -> option jsstring.
Variable encodeURIComponent : jsstring -> option jsstring.
Variable Body : Type.

Lemma relay_blocked (req : Request) (u : URL) :
  targets newURL req u -> isBlockedHostname (hostname u) = true ->
  GET newURL decodeURIComponent encodeURIComponent Body req
  = Done (Returns (JsonError 400
                     (if web_scheme u then BlockedUrl else InvalidUrl) None)).
Proof.
  intros [Ht Hu] Hb. unfold GET, web_scheme. rewrite Ht, Hu, Hb.
  destruct (eqs (protocol u) s_http_colon);
    destruct (eqs (protocol u) s_https_colon); reflexivity.
Qed.

Lemma relay_fetches (req : Request) (u : URL) :
  targets newURL req u -> web_scheme u = true ->
  isBlockedHostname (hostname u) = false ->
  exists headers,
    GET newURL decodeURIComponent encodeURIComponent Body req
    = Fetch (href u) headers
        (after_fetch decodeURIComponent encodeURIComponent req u).
Proof.
  intros [Ht Hu] Hw Hb. unfold GET. unfold web_scheme in Hw.
  rewrite Ht, Hu, Hb.
  replace (negb (eqs (protocol u) s_http_colon)
           && negb (eqs (protocol u) s_https_colon)) with false.
  - eexists. reflexivity.
  - rewrite <- negb_orb, Hw. reflexivity.
Qed.

Lemma blocked_table_blocked (h : jsstring) :
  In h blocked_table -> isBlockedHostname h = true.
Proof.
  unfold blocked_table. intros H.
  repeat (destruct H as [<-|H]; [vm_compute; reflexivity|]).
  destruct H.
Qed.

Lemma in_rejection_table_blocked (h : jsstring) :
  in_rejection_table h -> isBlockedHostname h = true.
Proof.
  intros [H|(a & b & c & d & Ha & Hb & Hc & Hd & H0 & ->)].
  - now apply blocked_table_blocked.
  - apply isBlockedHostname_quad; try assumption.
    rewrite H0. apply orb_true_r.
Qed.

(** C2 (as amended).  A relay request whose target hostname is one of
    [127.0.0.1], [10.1.2.3], [192.168.1.1], [172.20.0.5], [169.254.1.1],
    [localhost], or a dotted quad of the 0.0.0.0/8 block, is answered with
    a client error and no outbound request is made: the blocked-url error
    for an [http] or [https] target, the invalid-url error of the scheme
    gate, one step earlier, for any other scheme.  The hostname check lets
    [93.184.216.34] through: the request goes on to the fetch. *)
Theorem ssrf_rejection_table :
  (forall (req : Request) (u : URL)
          (fetch : jsstring -> list (jsstring * jsstring)
                   -> option (Upstream Body)),
     targets newURL req u -> in_rejection_table (hostname u) ->
     run fetch (GET newURL decodeURIComponent encodeURIComponent Body req)
     = (Returns (JsonError 400
                   (if web_scheme u then BlockedUrl else InvalidUrl) None),
        []))
  /\ isBlockedHostname public_host = false
  /\ (forall (req : Request) (u : URL),
       targets newURL req u -> web_scheme u = true ->
       hostname u = public_host ->
       exists headers,
         GET newURL decodeURIComponent encodeURIComponent Body req
         = Fetch (href u) headers
             (after_fetch decodeURIComponent encodeURIComponent req u)).
Proof.
  split; [|split].
  - intros req u fetch Ht Hin.
    apply in_rejection_table_blocked in Hin.
    now rewrite (relay_blocked Ht Hin).
  - vm_compute. reflexivity.
  - intros req u Ht Hw Hh. apply relay_fetches; try assumption.
    rewrite Hh. vm_compute. reflexivity.
Qed.

(** C10.  A hostname of dotted-quad shape with a component above 255,
    such as [999.1.2.3], is classified as blocked by the guard.  A relay
    request for such a host never reaches the fetch: whenever the URL
    parser of the platform accepts the [url] parameter at all, with that
    hostname, the scheme gate or the guard answers with a client error,
    and when the parser refuses the parameter - as the platform's does for
    an [http] or [https] URL whose host is an IPv4 number above 255 - the
    parse gate does. *)
Theorem out_of_range_quad_blocked (a b c d : jsstring) :
  is_part a = true -> is_part b = true -> is_part c = true ->
  is_part d = true ->
  (255 < digits_value a \/ 255 < digits_value b
   \/ 255 < digits_value c \/ 255 < digits_value d) ->
  isBlockedHostname (quad a b c d) = true
  /\ forall (req : Request)
       (fetch : jsstring -> list (jsstring * jsstring)
                -> option (Upstream Body)),
       truthy_opt (urlParam req) = true ->
       (forall u, newURL (nullish (urlParam req) []) = Some u ->
                  hostname u = quad a b c d) ->
       run fetch (GET newURL decodeURIComponent encodeURIComponent Body req)
       = (Returns (JsonError 400
                     match newURL (nullish (urlParam req) []) with
                     | None => InvalidUrl
                     | Some u =>
                         if web_scheme u then BlockedUrl else InvalidUrl
                     end None),
          []).
Proof.
  intros Ha Hb Hc Hd H.
  assert (B : isBlockedHostname (quad a b c d) = true).
  { apply isBlockedHostname_quad; try assumption.
    repeat rewrite orb_true_iff. left.
    destruct H as [H|[H|[H|H]]]; apply N.ltb_lt in H; tauto. }
  split; [exact B|].
  intros req fetch Ht Hh.
  destruct (newURL (nullish (urlParam req) [])) as [u|] eqn:Eu.
  - rewrite <- (Hh u eq_refl) in B.
    now rewrite (relay_blocked (conj Ht Eu) B).
  - unfold GET. now rewrite Ht, Eu.
Qed.

(** C8.  Once a request has reached the fetch: an upstream status outside
    200-299 (206 lies inside) makes the relay answer 502 with the upstream
    status in the body, and a response that is streamed through has an
    upstream status inside 200-299, which it keeps together with the
    upstream body; when the two codecs do not throw, every such upstream
    response is streamed. *)
Theorem upstream_status_gate (req : Request) (target : jsstring)
  (headers : list (jsstring * jsstring))
  (k : option (Upstream Body) -> Outcome Body) (up : Upstream Body) :
  GET newURL decodeURIComponent encodeURIComponent Body req = Fetch target headers k ->
  (ok up = false ->
   k (Some up) = Returns (JsonError 502 DownloadFailed (Some (status up))))
  /\ (forall code hs b,
       k (Some up) = Returns (Streamed code hs b) ->
       200 <= status up <= 299 /\ code = status up /\ b = body up)
  /\ (ok up = true ->
       (forall s, decodeURIComponent s <> None) ->
       (forall s, encodeURIComponent s <> None) ->
       exists hs, k (Some up) = Returns (Streamed (status up) hs (body up))).
Proof.
  intros HG.
  assert (Hk : exists u,
             k = after_fetch decodeURIComponent encodeURIComponent req u).
  { unfold GET in HG.
    destruct (truthy_opt (urlParam req)); [|discriminate HG].
    destruct (newURL (nullish (urlParam req) [])) as [u|]; [|discriminate HG].
    destruct (negb (eqs (protocol u) s_http_colon)
              && negb (eqs (protocol u) s_https_colon)); [discriminate HG|].
    destruct (isBlockedHostname (hostname u)); [discriminate HG|].
    exists u. now injection HG as _ _ <-. }
  destruct Hk as [u ->]. unfold after_fetch.
  assert (H206 : ok up = false -> (status up =? 206) = false).
  { unfold ok. intros H. apply N.eqb_neq. intros E. rewrite E in H.
    discriminate H. }
  split; [|split].
  - intros Hok. rewrite Hok, (H206 Hok). reflexivity.
  - intros code hs b. destruct (ok up) eqn:Hok.
    + cbn [negb andb].
      destruct (decodeURIComponent _); [|discriminate].
      destruct (createContentDispositionHeader _ _); [|discriminate].
      intros E. injection E as <- _ <-.
      unfold ok in Hok. apply andb_true_iff in Hok as [H1 H2].
      apply N.leb_le in H1, H2. auto.
    + rewrite (H206 eq_refl). discriminate.
  - intros Hok Hdec Henc. rewrite Hok. cbn [negb andb].
    destruct (decodeURIComponent _) as [f|] eqn:Ed;
      [|now apply Hdec in Ed].
    unfold createContentDispositionHeader.
    destruct (encodeURIComponent _) as [e|] eqn:Ee;
      [|now apply Henc in Ee].
    eexists. reflexivity.
Qed.

End RelayProps.

Section RelayExamples.
Import Download Spec.

Lemma ssrf_rejection_table_witness :
  run (fun _ _ => None)
      (GET (parses_to "http://10.1.2.3/a.ts"
              (url_of "http" "10.1.2.3" "/a.ts"))
           toy_codec toy_codec unit (request_for "http://10.1.2.3/a.ts"))
  = (Returns (JsonError 400 BlockedUrl None), []).
Proof.
  refine (proj1 (ssrf_rejection_table
           (parses_to "http://10.1.2.3/a.ts"
              (url_of "http" "10.1.2.3" "/a.ts"))
           toy_codec toy_codec unit)
           (request_for "http://10.1.2.3/a.ts")
           (url_of "http" "10.1.2.3" "/a.ts")
           (fun _ _ => None) _ _).
  - split; reflexivity.
  - left. right. left. reflexivity.
Defined.

(** C2, as stated, fails on the kind of the error: a request for
    [ftp://127.0.0.1/x] has a target hostname of the table and is answered
    with the invalid-url error of the scheme gate, which stands before the
    guard; no outbound request is made. *)
Lemma non_web_scheme_counterexample :
  In (hostname (url_of "ftp" "127.0.0.1" "/x")) blocked_table
  /\ run (fun _ _ => None)
       (GET (parses_to "ftp://127.0.0.1/x" (url_of "ftp" "127.0.0.1" "/x"))
            toy_codec toy_codec unit (request_for "ftp://127.0.0.1/x"))
     = (Returns (JsonError 400 InvalidUrl None), [])
  /\ InvalidUrl <> BlockedUrl.
Proof.
  split; [now left|]. split; [reflexivity|discriminate].
Qed.

(** Two requests for [999.1.2.3]: an [http] one, which the URL parser of
    the platform refuses, and one of another scheme, whose hostname the
    parser hands over as it is written. *)
Lemma out_of_range_quad_blocked_witness :
  isBlockedHostname (js "999.1.2.3") = true
  /\ run (fun _ _ => None)
       (GET refuses toy_codec toy_codec unit
            (request_for "http://999.1.2.3/"))
     = (Returns (JsonError 400 InvalidUrl None), [])
  /\ run (fun _ _ => None)
       (GET (parses_to "foo://999.1.2.3/" (url_of "foo" "999.1.2.3" "/"))
            toy_codec toy_codec unit (request_for "foo://999.1.2.3/"))
     = (Returns (JsonError 400 InvalidUrl None), []).
Proof.
  split; [|split].
  - exact (proj1 (out_of_range_quad_blocked refuses toy_codec toy_codec unit
                    (js "999") (js "1") (js "2") (js "3")
                    eq_refl eq_refl eq_refl eq_refl (or_introl eq_refl))).
  - refine (proj2 (out_of_range_quad_blocked refuses toy_codec toy_codec
                     unit (js "999") (js "1") (js "2") (js "3")
                     eq_refl eq_refl eq_refl eq_refl (or_introl eq_refl))
              (request_for "http://999.1.2.3/") (fun _ _ => None)
              eq_refl _).
    intros u E. discriminate E.
  - refine (proj2 (out_of_range_quad_blocked
                     (parses_to "foo://999.1.2.3/"
                        (url_of "foo" "999.1.2.3" "/"))
                     toy_codec toy_codec unit
                     (js "999") (js "1") (js "2") (js "3")
                     eq_refl eq_refl eq_refl eq_refl (or_introl eq_refl))
              (request_for "foo://999.1.2.3/") (fun _ _ => None)
              eq_refl _).
    intros u E. injection E as <-. reflexivity.
Defined.

Lemma upstream_status_gate_witness :
  after_fetch toy_codec toy_codec toy_request
    (url_of "http" "host" "/a.ts") (Some (toy_upstream 404))
  = Returns (JsonError 502 DownloadFailed (Some 404)).
Proof.
  refine (proj1 (upstream_status_gate
           (fun _ => Some (url_of "http" "host" "/a.ts"))
           toy_codec toy_codec toy_request (toy_upstream 404) _) _).
  - reflexivity.
  - reflexivity.
Defined.

End RelayExamples.

(** *** The parse endpoint *)

Section Endpoint.
Import Route Spec.

Lemma read_chunks_concat (rounds : nat) (data : list Byte.byte) :
  (length data <= rounds)%nat -> concat (read_chunks rounds data) = data.
Proof.
  revert data; induction rounds as [|r IH]; intros data H.
  - destruct data; [reflexivity|simpl in H; lia].
  - destruct data as [|b data]; [reflexivity|].
    cbn [read_chunks concat]. rewrite IH.
    + apply firstn_skipn.
    + rewrite length_skipn. unfold CHUNK_SIZE. simpl length in *. lia.
Qed.

(** The loop of [POST] feeds every byte of the file, in order. *)
Lemma file_chunks_concat (data : list Byte.byte) :
  concat (file_chunks data) = data.
Proof. apply read_chunks_concat. lia. Qed.

Lemma POST_upload (f : File) :
  POST (Some (Upload f))
  = if negb (playlist_name f) then JsonError 400 BadFormat
    else if MAX_FILE_SIZE <? size f then JsonError 400 TooLarge
    else parsed f.
Proof.
  unfold POST, playlist_name, parsed. rewrite negb_orb. reflexivity.
Qed.

(** C9 (as amended).  The endpoint answers with a client error, before
    any parsing, exactly when no file was sent, when the name of the file
    ends neither in [.m3u] nor in [.m3u8], or when the file is larger than
    50 MiB.  Every other upload - an empty file too - is read to its last
    byte and parsed, and a line that is neither an info line nor a URL
    line leaves the parser as it was. *)
Theorem parse_endpoint_failures :
  (forall req : Request,
     (exists e, POST req = JsonError 400 e) <->
     (req = Some NoEntry \/ req = Some (TextField [])
      \/ exists f, req = Some (Upload f)
                   /\ (playlist_name f = false \/ MAX_FILE_SIZE < size f)))
  /\ (forall f : File,
       playlist_name f = true -> size f <= MAX_FILE_SIZE ->
       POST (Some (Upload f)) = parsed f
       /\ concat (file_chunks (content f)) = content f)
  /\ (forall (st : list M3UChannel * StreamingM3UParser) (line : jsstring),
       startsWith s_EXTINF (trim line) = false ->
       startsWith s_http (trim line) = false ->
       parse_line st line = st).
Proof.
  split; [|split].
  - intros req. split.
    + intros [e H]. destruct req as [[|v|f]|]; try discriminate H.
      * now left.
      * right. left. destruct v; [reflexivity|discriminate H].
      * right. right. exists f. split; [reflexivity|].
        rewrite POST_upload in H.
        destruct (playlist_name f); [right|now left].
        cbn [negb] in H. destruct (MAX_FILE_SIZE <? size f) eqn:E.
        -- now apply N.ltb_lt.
        -- discriminate H.
    + intros [->|[->|(f & -> & H)]].
      * eexists. reflexivity.
      * eexists. reflexivity.
      * rewrite POST_upload. destruct (playlist_name f) eqn:E.
        -- destruct H as [H|H]; [discriminate H|].
           apply N.ltb_lt in H. cbn [negb]. rewrite H. eexists. reflexivity.
        -- eexists. reflexivity.
  - intros f Hn Hs. split; [|apply file_chunks_concat].
    rewrite POST_upload, Hn. cbn [negb].
    replace (MAX_FILE_SIZE <? size f) with false; [reflexivity|].
    symmetry. now apply N.ltb_ge.
  - intros [nc p] line Hi Hu. unfold parse_line. rewrite Hi, Hu.
    now destruct (negb (truthy (trim line))
                  || startsWith s_EXTM3U (trim line)).
Qed.

Lemma huge_file_size : MAX_FILE_SIZE < size huge_file.
Proof.
  unfold size, huge_file. cbn [content].
  rewrite repeat_length, N2Nat.id. reflexivity.
Qed.

Lemma parse_endpoint_failures_witness :
  (exists e, POST (Some (Upload huge_file)) = JsonError 400 e)
  /\ POST (Some (Upload sample_file)) = parsed sample_file
  /\ parse_line ([], new_parser) (js "#EXTVLCOPT:x") = ([], new_parser).
Proof.
  split; [|split].
  - apply (proj1 parse_endpoint_failures). right. right.
    exists huge_file. split; [reflexivity|]. right. exact huge_file_size.
  - apply (proj1 (proj2 parse_endpoint_failures)).
    + reflexivity.
    + vm_compute. discriminate.
  - apply (proj2 (proj2 parse_endpoint_failures)); reflexivity.
Defined.

(** C9, as stated, fails both ways: a file with a whole playlist in it is
    refused for its name, and an empty file is not refused. *)
Lemma parse_endpoint_failures_counterexample :
  content sample_txt_file <> []
  /\ POST (Some (Upload sample_txt_file)) = JsonError 400 BadFormat
  /\ POST (Some (Upload empty_file)) = JsonResult (mkResult [] 0 []).
Proof.
  split; [|split].
  - vm_compute. discriminate.
  - vm_compute. reflexivity.
  - vm_compute. reflexivity.
Qed.

End Endpoint.

(** *** Chunks that split a character *)

Section SplitCharacter.
Import Route Spec.

(** C1 fails on the code: every chunk is decoded by a decoder of its own,
    so a character whose bytes lie on both sides of a chunk boundary is
    lost.  The file below has its only non-ASCII character across the
    first 64 KiB boundary: fed as one chunk it gives the name U+00E9, read
    by the loop of [POST] it gives U+FFFD.  The same happens for the split
    of a short text. *)
Theorem split_character_changes_entries :
  List.map (fun c => (N.of_nat (length c), hd_error c, last c Byte.x00))
    (file_chunks (content boundary_file))
  = [(65536, Some Byte.x0a, Byte.xc3); (13, Some Byte.xa9, Byte.x0a)]
  /\ List.map tvgName (parse_bytes [content boundary_file]) = [Some [233]]
  /\ List.map tvgName (parse_bytes (file_chunks (content boundary_file)))
     = [Some [65533]]
  /\ List.map tvgName (parse_bytes [short_head ++ boundary_tail])
     = [Some [233]]
  /\ List.map tvgName (parse_bytes [short_head; boundary_tail])
     = [Some [65533]].
Proof. vm_compute. repeat split. Qed.

End SplitCharacter.

(** *** Chunks of text *)

Section TextChunks.
Import Route Spec.

Lemma pop_snoc (l : list jsstring) (t : jsstring) :
  pop (l ++ [t]) = (l, Some t).
Proof.
  induction l as [|x l IH]; [reflexivity|].
  cbn [app pop]. rewrite IH.
  destruct (l ++ [t]) eqn:E; [|reflexivity].
  now destruct l.
Qed.

Lemma cons_first_snoc (c : char) (l : list jsstring) (t : jsstring) :
  cons_first c (l ++ [t])
  = match l with
    | [] => [c :: t]
    | x :: l' => ((c :: x) :: l') ++ [t]
    end.
Proof. now destruct l. Qed.

Lemma split_lines_LF (c : char) (s : jsstring) :
  (c =? LF) = true -> split_lines (c :: s) = [] :: split_lines s.
Proof. intros H. cbn [split_lines]. now rewrite H. Qed.

Lemma split_lines_CRLF (c d : char) (s : jsstring) :
  (c =? LF) = false -> (c =? CR) && (d =? LF) = true ->
  split_lines (c :: d :: s) = [] :: split_lines s.
Proof.
  intros H1 H2.
  change (split_lines (c :: d :: s))
    with (if c =? LF then [] :: split_lines (d :: s)
          else if (c =? CR) && (d =? LF) then [] :: split_lines s
               else cons_first c (split_lines (d :: s))).
  now rewrite H1, H2.
Qed.

Lemma split_lines_other (c d : char) (s : jsstring) :
  (c =? LF) = false -> (c =? CR) && (d =? LF) = false ->
  split_lines (c :: d :: s) = cons_first c (split_lines (d :: s)).
Proof.
  intros H1 H2.
  change (split_lines (c :: d :: s))
    with (if c =? LF then [] :: split_lines (d :: s)
          else if (c =? CR) && (d =? LF) then [] :: split_lines s
               else cons_first c (split_lines (d :: s))).
  now rewrite H1, H2.
Qed.

Lemma split_lines_single (c : char) :
  (c =? LF) = false -> split_lines [c] = [[c]].
Proof. intros H. cbn [split_lines]. now rewrite H. Qed.

(** The last piece of a split holds what follows the last terminator: the
    split of a longer text is the split of the text so far, with the
    split of the last piece and the new text in place of the last piece. *)
Lemma split_lines_app_aux (a : jsstring) :
  (exists la t,
     split_lines a = la ++ [t]
     /\ (la = [] -> t = a)
     /\ split_lines t = [t]
     /\ forall b, split_lines (a ++ b) = la ++ split_lines (t ++ b))
  /\ forall c,
     exists la t,
       split_lines (c :: a) = la ++ [t]
       /\ (la = [] -> t = c :: a)
       /\ split_lines t = [t]
       /\ forall b, split_lines ((c :: a) ++ b) = la ++ split_lines (t ++ b).
Proof.
  induction a as [|d a [IHa IHc]].
  - split.
    + exists [], []. repeat split; reflexivity.
    + intros c. destruct (c =? LF) eqn:Ec.
      * exists [[]], []. rewrite (@split_lines_LF c _ Ec).
        repeat split; try reflexivity; [discriminate|].
        intros b. cbn [app]. now rewrite (@split_lines_LF c _ Ec).
      * exists [], [c]. rewrite (@split_lines_single c Ec).
        repeat split; reflexivity.
  - split; [apply IHc|].
    intros c. destruct (c =? LF) eqn:Ec.
    + destruct (IHc d) as (la & t & H1 & H2 & H3 & H4).
      exists ([] :: la), t. rewrite (@split_lines_LF c _ Ec).
      repeat split.
      * now rewrite H1.
      * discriminate.
      * exact H3.
      * intros b. cbn [app]. rewrite (@split_lines_LF c _ Ec).
        specialize (H4 b). cbn [app] in H4. now rewrite H4.
    + destruct ((c =? CR) && (d =? LF)) eqn:Ecd.
      * destruct IHa as (la & t & H1 & H2 & H3 & H4).
        exists ([] :: la), t. rewrite (@split_lines_CRLF c d _ Ec Ecd).
        repeat split.
        -- now rewrite H1.
        -- discriminate.
        -- exact H3.
        -- intros b. cbn [app]. rewrite (@split_lines_CRLF c d _ Ec Ecd).
           now rewrite H4.
      * destruct (IHc d) as (la & t & H1 & H2 & H3 & H4).
        pose proof (@split_lines_other c d a Ec Ecd) as E.
        assert (Eb : forall b, split_lines ((c :: d :: a) ++ b)
                     = cons_first c (split_lines ((d :: a) ++ b))).
        { intros b. cbn [app]. apply (@split_lines_other c d _ Ec Ecd). }
        destruct la as [|x la].
        -- specialize (H2 eq_refl). subst t.
           exists [], (c :: d :: a). repeat split.
           ++ rewrite E, H1. reflexivity.
           ++ rewrite E, H3. reflexivity.
        -- exists ((c :: x) :: la), t. repeat split.
           ++ rewrite E, H1. reflexivity.
           ++ discriminate.
           ++ exact H3.
           ++ intros b. rewrite Eb, H4. reflexivity.
Qed.

Lemma split_lines_app (a : jsstring) :
  exists la t,
    split_lines a = la ++ [t]
    /\ split_lines t = [t]
    /\ forall b, split_lines (a ++ b) = la ++ split_lines (t ++ b).
Proof.
  destruct (proj1 (split_lines_app_aux a)) as (la & t & H1 & _ & H3 & H4).
  now exists la, t.
Qed.

Lemma parse_line_buffer (b : jsstring) (nc nc' : list M3UChannel)
  (p : StreamingM3UParser) (line : jsstring) :
  snd (parse_line (nc', with_buffer b p) line)
  = with_buffer b (snd (parse_line (nc, p) line)).
Proof.
  unfold parse_line.
  destruct (negb (truthy (trim line)) || startsWith s_EXTM3U (trim line));
    [reflexivity|].
  destruct (startsWith s_EXTINF (trim line)); [reflexivity|].
  destruct (startsWith s_http (trim line)); [|reflexivity].
  cbn [with_buffer currentInfo].
  destruct (truthy_opt (tvgName (currentInfo p))); reflexivity.
Qed.

Lemma fold_parse_line_buffer (b : jsstring) (lines : list jsstring)
  (nc nc' : list M3UChannel) (p : StreamingM3UParser) :
  snd (fold_left parse_line lines (nc', with_buffer b p))
  = with_buffer b (snd (fold_left parse_line lines (nc, p))).
Proof.
  revert nc nc' p; induction lines as [|l lines IH]; intros nc nc' p;
    [reflexivity|].
  cbn [fold_left].
  destruct (parse_line (nc', with_buffer b p) l) as [n1 p1] eqn:E1.
  destruct (parse_line (nc, p) l) as [n2 p2] eqn:E2.
  pose proof (parse_line_buffer b nc nc' p l) as H.
  rewrite E1, E2 in H. cbn [snd] in H. subst p1. apply IH.
Qed.

Lemma with_buffer_twice (b b' : jsstring) (p : StreamingM3UParser) :
  with_buffer b (with_buffer b' p) = with_buffer b p.
Proof. reflexivity. Qed.

(** The parser after [parse], from the split of the buffered text. *)
Lemma parse_split (p : StreamingM3UParser) (chunk : jsstring)
  (lines : list jsstring) (t : jsstring) :
  split_lines (buffer p ++ chunk) = lines ++ [t] ->
  snd (parse p chunk)
  = with_buffer t (snd (fold_left parse_line lines ([], p))).
Proof.
  intros H. unfold parse. rewrite H, pop_snoc.
  replace (or_else (Some t) []) with t by now destruct t.
  apply (fold_parse_line_buffer t lines [] [] p).
Qed.

Lemma parse_two_chunks (p : StreamingM3UParser) (a b : jsstring) :
  snd (parse (snd (parse p a)) b) = snd (parse p (a ++ b)).
Proof.
  destruct (split_lines_app (buffer p ++ a)) as (la & ta & Ha & _ & Hab).
  destruct (split_lines_app (ta ++ b)) as (lb & tb & Hb & _ & _).
  rewrite (@parse_split p a la ta Ha).
  rewrite (@parse_split _ b lb tb) by exact Hb.
  rewrite (@parse_split p (a ++ b) (la ++ lb) tb)
    by (rewrite app_assoc, Hab, Hb; apply app_assoc).
  rewrite fold_left_app.
  destruct (fold_left parse_line la ([], p)) as [n1 p1].
  cbn [snd].
  rewrite (fold_parse_line_buffer ta lb n1 [] p1).
  apply with_buffer_twice.
Qed.

Lemma parse_empty_chunk (p : StreamingM3UParser) :
  split_lines (buffer p) = [buffer p] -> snd (parse p []) = p.
Proof.
  intros H. rewrite (@parse_split p [] [] (buffer p)).
  - now destruct p.
  - now rewrite app_nil_r.
Qed.

Lemma parse_settles (p : StreamingM3UParser) (chunk : jsstring) :
  split_lines (buffer (snd (parse p chunk)))
  = [buffer (snd (parse p chunk))].
Proof.
  destruct (split_lines_app (buffer p ++ chunk)) as (la & t & H1 & H2 & _).
  rewrite (@parse_split p chunk la t H1). exact H2.
Qed.

Lemma feed_all_concat (chunks : list jsstring) (p : StreamingM3UParser) :
  split_lines (buffer p) = [buffer p] ->
  feed_all p chunks = snd (parse p (concat chunks)).
Proof.
  revert p; induction chunks as [|c chunks IH]; intros p H.
  - cbn [feed_all fold_left concat]. now rewrite parse_empty_chunk.
  - cbn [feed_all fold_left concat]. fold (feed_all (snd (parse p c)) chunks).
    rewrite IH by apply parse_settles. apply parse_two_chunks.
Qed.

(** On texts the chunking does not matter: the chunks of a text, fed in
    order, give the entries of the text fed at once.  (The bytes of a file
    reach the parser through the decoder, which is where C1 fails.) *)
Lemma text_chunks_invariant (chunks : list jsstring) :
  parse_texts chunks = parse_texts [concat chunks].
Proof.
  unfold parse_texts. f_equal. f_equal.
  rewrite (@feed_all_concat chunks new_parser) by reflexivity.
  reflexivity.
Qed.

End TextChunks.

(** *** Leftmost matches *)

Unset Implicit Arguments.

Section Matching.
Import Route.

Lemma matches_Cat_cons (r1 r2 : regex) (s s1 s2 : jsstring)
  (c1 c2 : option jsstring) (t1 t2 : list (jsstring * option jsstring)) :
  matches r1 s = (s1, c1) :: t1 -> matches r2 s1 = (s2, c2) :: t2 ->
  exists t, matches (Cat r1 r2) s = (s2, later c2 c1) :: t.
Proof.
  intros H1 H2. cbn [matches]. rewrite H1. cbn [flat_map fst snd].
  rewrite H2. cbn [List.map app fst snd]. eexists. reflexivity.
Qed.

Lemma matches_Cat_nil (r1 r2 : regex) (s : jsstring) :
  matches r1 s = [] -> matches (Cat r1 r2) s = [].
Proof. intros H. cbn [matches]. now rewrite H. Qed.

(** A greedy repetition takes all of a run that the next character
    ends. *)
Lemma rep_head (p : char -> bool) (a X : jsstring) (lo : nat) :
  forallb p a = true ->
  match X with [] => true | c :: _ => negb (p c) end = true ->
  (lo <= length a)%nat ->
  exists tl, rep p lo None (a ++ X) = X :: tl.
Proof.
  revert lo; induction a as [|x a IH]; intros lo Hp HX Hlo.
  - simpl in Hlo. assert (lo = 0%nat) by lia. subst lo. cbn [app].
    destruct X as [|c X']; cbn [rep]; [now exists []|].
    apply negb_true_iff in HX. rewrite HX. now exists [].
  - simpl in Hp. apply andb_true_iff in Hp as [Hx Ha].
    cbn [app rep]. rewrite Hx. cbn [can_take andb option_map].
    destruct (IH (Nat.pred lo) Ha HX) as [tl E]; [simpl in Hlo; lia|].
    rewrite E. eexists. reflexivity.
Qed.

Lemma firstn_length_diff (a X : jsstring) :
  firstn (length (a ++ X) - length X) (a ++ X) = a.
Proof.
  rewrite length_app, Nat.add_sub.
  rewrite firstn_app, Nat.sub_diag, firstn_all. cbn [firstn].
  apply app_nil_r.
Qed.

Lemma matches_Grp_Rep_head (p : char -> bool) (a X : jsstring) (lo : nat) :
  forallb p a = true ->
  match X with [] => true | c :: _ => negb (p c) end = true ->
  (lo <= length a)%nat ->
  exists tl, matches (Grp (Rep lo None p)) (a ++ X) = (X, Some a) :: tl.
Proof.
  intros Hp HX Hlo. destruct (rep_head p a X lo Hp HX Hlo) as [tl E].
  cbn [matches]. rewrite E. cbn [List.map fst].
  rewrite firstn_length_diff. eexists. reflexivity.
Qed.

Lemma startsWith_app_self (p s : jsstring) : startsWith p (p ++ s) = true.
Proof.
  induction p as [|x p IH]; [reflexivity|].
  cbn [app startsWith]. now rewrite N.eqb_refl.
Qed.

Lemma skipn_length_app (a b : jsstring) : skipn (length a) (a ++ b) = b.
Proof. induction a; [reflexivity|assumption]. Qed.

Lemma matches_Lit_self (l s : jsstring) :
  matches (Lit l) (l ++ s) = [(s, None)].
Proof.
  cbn [matches]. now rewrite startsWith_app_self, skipn_length_app.
Qed.

(** A match that cannot start at the first character. *)
Lemma search_cons_nil (r : regex) (c : char) (s : jsstring) :
  matches r (c :: s) = [] ->
  search r (c :: s) = option_map (shift c) (search r s).
Proof. intros H. cbn [search]. now rewrite H. Qed.

Lemma match1_cons_nil (r : regex) (c : char) (s : jsstring) :
  matches r (c :: s) = [] -> match1 r (c :: s) = match1 r s.
Proof.
  intros H. unfold match1. rewrite (search_cons_nil _ _ _ H).
  now destruct (search r s) as [[[b a] g]|].
Qed.

Lemma match1_head (r : regex) (s s1 : jsstring) (g : option jsstring)
  (tl : list (jsstring * option jsstring)) :
  matches r s = (s1, g) :: tl -> match1 r s = g.
Proof.
  intros H. unfold match1. destruct s; cbn [search]; now rewrite H.
Qed.

(** The attribute patterns *)

Lemma startsWith_first_quote (a u X : jsstring) :
  forallb not_dquote a = true -> forallb not_dquote u = true ->
  startsWith (a ++ [dquote]) (u ++ dquote :: X) = true -> a = u.
Proof.
  revert u; induction a as [|x a IH]; intros [|c u] Ha Hu H.
  - reflexivity.
  - cbn [app startsWith] in H. apply andb_true_iff in H as [H _].
    apply N.eqb_eq in H. subst c. cbn in Hu. discriminate Hu.
  - cbn [app startsWith] in H. apply andb_true_iff in H as [H _].
    apply N.eqb_eq in H. subst x. cbn in Ha. discriminate Ha.
  - cbn [app startsWith] in H. apply andb_true_iff in H as [Hx H].
    apply N.eqb_eq in Hx. subst c.
    cbn [forallb] in Ha, Hu.
    apply andb_true_iff in Ha as [_ Ha]. apply andb_true_iff in Hu as [_ Hu].
    f_equal. now apply (IH u).
Qed.

Lemma key_eq_closed (K : jsstring) :
  K ++ [61; dquote] = (K ++ [61]) ++ [dquote].
Proof. now rewrite <- app_assoc. Qed.

Lemma attr_no_match (K u X : jsstring) :
  forallb not_dquote (K ++ [61]) = true -> forallb not_dquote u = true ->
  u <> K ++ [61] ->
  matches (re_attr K) (u ++ dquote :: X) = [].
Proof.
  intros HK Hu Hne. unfold re_attr. apply matches_Cat_nil.
  cbn [matches].
  destruct (startsWith (K ++ [61; dquote]) (u ++ dquote :: X)) eqn:E;
    [|reflexivity].
  rewrite key_eq_closed in E.
  apply (startsWith_first_quote _ _ _ HK Hu) in E. congruence.
Qed.

(** A run without double quote, closed by one, in which no suffix is the
    key with its equals sign, holds no match of the pattern of the key. *)
Lemma match1_skip_zone (K u X : jsstring) :
  forallb not_dquote (K ++ [61]) = true -> forallb not_dquote u = true ->
  (forall i, skipn i u <> K ++ [61]) ->
  match1 (re_attr K) (u ++ dquote :: X) = match1 (re_attr K) X.
Proof.
  intros HK. induction u as [|c u IH]; intros Hu Hs.
  - cbn [app]. apply match1_cons_nil.
    apply (attr_no_match K [] X HK eq_refl). apply (Hs 0%nat).
  - cbn [app]. rewrite match1_cons_nil.
    + cbn [forallb] in Hu. apply andb_true_iff in Hu as [_ Hu].
      apply IH; [exact Hu|]. intros i. apply (Hs (S i)).
    + apply (attr_no_match K (c :: u) X HK Hu). apply (Hs 0%nat).
Qed.

Lemma attr_match_here (K a X : jsstring) :
  forallb not_dquote a = true ->
  match1 (re_attr K) (K ++ [61; dquote] ++ a ++ dquote :: X) = Some a.
Proof.
  intros Ha.
  destruct (matches_Grp_Rep_head not_dquote a (dquote :: X) 0 Ha eq_refl)
    as [t1 E1]; [lia|].
  assert (E2 : matches (Chr dquote) (dquote :: X) = [(X, None)]).
  { cbn [matches Chr]. now rewrite N.eqb_refl. }
  destruct (matches_Cat_cons _ _ _ _ _ _ _ _ _ E1 E2) as [t2 E3].
  pose proof (matches_Lit_self (K ++ [61; dquote]) (a ++ dquote :: X)) as E4.
  destruct (matches_Cat_cons _ _ _ _ _ _ _ _ _ E4 E3) as [t3 E5].
  rewrite app_assoc. unfold re_attr, Star.
  exact (match1_head _ _ _ _ _ E5).
Qed.

Lemma no_quote_no_match (K s : jsstring) :
  forallb not_dquote s = true -> match1 (re_attr K) s = None.
Proof.
  intros Hs.
  assert (N : forall t, forallb not_dquote t = true ->
              matches (re_attr K) t = []).
  { intros t Ht. unfold re_attr. apply matches_Cat_nil. cbn [matches].
    destruct (startsWith (K ++ [61; dquote]) t) eqn:E; [|reflexivity].
    exfalso. rewrite key_eq_closed in E.
    revert t Ht E. generalize (K ++ [61]) as a.
    induction a as [|x a IH]; intros [|c t] Ht E; try discriminate E.
    - cbn [app startsWith] in E. apply andb_true_iff in E as [E _].
      apply N.eqb_eq in E. subst c. discriminate Ht.
    - cbn [app startsWith] in E. apply andb_true_iff in E as [_ E].
      cbn [forallb] in Ht. apply andb_true_iff in Ht as [_ Ht].
      apply (IH t Ht E). }
  induction s as [|c s IH].
  - unfold match1. cbn [search]. now rewrite (N [] eq_refl).
  - rewrite match1_cons_nil by (apply N; exact Hs).
    cbn [forallb] in Hs. apply andb_true_iff in Hs as [_ Hs]. now apply IH.
Qed.

(** The pattern of the trailing text *)

Lemma display_no_match (c : char) (s : jsstring) :
  Spec.no_comma c = true -> matches re_display (c :: s) = [].
Proof.
  intros H. unfold re_display. apply matches_Cat_nil.
  cbn [matches Chr]. unfold Spec.no_comma in H.
  apply negb_true_iff in H. now rewrite H.
Qed.

Lemma display_name_cons (c : char) (s : jsstring) :
  Spec.no_comma c = true -> display_name (c :: s) = display_name s.
Proof.
  intros H. unfold display_name.
  rewrite (search_cons_nil _ _ _ (display_no_match c s H)).
  now destruct (search re_display s) as [[[b a] [g|]]|].
Qed.

Lemma display_name_skip (w s : jsstring) :
  forallb Spec.no_comma w = true -> display_name (w ++ s) = display_name s.
Proof.
  induction w as [|c w IH]; intros H; [reflexivity|].
  cbn [forallb] in H. apply andb_true_iff in H as [Hc Hw].
  cbn [app]. rewrite (display_name_cons _ _ Hc). now apply IH.
Qed.

Lemma display_name_here (c : char) (d : jsstring) :
  is_ws c = false ->
  forallb not_line_terminator (c :: d) = true ->
  display_name (comma :: c :: d) = trim (c :: d).
Proof.
  intros Hc Hd.
  assert (E1 : matches (Chr comma) (comma :: c :: d) = [(c :: d, None)]).
  { cbn [matches Chr]. now rewrite N.eqb_refl. }
  assert (E2 : matches (Star is_ws) (c :: d) = [(c :: d, None)]).
  { cbn [matches Star rep]. now rewrite Hc. }
  destruct (matches_Grp_Rep_head not_line_terminator (c :: d) [] 1 Hd eq_refl)
    as [t3 E3]; [simpl; lia|].
  rewrite app_nil_r in E3.
  assert (E4 : matches Eos [] = [([] : jsstring, None)]) by reflexivity.
  destruct (matches_Cat_cons _ _ _ _ _ _ _ _ _ E3 E4) as [t5 E5].
  destruct (matches_Cat_cons _ _ _ _ _ _ _ _ _ E2 E5) as [t6 E6].
  destruct (matches_Cat_cons _ _ _ _ _ _ _ _ _ E1 E6) as [t7 E7].
  unfold display_name, re_display, Plus.
  cbn [search]. unfold Plus in E7. rewrite E7. reflexivity.
Qed.

End Matching.

(** *** The lines of the generator, read back *)

Section RoundTrip.
Import Route Spec.

Lemma key_cases (P : jsstring -> Prop) :
  P k_tvg_name -> P k_tvg_logo -> P k_tvg_id -> P k_tvg_country ->
  P k_tvg_language -> P k_group_title ->
  forall K, In K six_keys -> P K.
Proof.
  intros H1 H2 H3 H4 H5 H6 K HK. unfold six_keys in HK.
  destruct HK as [<-|[<-|[<-|[<-|[<-|[<-|[]]]]]]]; assumption.
Qed.

Lemma key_no_dquote (K : jsstring) :
  In K six_keys -> forallb not_dquote (K ++ [61]) = true.
Proof. revert K. apply key_cases; reflexivity. Qed.

Lemma key_no_squote (K : jsstring) :
  In K six_keys -> forallb (fun c => negb (c =? squote)) (K ++ [61]) = true.
Proof. revert K. apply key_cases; reflexivity. Qed.

Lemma key_no_comma (K : jsstring) :
  In K six_keys -> forallb no_comma (K ++ [61; dquote]) = true.
Proof. revert K. apply key_cases; reflexivity. Qed.

Lemma key_no_crlf (K : jsstring) :
  In K six_keys ->
  forallb (fun c => negb (Download.is_crlf c)) (K ++ [61; dquote]) = true.
Proof. revert K. apply key_cases; reflexivity. Qed.

Lemma key_not_at_space (K s : jsstring) :
  In K six_keys -> matches (re_attr K) (space :: s) = [].
Proof.
  intros HK. unfold re_attr. apply matches_Cat_nil. cbn [matches].
  revert K HK. apply key_cases; reflexivity.
Qed.

Lemma key_suffix_free (k K : jsstring) (i : nat) :
  In k six_keys -> In K six_keys -> k <> K ->
  skipn i (k ++ [61]) <> K ++ [61].
Proof.
  intros Hk HK Hne. unfold six_keys in Hk, HK.
  destruct Hk as [<-|[<-|[<-|[<-|[<-|[<-|[]]]]]]];
    destruct HK as [<-|[<-|[<-|[<-|[<-|[<-|[]]]]]]];
    try congruence;
    do 14 (destruct i as [|i]; [cbv; discriminate|]); cbv; discriminate.
Qed.

(** Values that pass the checks *)

Lemma filter_all (p : char -> bool) (l : jsstring) :
  forallb p l = true -> filter p l = l.
Proof.
  induction l as [|x l IH]; [reflexivity|]. cbn [forallb filter].
  intros H. apply andb_true_iff in H as [Hx Hl].
  now rewrite Hx, (IH Hl).
Qed.

Lemma forallb_weaken (p r : char -> bool) (l : jsstring) :
  (forall c, p c = true -> r c = true) ->
  forallb p l = true -> forallb r l = true.
Proof.
  intros H. induction l as [|x l IH]; [reflexivity|]. cbn [forallb].
  intros Hp. apply andb_true_iff in Hp as [Hx Hl].
  now rewrite (H x Hx), (IH Hl).
Qed.

Lemma endsWith_suffix (p v : jsstring) (i : nat) :
  skipn i v = p -> endsWith p v = true.
Proof.
  intros H. unfold endsWith.
  rewrite <- (firstn_skipn i v), H, rev_app_distr.
  apply startsWith_app_self.
Qed.

Lemma ends_with_key_suffix (v K : jsstring) (i : nat) :
  ends_with_key v = false -> In K six_keys -> skipn i v <> K ++ [61].
Proof.
  intros Hv HK E. apply endsWith_suffix in E.
  unfold ends_with_key in Hv.
  assert (T : existsb (fun k => endsWith (k ++ [61]) v) six_keys = true).
  { apply existsb_exists. exists K. now split. }
  congruence.
Qed.

Lemma solid_truthy (s : jsstring) : solid s = true -> truthy s = true.
Proof. now destruct s. Qed.

Lemma last_cons_default (c d : char) (s : jsstring) :
  s <> [] -> last (c :: s) d = last s d.
Proof. now destruct s. Qed.

Lemma trimEnd_solid (s : jsstring) (d : char) :
  s <> [] -> is_ws (last s d) = false -> trimEnd s = s.
Proof.
  intros Hne Hl. unfold trimEnd.
  rewrite (app_removelast_last d Hne) at 1.
  rewrite rev_unit. cbn [drop_while]. rewrite Hl.
  rewrite <- rev_unit, <- (app_removelast_last d Hne).
  apply rev_involutive.
Qed.

Lemma trim_solid (s : jsstring) : solid s = true -> trim s = s.
Proof.
  destruct s as [|c s]; [discriminate|]. cbn [solid].
  intros H. apply andb_true_iff in H as [Hc Hl].
  apply negb_true_iff in Hc, Hl.
  unfold trim, trimStart. cbn [drop_while]. rewrite Hc.
  apply (trimEnd_solid (c :: s) c); [discriminate|exact Hl].
Qed.

Lemma last_app_solid (w d : jsstring) (x : char) :
  d <> [] -> last (w ++ d) x = last d x.
Proof.
  intros Hd. induction w as [|c w IH]; [reflexivity|].
  cbn [app]. rewrite last_cons_default; [exact IH|].
  destruct w; [exact Hd|discriminate].
Qed.

Lemma solid_last (d : jsstring) (x : char) :
  solid d = true -> d <> [] /\ is_ws (last d x) = false.
Proof.
  destruct d as [|c d]; [discriminate|]. cbn [solid]. intros H.
  apply andb_true_iff in H as [_ Hl]. apply negb_true_iff in Hl.
  split; [discriminate|].
  destruct d as [|c' d]; [exact Hl|].
  rewrite !last_cons_default in * by discriminate.
  rewrite <- Hl. clear. revert c'. induction d as [|y d IH]; intros c';
    [reflexivity|].
  rewrite !(last_cons_default c') by discriminate. apply IH.
Qed.

(** A line that starts with a visible character and ends with a text
    without trailing whitespace is left alone by [trim]. *)
Lemma trim_line (c : char) (w d : jsstring) :
  is_ws c = false -> solid d = true -> trim (c :: w ++ d) = c :: w ++ d.
Proof.
  intros Hc Hd. apply trim_solid. cbn [solid]. rewrite Hc. cbn [negb andb].
  destruct (solid_last d c Hd) as [Hne Hl].
  change (c :: w ++ d) with ((c :: w) ++ d).
  rewrite (last_app_solid (c :: w) d c Hne), Hl. reflexivity.
Qed.

Lemma value_ok_facts (v : jsstring) :
  value_ok v = true ->
  truthy v = true /\ Download.escapeAttribute v = v /\ zone_ok v
  /\ forallb (fun c => negb (Download.is_crlf c)) v = true.
Proof.
  unfold value_ok. intros H.
  apply andb_true_iff in H as [H He]. apply andb_true_iff in H as [Ht Hf].
  apply negb_true_iff in He.
  assert (Hq : forallb not_dquote v = true).
  { revert Hf. apply forallb_weaken. intros c Hc.
    apply andb_true_iff in Hc as [Hc _]. now apply andb_true_iff in Hc. }
  assert (Hc : forallb no_comma v = true).
  { revert Hf. apply forallb_weaken. intros c Hx.
    apply andb_true_iff in Hx as [Hx _]. now apply andb_true_iff in Hx. }
  assert (Hn : forallb (fun c => negb (Download.is_crlf c)) v = true).
  { revert Hf. apply forallb_weaken. intros c Hx.
    now apply andb_true_iff in Hx. }
  repeat split; try assumption.
  - unfold Download.escapeAttribute. rewrite Ht. cbn [negb].
    replace (List.map (fun c => if c =? dquote then squote else c) v) with v.
    + now apply filter_all.
    + clear - Hq. induction v as [|x v IH]; [reflexivity|].
      cbn [forallb] in Hq. apply andb_true_iff in Hq as [Hx Hv].
      cbn [List.map]. unfold not_dquote in Hx. apply negb_true_iff in Hx.
      now rewrite Hx, <- (IH Hv).
  - intros K i HK. now apply ends_with_key_suffix.
Qed.

Lemma unquote_inj (w t : jsstring) :
  forallb (fun c => negb (c =? squote)) t = true ->
  List.map (fun c => if c =? dquote then squote else c) w = t -> w = t.
Proof.
  revert t; induction w as [|x w IH]; intros [|y t] Ht E;
    try discriminate E; [reflexivity|].
  cbn [List.map] in E. injection E as Ey Et.
  cbn [forallb] in Ht. apply andb_true_iff in Ht as [Hy Ht].
  f_equal; [|now apply IH].
  destruct (x =? dquote); [|exact Ey].
  subst y. discriminate Hy.
Qed.

Lemma name_ok_facts (n : jsstring) :
  name_ok n = true ->
  solid n = true /\ Download.escapeValue n = n
  /\ zone_ok (Download.escapeAttribute n)
  /\ forallb not_line_terminator n = true
  /\ forallb (fun c => negb (Download.is_crlf c))
       (Download.escapeAttribute n) = true.
Proof.
  unfold name_ok. intros H.
  apply andb_true_iff in H as [H He]. apply andb_true_iff in H as [Hs Hf].
  apply negb_true_iff in He.
  assert (Ht : truthy n = true) by now apply solid_truthy.
  assert (Hl : forallb not_line_terminator n = true).
  { revert Hf. apply forallb_weaken. intros c Hc.
    now apply andb_true_iff in Hc. }
  assert (Hc : forallb no_comma n = true).
  { revert Hf. apply forallb_weaken. intros c Hx.
    now apply andb_true_iff in Hx. }
  assert (Hn : forallb (fun c => negb (Download.is_crlf c)) n = true).
  { revert Hl. apply forallb_weaken. intros c.
    unfold not_line_terminator, is_line_terminator, Download.is_crlf, CR, LF.
    destruct (c =? 10), (c =? 13); simpl; congruence. }
  set (f := fun c : char => if c =? dquote then squote else c).
  assert (Hm : forallb (fun c => negb (Download.is_crlf c)) (List.map f n)
               = true).
  { clear - Hn. induction n as [|x n IH]; [reflexivity|].
    cbn [forallb] in Hn. apply andb_true_iff in Hn as [Hx Hn].
    cbn [List.map forallb]. rewrite (IH Hn), andb_true_r.
    unfold f. destruct (x =? dquote); [reflexivity|exact Hx]. }
  assert (Ea : Download.escapeAttribute n = List.map f n).
  { unfold Download.escapeAttribute. rewrite Ht. cbn [negb].
    now apply filter_all. }
  repeat split.
  - exact Hs.
  - unfold Download.escapeValue. rewrite Ht. cbn [negb].
    rewrite (filter_all _ _ Hn). now apply trim_solid.
  - rewrite Ea. clear. induction n as [|x n IH]; [reflexivity|].
    cbn [List.map forallb]. rewrite IH, andb_true_r. unfold f, not_dquote.
    destruct (x =? dquote) eqn:E; [reflexivity|now rewrite E].
  - rewrite Ea. clear - Hc. induction n as [|x n IH]; [reflexivity|].
    cbn [forallb] in Hc. apply andb_true_iff in Hc as [Hx Hc].
    cbn [List.map forallb]. rewrite (IH Hc), andb_true_r.
    unfold f. destruct (x =? dquote); [reflexivity|exact Hx].
  - intros K i HK E. rewrite Ea in E. unfold f in E.
    rewrite skipn_map in E.
    apply unquote_inj in E; [|now apply key_no_squote].
    revert E. now apply ends_with_key_suffix.
  - exact Hl.
  - now rewrite Ea.
Qed.

(** The attributes of a generated line *)

Lemma join_space_cons (x : jsstring) (l : list jsstring) :
  Download.join_space (x :: l)
  = x ++ match l with
         | [] => []
         | _ :: _ => space :: Download.join_space l
         end.
Proof. destruct l; cbn [Download.join_space app]; now rewrite ?app_nil_r. Qed.

Lemma attr_skip_one (K k a X : jsstring) :
  In K six_keys -> In k six_keys -> k <> K -> zone_ok a ->
  match1 (re_attr K) (render_raw (k, a) ++ X) = match1 (re_attr K) X.
Proof.
  intros HK Hk Hne (Hq & _ & Hs). unfold render_raw. cbn [fst snd].
  replace ((k ++ [61; dquote] ++ a ++ [dquote]) ++ X)
    with ((k ++ [61]) ++ dquote :: a ++ dquote :: X)
    by (rewrite <- !app_assoc; reflexivity).
  rewrite match1_skip_zone.
  - apply match1_skip_zone; [now apply key_no_dquote|exact Hq|].
    intros i. now apply Hs.
  - now apply key_no_dquote.
  - now apply key_no_dquote.
  - intros i. now apply key_suffix_free.
Qed.

Lemma attr_lookup (l : list (jsstring * jsstring)) (K X v : jsstring) :
  attrs_ok l -> In K six_keys -> assoc K l = Some v ->
  match1 (re_attr K) (Download.join_space (List.map render_raw l) ++ X)
  = Some v.
Proof.
  intros Hl HK. induction l as [|[k a] l IH]; [discriminate|].
  apply Forall_cons_iff in Hl as [(Hk & Hz & _) Hl]. cbn [fst snd] in Hk, Hz.
  cbn [assoc List.map]. rewrite join_space_cons.
  destruct (eqs K k) eqn:E.
  - apply eqs_eq in E. subst k. intros [= ->].
    unfold render_raw. cbn [fst snd].
    rewrite <- !app_assoc. cbn [app].
    replace (K ++ 61 :: dquote :: v ++ dquote ::
               match List.map render_raw l with
               | [] => []
               | _ :: _ => space :: Download.join_space (List.map render_raw l)
               end ++ X)
      with (K ++ [61; dquote] ++ v ++ dquote ::
              (match List.map render_raw l with
               | [] => []
               | _ :: _ => space :: Download.join_space (List.map render_raw l)
               end ++ X)) by reflexivity.
    apply attr_match_here. apply Hz.
  - intros Ha. apply eqs_neq in E.
    rewrite <- app_assoc.
    rewrite attr_skip_one; [|exact HK|exact Hk|congruence|exact Hz].
    destruct l as [|kv l']; [discriminate Ha|].
    cbn [List.map app]. rewrite match1_cons_nil by now apply key_not_at_space.
    now apply IH.
Qed.

Lemma info_no_comma (l : list (jsstring * jsstring)) :
  attrs_ok l ->
  forallb no_comma (Download.join_space (List.map render_raw l)) = true.
Proof.
  induction l as [|[k a] l IH]; intros Hl; [reflexivity|].
  apply Forall_cons_iff in Hl as [(Hk & (_ & Hc & _) & _) Hl].
  cbn [fst snd] in Hk, Hc. cbn [List.map]. rewrite join_space_cons.
  unfold render_raw at 1. cbn [fst snd].
  rewrite !app_assoc, <- (app_assoc k), !forallb_app.
  pose proof (key_no_comma k Hk) as Hkc. rewrite forallb_app in Hkc.
  apply andb_true_iff in Hkc as [Hk1 _]. rewrite Hk1, Hc.
  replace (forallb no_comma [61; dquote]) with true by reflexivity.
  replace (forallb no_comma [dquote]) with true by reflexivity.
  cbn [andb]. specialize (IH Hl).
  destruct (List.map render_raw l); [reflexivity|].
  cbn [forallb]. now rewrite IH.
Qed.

Lemma info_no_crlf (l : list (jsstring * jsstring)) :
  attrs_ok l ->
  forallb (fun c => negb (Download.is_crlf c))
          (Download.join_space (List.map render_raw l)) = true.
Proof.
  induction l as [|[k a] l IH]; intros Hl; [reflexivity|].
  apply Forall_cons_iff in Hl as [(Hk & _ & Hc) Hl].
  cbn [fst snd] in Hk, Hc. cbn [List.map]. rewrite join_space_cons.
  unfold render_raw at 1. cbn [fst snd].
  rewrite !app_assoc, <- (app_assoc k), !forallb_app.
  pose proof (key_no_crlf k Hk) as Hkc. rewrite forallb_app in Hkc.
  apply andb_true_iff in Hkc as [Hk1 _]. rewrite Hk1, Hc.
  replace (forallb (fun c => negb (Download.is_crlf c)) [61; dquote])
    with true by reflexivity.
  replace (forallb (fun c => negb (Download.is_crlf c)) [dquote])
    with true by reflexivity.
  cbn [andb]. specialize (IH Hl).
  destruct (List.map render_raw l); [reflexivity|].
  cbn [forallb]. now rewrite IH.
Qed.

(** The attributes of a channel that passes the checks *)

Lemma assoc_app (K : jsstring) (l1 l2 : list (jsstring * jsstring)) :
  assoc K (l1 ++ l2)
  = match assoc K l1 with Some v => Some v | None => assoc K l2 end.
Proof.
  induction l1 as [|[k a] l1 IH]; [reflexivity|].
  cbn [app assoc]. now destruct (eqs K k).
Qed.

Lemma assoc_emitted_other (K k : jsstring) (o : option jsstring) :
  eqs K k = false -> assoc K (emitted_opt k o) = None.
Proof.
  intros E. unfold emitted_opt.
  destruct (truthy_opt o); [|reflexivity]. cbn [assoc]. now rewrite E.
Qed.

Lemma assoc_emitted_same (k v : jsstring) :
  truthy v = true ->
  assoc k (emitted_opt k (Some v)) = Some (Download.escapeAttribute v).
Proof.
  intros Ht. unfold emitted_opt. cbn [truthy_opt]. rewrite Ht.
  cbn [assoc]. now rewrite eqs_refl.
Qed.

Lemma emitted_opt_ok (k : jsstring) (o : option jsstring) :
  In k six_keys -> optional_ok o = true -> attrs_ok (emitted_opt k o).
Proof.
  intros Hk Ho. unfold emitted_opt.
  destruct o as [v|]; cbn [truthy_opt]; [|constructor].
  destruct (truthy v) eqn:Ht; [|constructor].
  cbn [optional_ok] in Ho. rewrite Ht in Ho. cbn [negb orb] in Ho.
  destruct (value_ok_facts v Ho) as (_ & Ee & Hz & Hc).
  constructor; [|constructor]. cbn [fst snd]. rewrite Ee. auto.
Qed.

Lemma entry_ok_facts (e : Download.Channel) :
  entry_ok e = true ->
  name_ok (Download.tvgName e) = true
  /\ url_ok (Download.url e) = true
  /\ (exists g, Download.groupTitle e = Some g /\ value_ok g = true)
  /\ optional_ok (Download.tvgLogo e) = true
  /\ optional_ok (Download.tvgId e) = true
  /\ optional_ok (Download.tvgCountry e) = true
  /\ optional_ok (Download.tvgLanguage e) = true.
Proof.
  unfold entry_ok. intros H.
  do 6 (apply andb_true_iff in H as [H ?]).
  repeat split; try assumption.
  destruct (Download.groupTitle e) as [g|]; [|discriminate].
  now exists g.
Qed.

Lemma in_six_keys :
  In k_tvg_name six_keys /\ In k_tvg_logo six_keys /\ In k_tvg_id six_keys
  /\ In k_tvg_country six_keys /\ In k_tvg_language six_keys
  /\ In k_group_title six_keys.
Proof. unfold six_keys. cbn [In]. tauto. Qed.

Lemma emitted_ok (e : Download.Channel) :
  entry_ok e = true ->
  attrs_ok (emitted e)
  /\ exists rest,
       emitted e
       = (k_tvg_name, Download.escapeAttribute (Download.tvgName e)) :: rest.
Proof.
  intros H.
  destruct (entry_ok_facts e H) as (Hn & _ & (g & Eg & Hg) & Hl & Hi & Hc & Hg').
  destruct in_six_keys as (K1 & K2 & K3 & K4 & K5 & K6).
  destruct (name_ok_facts _ Hn) as (Hs & _ & Hz & _ & Hcr).
  assert (Ht : truthy (Download.tvgName e) = true) by now apply solid_truthy.
  assert (E1 : emitted_opt k_tvg_name (Some (Download.tvgName e))
               = [(k_tvg_name,
                   Download.escapeAttribute (Download.tvgName e))]).
  { unfold emitted_opt. cbn [truthy_opt]. now rewrite Ht. }
  unfold emitted. rewrite E1. split.
  - unfold attrs_ok. repeat (apply Forall_app; split).
    + constructor; [|constructor]. cbn [fst snd]. auto.
    + now apply emitted_opt_ok.
    + now apply emitted_opt_ok.
    + now apply emitted_opt_ok.
    + now apply emitted_opt_ok.
    + apply emitted_opt_ok; [exact K6|]. rewrite Eg. cbn [optional_ok].
      rewrite Hg. apply orb_true_r.
  - eexists. reflexivity.
Qed.

Lemma kept_lookup (K : jsstring) (e : Download.Channel)
  (o : option jsstring) (v : jsstring) :
  optional_ok o = true -> o = Some v -> truthy v = true ->
  assoc K (emitted_opt K o) = Some v.
Proof.
  intros Ho -> Ht. rewrite (assoc_emitted_same K v Ht).
  cbn [optional_ok] in Ho. rewrite Ht in Ho. cbn [negb orb] in Ho.
  destruct (value_ok_facts v Ho) as (_ & Ee & _). now rewrite Ee.
Qed.

Lemma duration_removed (Z : jsstring) :
  remove_at_start re_duration (45 :: 49 :: 32 :: 116 :: Z) = 116 :: Z.
Proof. reflexivity. Qed.

Lemma info_rest_info_line (e : Download.Channel) :
  entry_ok e = true ->
  info_rest (info_line e)
  = Download.join_space (List.map render_raw (emitted e))
    ++ comma :: Download.escapeValue (Download.tvgName e).
Proof.
  intros H. destruct (emitted_ok e H) as (_ & rest & E).
  unfold info_rest, info_line. rewrite E. cbn [List.map].
  rewrite join_space_cons. unfold render_raw at 1. cbn [fst snd].
  apply duration_removed.
Qed.

(** The info line of a channel, read by [parseExtInfo]. *)
Lemma parseExtInfo_info_line (e : Download.Channel) (u : jsstring) (n : nat) :
  entry_ok e = true ->
  let c := make_channel (parseExtInfo (info_line e)) u n in
  groupTitle c = Download.groupTitle e
  /\ tvgName c = Some (Download.tvgName e)
  /\ kept (Download.tvgLogo e) (tvgLogo c)
  /\ kept (Download.tvgId e) (tvgId c)
  /\ kept (Download.tvgCountry e) (tvgCountry c)
  /\ kept (Download.tvgLanguage e) (tvgLanguage c).
Proof.
  intros H c. subst c. unfold make_channel, parseExtInfo.
  cbn [groupTitle tvgName tvgLogo tvgId tvgCountry tvgLanguage].
  change (remove_at_start re_duration (substring_from 8 (info_line e)))
    with (info_rest (info_line e)).
  rewrite (info_rest_info_line e H).
  destruct (emitted_ok e H) as (Hok & _).
  destruct (entry_ok_facts e H)
    as (Hn & _ & (g & Eg & Hg) & Hl & Hi & Hc & Hla).
  destruct in_six_keys as (K1 & K2 & K3 & K4 & K5 & K6).
  destruct (name_ok_facts _ Hn) as (Hs & Ev & _ & Hlt & _).
  destruct (value_ok_facts g Hg) as (Htg & Eeg & _).
  assert (look : forall K v, In K six_keys -> assoc K (emitted e) = Some v ->
            match1 (re_attr K)
              (Download.join_space (List.map render_raw (emitted e))
               ++ comma :: Download.escapeValue (Download.tvgName e))
            = Some v).
  { intros K v HK Ha. now apply attr_lookup. }
  repeat split.
  - rewrite (look k_group_title g K6).
    + rewrite Eg. cbn [or_else]. now rewrite Htg.
    + unfold emitted. rewrite !assoc_app.
      rewrite !assoc_emitted_other by reflexivity.
      rewrite Eg, (assoc_emitted_same _ g Htg). now rewrite Eeg.
  - rewrite display_name_skip by now apply info_no_comma.
    rewrite Ev.
    destruct (Download.tvgName e) as [|x d] eqn:En; [discriminate Hs|].
    rewrite display_name_here.
    + rewrite (trim_solid _ Hs). reflexivity.
    + cbn [solid] in Hs. apply andb_true_iff in Hs as [Hs _].
      now apply negb_true_iff in Hs.
    + exact Hlt.
  - intros v Ev' Ht. apply (look k_tvg_logo v K2).
    unfold emitted. rewrite !assoc_app.
    rewrite assoc_emitted_other by reflexivity.
    now rewrite (kept_lookup k_tvg_logo e _ v Hl Ev' Ht).
  - intros v Ev' Ht. apply (look k_tvg_id v K3).
    unfold emitted. rewrite !assoc_app.
    rewrite !assoc_emitted_other by reflexivity.
    now rewrite (kept_lookup k_tvg_id e _ v Hi Ev' Ht).
  - intros v Ev' Ht. apply (look k_tvg_country v K4).
    unfold emitted. rewrite !assoc_app.
    rewrite !assoc_emitted_other by reflexivity.
    now rewrite (kept_lookup k_tvg_country e _ v Hc Ev' Ht).
  - intros v Ev' Ht. apply (look k_tvg_language v K5).
    unfold emitted. rewrite !assoc_app.
    rewrite !assoc_emitted_other by reflexivity.
    now rewrite (kept_lookup k_tvg_language e _ v Hla Ev' Ht).
Qed.

(** The text of the generator, line by line *)

Lemma push_attr_emitted (k : jsstring) (v : option jsstring)
  (info : list jsstring) :
  Download.push_attr k v info
  = info ++ List.map render_raw (emitted_opt k v).
Proof.
  unfold Download.push_attr, emitted_opt.
  destruct (truthy_opt v); [reflexivity|]. now rewrite app_nil_r.
Qed.

Lemma channel_lines_eq (e : Download.Channel) :
  Download.channel_lines e
  = info_line e ++ LF :: Download.url e ++ [LF].
Proof.
  unfold Download.channel_lines, info_line.
  rewrite !push_attr_emitted. cbn [app].
  unfold emitted. rewrite !map_app, <- !app_assoc. reflexivity.
Qed.

Lemma fold_left_append (f : Download.Channel -> jsstring)
  (es : list Download.Channel) (init : jsstring) :
  fold_left (fun content e => content ++ f e) es init
  = init ++ concat (List.map f es).
Proof.
  revert init; induction es as [|e es IH]; intros init; cbn.
  - now rewrite app_nil_r.
  - now rewrite IH, app_assoc.
Qed.

Lemma split_lines_line (l X : jsstring) :
  forallb (fun c => negb (Download.is_crlf c)) l = true ->
  split_lines (l ++ LF :: X) = l :: split_lines X.
Proof.
  induction l as [|c l IH]; intros H.
  - cbn [app]. now apply split_lines_LF.
  - cbn [forallb] in H. apply andb_true_iff in H as [Hc Hl].
    unfold Download.is_crlf in Hc. apply negb_true_iff in Hc.
    apply orb_false_iff in Hc as [Hcr Hlf].
    specialize (IH Hl). cbn [app].
    destruct (l ++ LF :: X) as [|d Y] eqn:E; [now destruct l|].
    rewrite split_lines_other, IH; [reflexivity|exact Hlf|].
    now rewrite Hcr.
Qed.

Lemma info_line_no_crlf (e : Download.Channel) :
  entry_ok e = true ->
  forallb (fun c => negb (Download.is_crlf c)) (info_line e) = true.
Proof.
  intros H. destruct (emitted_ok e H) as (Hok & _).
  destruct (entry_ok_facts e H) as (Hn & _).
  destruct (name_ok_facts _ Hn) as (_ & Ev & _ & Hlt & _).
  unfold info_line. rewrite !forallb_app, (info_no_crlf _ Hok), Ev.
  cbn [forallb].
  replace (forallb (fun c => negb (Download.is_crlf c)) Download.s_EXTINF_1)
    with true by reflexivity.
  replace (negb (Download.is_crlf comma)) with true by reflexivity.
  cbn [andb]. revert Hlt. apply forallb_weaken. intros c.
  unfold not_line_terminator, is_line_terminator, Download.is_crlf, CR, LF.
  destruct (c =? 10), (c =? 13); simpl; congruence.
Qed.

Lemma url_ok_facts (u : jsstring) :
  url_ok u = true ->
  startsWith s_http u = true /\ solid u = true
  /\ forallb (fun c => negb (Download.is_crlf c)) u = true.
Proof.
  unfold url_ok. intros H.
  apply andb_true_iff in H as [H H3]. apply andb_true_iff in H as [H1 H2].
  auto.
Qed.

Lemma split_lines_entries (es : list Download.Channel) :
  forallb entry_ok es = true ->
  split_lines (concat (List.map Download.channel_lines es))
  = flat_map lines_of es ++ [[]].
Proof.
  induction es as [|e es IH]; intros H; [reflexivity|].
  cbn [forallb] in H. apply andb_true_iff in H as [He Hes].
  cbn [List.map concat flat_map]. rewrite channel_lines_eq.
  destruct (entry_ok_facts e He) as (_ & Hu & _).
  destruct (url_ok_facts _ Hu) as (_ & _ & Hcr).
  rewrite <- !app_assoc. cbn [app].
  rewrite (split_lines_line _ _ (info_line_no_crlf e He)).
  rewrite <- app_assoc. cbn [app].
  rewrite (split_lines_line _ _ Hcr).
  now rewrite (IH Hes).
Qed.

(** The two lines of a channel, through the loop of [parse] *)

Lemma http_not_directive (u : jsstring) :
  startsWith s_http u = true ->
  startsWith s_EXTM3U u = false /\ startsWith s_EXTINF u = false.
Proof.
  destruct u as [|c u]; [discriminate|]. unfold s_http. cbn [startsWith].
  intros H. apply andb_true_iff in H as [H _]. apply N.eqb_eq in H. subst c.
  split; reflexivity.
Qed.

Lemma trim_info_line (e : Download.Channel) :
  entry_ok e = true -> trim (info_line e) = info_line e.
Proof.
  intros H. destruct (entry_ok_facts e H) as (Hn & _).
  destruct (name_ok_facts _ Hn) as (Hs & Ev & _).
  unfold info_line. rewrite Ev.
  set (J := Download.join_space (List.map render_raw (emitted e))).
  replace (Download.s_EXTINF_1 ++ J ++ comma :: Download.tvgName e)
    with (35 :: (tl Download.s_EXTINF_1 ++ J ++ [comma])
                ++ Download.tvgName e).
  - now apply trim_line.
  - rewrite <- !app_assoc. reflexivity.
Qed.

Lemma parse_line_pair (e : Download.Channel) (nc : list M3UChannel)
  (p : StreamingM3UParser) :
  entry_ok e = true ->
  let ch := make_channel (parseExtInfo (info_line e)) (Download.url e)
                         (channelId p) in
  fold_left parse_line (lines_of e) (nc, p)
  = (nc ++ [ch],
     mkParser (channels p ++ [ch]) empty_info (buffer p) (S (channelId p))).
Proof.
  intros H ch. cbn [lines_of fold_left].
  assert (E1 : parse_line (nc, p) (info_line e)
               = (nc, mkParser (channels p) (parseExtInfo (info_line e))
                               (buffer p) (channelId p))).
  { unfold parse_line. rewrite (trim_info_line e H). reflexivity. }
  rewrite E1.
  destruct (entry_ok_facts e H) as (Hn & Hu & _).
  destruct (url_ok_facts _ Hu) as (Hh & Hs & _).
  destruct (http_not_directive _ Hh) as (Hd1 & Hd2).
  destruct (parseExtInfo_info_line e (Download.url e) (channelId p) H)
    as (_ & En & _).
  cbn [tvgName make_channel] in En.
  unfold parse_line. rewrite (trim_solid _ Hs), (solid_truthy _ Hs).
  rewrite Hd1, Hd2, Hh. cbn [negb orb currentInfo].
  rewrite En. cbn [truthy_opt].
  destruct (name_ok_facts _ Hn) as (Hsn & _).
  rewrite (solid_truthy _ Hsn). reflexivity.
Qed.

Lemma fold_entries (es : list Download.Channel) :
  forallb entry_ok es = true ->
  forall (nc : list M3UChannel) (p : StreamingM3UParser),
  exists chs,
    channels (snd (fold_left parse_line (flat_map lines_of es) (nc, p)))
    = channels p ++ chs
    /\ Forall2 same_entry es chs.
Proof.
  induction es as [|e es IH]; intros H nc p.
  - exists []. split; [now rewrite app_nil_r|constructor].
  - cbn [forallb] in H. apply andb_true_iff in H as [He Hes].
    cbn [flat_map]. rewrite fold_left_app, (parse_line_pair e nc p He).
    destruct (IH Hes
                (nc ++ [make_channel (parseExtInfo (info_line e))
                          (Download.url e) (channelId p)])
                (mkParser
                   (channels p ++ [make_channel (parseExtInfo (info_line e))
                                     (Download.url e) (channelId p)])
                   empty_info (buffer p) (S (channelId p))))
      as (chs & E & F).
    exists (make_channel (parseExtInfo (info_line e)) (Download.url e)
                         (channelId p) :: chs).
    split.
    + rewrite E. cbn [channels]. now rewrite <- app_assoc.
    + constructor; [|exact F].
      destruct (parseExtInfo_info_line e (Download.url e) (channelId p) He)
        as (Hg & Hn & Hl & Hi & Hc & Hla).
      unfold same_entry. repeat split; assumption.
Qed.

Lemma parse_generated (es : list Download.Channel) :
  forallb entry_ok es = true ->
  Forall2 same_entry es
    (parse_texts [Download.generateM3UContent es]).
Proof.
  intros H. unfold parse_texts. cbn [feed_all fold_left].
  assert (S : split_lines (buffer new_parser
                           ++ Download.generateM3UContent es)
              = (s_EXTM3U :: flat_map lines_of es) ++ [[]]).
  { unfold Download.generateM3UContent. rewrite fold_left_append.
    unfold Download.s_EXTM3U_nl. cbn [buffer new_parser app].
    rewrite <- app_assoc. cbn [app].
    rewrite (split_lines_line s_EXTM3U _ eq_refl).
    now rewrite (split_lines_entries es H). }
  rewrite (parse_split _ _ _ _ S). cbn [fold_left].
  replace (parse_line ([], new_parser) s_EXTM3U) with
    (([] : list M3UChannel), new_parser) by reflexivity.
  destruct (fold_entries es H [] new_parser) as (chs & E & F).
  unfold finalize.
  replace (trim (buffer (with_buffer [] (snd (fold_left parse_line
             (flat_map lines_of es) ([], new_parser)))))) with ([] : jsstring)
    by reflexivity.
  cbn [truthy andb fst with_buffer channels]. rewrite E. exact F.
Qed.

End RoundTrip.

(** *** The round trip through the generator *)

Section Generated.
Import Route Spec.

(** X20.  Take entries whose display name has no surrounding
    whitespace, comma or line terminator, whose URL starts with [http] and
    has no surrounding whitespace or line break, whose group is present,
    and whose emitted attribute values are free of commas, double quotes
    and line breaks; no name or value may end with an attribute key
    followed by an equals sign.  Parsing the text of the generator, in
    whatever chunks of text it arrives, gives for each entry, in order,
    the same URL, group and display name, and the same value for every
    optional attribute that is not empty. *)
Theorem generate_parse_round_trip (es : list Download.Channel)
  (chunks : list jsstring) :
  forallb entry_ok es = true ->
  concat chunks = Download.generateM3UContent es ->
  Forall2 same_entry es (parse_texts chunks).
Proof.
  intros H E. rewrite text_chunks_invariant, E. now apply parse_generated.
Qed.

Lemma generate_parse_round_trip_witness :
  Forall2 same_entry plain_entries
    (parse_texts
       [firstn 40 (Download.generateM3UContent plain_entries);
        skipn 40 (Download.generateM3UContent plain_entries)]).
Proof.
  apply generate_parse_round_trip.
  - vm_compute. reflexivity.
  - cbn [concat]. rewrite app_nil_r. apply firstn_skipn.
Defined.

(** C5 fails on the code.  The pattern of the display name starts at the
    first comma of the info text wherever it stands, also between the
    double quotes of an attribute value, where the attribute patterns of
    the same function read a comma as part of the value.  The generator
    writes the name of a channel into the [tvg-name] attribute, so a name
    with a comma in it - not empty, with a valid URL - comes back as the
    rest of the attribute text: the name attribute is read back whole, the
    URL and the group come back, and the name does not, in either
    parser. *)
Theorem first_comma_taken_as_name :
  (forall (w : jsstring) (c : char) (d : jsstring),
     forallb no_comma w = true -> is_ws c = false ->
     forallb not_line_terminator (c :: d) = true ->
     display_name (w ++ comma :: c :: d) = trim (c :: d))
  /\ truthy (Download.tvgName comma_entry) = true
  /\ url_ok (Download.url comma_entry) = true
  /\ match1 (re_attr k_tvg_name) (info_rest (info_line comma_entry))
     = Some (Download.tvgName comma_entry)
  /\ List.map url (parse_texts [Download.generateM3UContent [comma_entry]])
     = [Some (Download.url comma_entry)]
  /\ List.map groupTitle
       (parse_texts [Download.generateM3UContent [comma_entry]])
     = [Download.groupTitle comma_entry]
  /\ List.map tvgName
       (parse_texts [Download.generateM3UContent [comma_entry]])
     = [Some comma_entry_read]
  /\ List.map Player.tvgName
       (Player.parseM3U (Download.generateM3UContent [comma_entry]))
     = [Some comma_entry_read]
  /\ comma_entry_read <> Download.tvgName comma_entry.
Proof.
  split.
  - intros w c d Hw Hc Hd.
    rewrite (display_name_skip w _ Hw). now apply display_name_here.
  - vm_compute. repeat split; try reflexivity. discriminate.
Qed.

Lemma first_comma_taken_as_name_witness :
  display_name
    (js "tvg-name=" ++ q ++ js "A" ++ comma :: js "B" ++ q ++ js ",A,B")
  = trim (js "B" ++ q ++ js ",A,B").
Proof.
  apply (proj1 first_comma_taken_as_name
           (js "tvg-name=" ++ q ++ js "A") 66 (q ++ js ",A,B"));
    reflexivity.
Defined.

End Generated.

(** *** The name attribute is never consulted *)

Section DeadFallback.
Import Route Spec.

Lemma rep_suffix (p : char -> bool) (lo : nat) (hi : option nat)
  (s x : jsstring) :
  In x (rep p lo hi s) -> exists w, s = w ++ x /\ (lo <= length w)%nat.
Proof.
  revert lo hi; induction s as [|c s IH]; intros lo hi H.
  - cbn [rep] in H. destruct lo; [|destruct H].
    destruct H as [<-|[]]. exists []. split; [reflexivity|apply Nat.le_refl].
  - cbn [rep] in H.
    assert (Stop : In x (match lo with O => [c :: s] | S _ => [] end) ->
                   exists w, c :: s = w ++ x /\ (lo <= length w)%nat).
    { destruct lo; [|intros []]. intros [<-|[]].
      exists []. split; [reflexivity|apply Nat.le_refl]. }
    destruct (p c && can_take hi); [|now apply Stop].
    apply in_app_or in H as [H|H]; [|now apply Stop].
    apply IH in H as (w & -> & Hw). exists (c :: w).
    split; [reflexivity|]. cbn [length]. lia.
Qed.

Lemma in_matches_Cat_inv (r1 r2 : regex) (s s' : jsstring)
  (c : option jsstring) :
  In (s', c) (matches (Cat r1 r2) s) ->
  exists s1 c1 c2,
    In (s1, c1) (matches r1 s) /\ In (s', c2) (matches r2 s1)
    /\ c = later c2 c1.
Proof.
  cbn [matches]. intros H.
  apply in_flat_map in H as ([s1 c1] & H1 & H).
  apply in_map_iff in H as ([s2 c2] & E & H2).
  cbn [fst snd] in E, H2. injection E as <- <-.
  now exists s1, c1, c2.
Qed.

Lemma in_matches_Grp_inv (r : regex) (s s' : jsstring)
  (c : option jsstring) :
  In (s', c) (matches (Grp r) s) ->
  (exists c1, In (s', c1) (matches r s))
  /\ c = Some (firstn (length s - length s') s).
Proof.
  cbn [matches]. intros H.
  apply in_map_iff in H as ([s1 c1] & E & H1).
  cbn [fst] in E. injection E as <- <-. split; [now exists c1|reflexivity].
Qed.

Lemma in_matches_Rep_inv (lo : nat) (hi : option nat) (p : char -> bool)
  (s s' : jsstring) (c : option jsstring) :
  In (s', c) (matches (Rep lo hi p) s) ->
  c = None /\ In s' (rep p lo hi s).
Proof.
  cbn [matches]. intros H.
  apply in_map_iff in H as (x & E & H1). injection E as <- <-. now split.
Qed.

Lemma in_matches_Cls_inv (p : char -> bool) (s s' : jsstring)
  (c : option jsstring) :
  In (s', c) (matches (Cls p) s) ->
  exists x, s = x :: s' /\ p x = true /\ c = None.
Proof.
  cbn [matches]. destruct s as [|x s]; [intros []|].
  destruct (p x) eqn:E; [|intros []].
  intros [[= <- <-]|[]]. now exists x.
Qed.

Lemma in_matches_Eos_inv (s s' : jsstring) (c : option jsstring) :
  In (s', c) (matches Eos s) -> s = [] /\ s' = [] /\ c = None.
Proof.
  cbn [matches]. destruct s; [|intros []].
  intros [[= <- <-]|[]]. now repeat split.
Qed.

(** Every match of the pattern of the trailing text captures a text that
    is not empty and runs to the end of the input. *)
Lemma display_capture (s s' : jsstring) (g : option jsstring) :
  In (s', g) (matches re_display s) ->
  exists w t, g = Some t /\ t <> [] /\ s = w ++ t.
Proof.
  unfold re_display, Star, Plus. intros H.
  apply in_matches_Cat_inv in H as (s1 & c1 & c2 & H1 & H & ->).
  apply in_matches_Cls_inv in H1 as (x & -> & _ & ->).
  apply in_matches_Cat_inv in H as (s2 & c3 & c4 & H2 & H & ->).
  apply in_matches_Rep_inv in H2 as (-> & H2).
  apply in_matches_Cat_inv in H as (s3 & c5 & c6 & H3 & H & ->).
  apply in_matches_Grp_inv in H3 as ((c7 & H3) & ->).
  apply in_matches_Rep_inv in H3 as (-> & H3).
  apply in_matches_Eos_inv in H as (-> & -> & ->).
  apply rep_suffix in H2 as (w & -> & _).
  apply rep_suffix in H3 as (w3 & E3 & Hl).
  rewrite app_nil_r in E3. subst s2.
  exists (x :: w), w3. cbn [later length]. rewrite Nat.sub_0_r, firstn_all.
  repeat split.
  destruct w3; [simpl in Hl; lia|discriminate].
Qed.

Lemma search_found (r : regex) (s b a : jsstring) (g : option jsstring) :
  search r s = Some (b, a, g) ->
  exists s0, s = b ++ s0 /\ In (a, g) (matches r s0).
Proof.
  revert b; induction s as [|c s IH]; intros b H; cbn [search] in H.
  - destruct (matches r []) as [|[a0 g0] tl] eqn:E; [discriminate H|].
    injection H as <- <- <-. exists []. split; [reflexivity|].
    rewrite E. now left.
  - destruct (matches r (c :: s)) as [|[a0 g0] tl] eqn:E.
    + destruct (search r s) as [[[b1 a1] g1]|]; [|discriminate H].
      cbn [option_map shift] in H. injection H as <- <- <-.
      destruct (IH b1 eq_refl) as (s0 & -> & Hin).
      exists s0. split; [reflexivity|exact Hin].
    + injection H as <- <- <-. exists (c :: s). split; [reflexivity|].
      rewrite E. now left.
Qed.

Lemma drop_while_keeps_last (p : char -> bool) (s : jsstring) (z : char) :
  p z = false -> exists h, drop_while p (s ++ [z]) = h ++ [z].
Proof.
  intros Hz. induction s as [|c s IH]; cbn [app drop_while].
  - rewrite Hz. now exists [].
  - destruct (p c); [exact IH|]. now exists (c :: s).
Qed.

Lemma trim_keeps_last (g : jsstring) (d : char) :
  g <> [] -> is_ws (last g d) = false -> truthy (trim g) = true.
Proof.
  intros Hne Hl. rewrite (app_removelast_last d Hne).
  unfold trim, trimStart.
  destruct (drop_while_keeps_last is_ws (removelast g) (last g d) Hl)
    as [h ->].
  rewrite (trimEnd_solid (h ++ [last g d]) d).
  - now destruct h.
  - now destruct h.
  - now rewrite last_last.
Qed.

Lemma drop_while_head (p : char -> bool) (s t : jsstring) (c : char) :
  drop_while p s = c :: t -> p c = false.
Proof.
  induction s as [|x s IH]; cbn [drop_while]; [discriminate|].
  destruct (p x) eqn:E; [exact IH|]. now intros [= <- _].
Qed.

Lemma trim_last (x : jsstring) (d : char) :
  trim x <> [] -> is_ws (last (trim x) d) = false.
Proof.
  unfold trim, trimEnd. set (y := trimStart x).
  destruct (drop_while is_ws (rev y)) as [|c t] eqn:E; [now intros []|].
  intros _. cbn [rev]. rewrite last_last.
  now apply (drop_while_head is_ws (rev y) t c).
Qed.

Lemma matches_rest (r : regex) (s s' : jsstring) (c : option jsstring) :
  In (s', c) (matches r s) -> exists w, s = w ++ s'.
Proof.
  revert s s' c; induction r as [l|p|r1 IH1 r2 IH2|r1 IH1|lo hi p|n r1 IH1|r1 IH1|];
    intros s s' c H; cbn [matches] in H.
  - destruct (startsWith l s); [|destruct H].
    destruct H as [[= <- _]|[]]. exists (firstn (length l) s).
    symmetry. apply firstn_skipn.
  - destruct s as [|x s]; [destruct H|].
    destruct (p x); [|destruct H]. destruct H as [[= <- _]|[]].
    now exists [x].
  - apply in_flat_map in H as ([s1 c1] & H1 & H).
    apply in_map_iff in H as ([s2 c2] & [= <- _] & H2).
    cbn [fst] in H2.
    apply IH1 in H1 as (w1 & ->). apply IH2 in H2 as (w2 & ->).
    exists (w1 ++ w2). now rewrite app_assoc.
  - apply in_app_or in H as [H|[[= <- _]|[]]]; [now apply IH1 in H|].
    now exists [].
  - apply in_map_iff in H as (x & [= <- _] & H).
    apply rep_suffix in H as (w & -> & _). now exists w.
  - assert (T : forall n s c0 s' c, In (s', c) (times (matches r1) n s c0) ->
                exists w, s = w ++ s').
    { clear - IH1. induction n as [|n IHn]; intros s c0 s' c H; cbn [times] in H.
      - destruct H as [[= <- _]|[]]. now exists [].
      - apply in_flat_map in H as ([s1 c1] & H1 & H).
        apply IH1 in H1 as (w1 & ->). cbn [fst] in H.
        apply IHn in H as (w2 & ->). exists (w1 ++ w2).
        now rewrite app_assoc. }
    now apply T in H.
  - apply in_map_iff in H as ([s1 c1] & [= <- _] & H1).
    now apply IH1 in H1.
  - destruct s; [|destruct H]. destruct H as [[= <- _]|[]]. now exists [].
Qed.

Lemma info_rest_suffix (line : jsstring) :
  exists w, line = w ++ info_rest line.
Proof.
  unfold info_rest, remove_at_start, match_at_start, substring_from.
  destruct (matches re_duration (skipn 8 line)) as [|[s1 c1] tl] eqn:E.
  - exists (firstn 8 line). symmetry. apply firstn_skipn.
  - assert (H : In (s1, c1) (matches re_duration (skipn 8 line)))
      by (rewrite E; now left).
    apply matches_rest in H as (w & Hw). cbn [fst].
    exists (firstn 8 line ++ w).
    now rewrite <- app_assoc, <- Hw, firstn_skipn.
Qed.

(** For a line as the parsers hand it over, trimmed, the display name
    read in any part of it that runs to its end is never empty: it is
    either the trimmed trailing text or ['Unknown']. *)
Lemma display_name_never_empty (raw w rest : jsstring) :
  trim raw = w ++ rest -> truthy (display_name rest) = true.
Proof.
  intros Hw. unfold display_name.
  destruct (search re_display rest) as [[[b a] g]|] eqn:E; [|reflexivity].
  apply search_found in E as (s0 & Es & Hin).
  apply display_capture in Hin as (w1 & t & -> & Hne & ->).
  rewrite Es in Hw.
  assert (Hx : trim raw <> []).
  { rewrite Hw. destruct t; [contradiction|].
    intros C. apply (f_equal (@length char)) in C.
    rewrite !length_app in C. simpl in C. lia. }
  apply (trim_keeps_last t 0 Hne).
  pose proof (trim_last raw 0 Hx) as Hl. rewrite Hw in Hl.
  rewrite !app_assoc in Hl.
  now rewrite (last_app_solid _ t 0 Hne) in Hl.
Qed.

(** C3 fails on the code.  In both parsers the name of an info line is the
    display name alone - the trimmed trailing text, or ['Unknown'] as soon
    as the pattern of the trailing text does not match - so that the value
    of the [tvg-name] attribute is never used in its place: the line with
    only a name attribute is named ['Unknown'] by both.  The parser of the
    route also removes the comma that follows the duration before it looks
    for the trailing text, and misses the name of a plain info line, which
    the parser of the player finds. *)
Theorem name_attribute_not_used :
  (forall raw : jsstring,
     tvgName (parseExtInfo (trim raw))
     = Some (display_name (info_rest (trim raw)))
     /\ Player.tvgName (Player.parse_info (trim raw))
        = Some (display_name (substring_from 8 (trim raw))))
  /\ match1 (re_attr k_tvg_name) (info_rest info_name_only) = Some (js "A")
  /\ List.map tvgName (parse_texts [playlist_of info_name_only])
     = [Some s_Unknown]
  /\ List.map Player.tvgName (Player.parseM3U (playlist_of info_name_only))
     = [Some s_Unknown]
  /\ List.map Player.tvgNameAttribute
       (Player.parseM3U (playlist_of info_name_only))
     = [Some (js "A")]
  /\ List.map tvgName (parse_texts [playlist_of info_bare])
     = [Some s_Unknown]
  /\ List.map Player.tvgName (Player.parseM3U (playlist_of info_bare))
     = [Some (js "Name")].
Proof.
  split; [|vm_compute; repeat split].
  intros raw. split.
  - destruct (info_rest_suffix (trim raw)) as (w & Hw).
    unfold parseExtInfo. cbn [tvgName].
    change (remove_at_start re_duration (substring_from 8 (trim raw)))
      with (info_rest (trim raw)).
    now rewrite (display_name_never_empty raw w _ Hw).
  - unfold Player.parse_info. cbn [Player.tvgName].
    rewrite (display_name_never_empty raw (firstn 8 (trim raw))
               (substring_from 8 (trim raw))); [reflexivity|].
    symmetry. apply firstn_skipn.
Qed.

End DeadFallback.

(** *** The group of an entry without one *)

Section GroupDefault.
Import Route Spec.







End GroupDefault.

(* ================================================================== *)
(** ** Further properties of the code *)

(** *** The entries of the route parser are well formed *)

Section WellFormed.
Import Route Spec.

Lemma drop_while_suffix (p : char -> bool) (s : jsstring) :
  exists w, s = w ++ drop_while p s.
Proof.
  induction s as [|c s [w IH]]; [now exists []|].
  cbn [drop_while]. destruct (p c); [|now exists []].
  exists (c :: w). cbn [app]. now rewrite <- IH.
Qed.

Lemma trimEnd_prefix (s : jsstring) : exists w, s = trimEnd s ++ w.
Proof.
  unfold trimEnd. destruct (drop_while_suffix is_ws (rev s)) as [w E].
  exists (rev w). rewrite <- rev_app_distr, <- E. symmetry.
  apply rev_involutive.
Qed.

(** What [trim] returns is empty or has no surrounding whitespace. *)
Lemma solid_trim (x : jsstring) : trim x <> [] -> solid (trim x) = true.
Proof.
  intros Hne. pose proof (trim_last x 0 Hne) as Hl.
  destruct (trim x) as [|c t] eqn:E; [contradiction|].
  cbn [solid].
  assert (Hc : is_ws c = false).
  { unfold trim in E. destruct (trimEnd_prefix (trimStart x)) as [w Ew].
    rewrite E in Ew. cbn [app] in Ew. unfold trimStart in Ew.
    now apply (drop_while_head is_ws x (t ++ w) c). }
  rewrite Hc. cbn [negb andb].
  destruct t as [|c' t]; [cbn [last]; now rewrite Hc|].
  rewrite (last_cons_default c 0 (c' :: t)) in Hl by discriminate.
  rewrite (last_cons_default c c (c' :: t)) by discriminate.
  assert (L : forall (l : jsstring) (a b : char),
            l <> [] -> last l a = last l b).
  { clear. induction l as [|y l IH]; intros a b H; [contradiction|].
    destruct l as [|z l]; [reflexivity|].
    rewrite !(last_cons_default y _ (z :: l)) by discriminate.
    apply IH. discriminate. }
  rewrite (L (c' :: t) c 0) by discriminate. now rewrite Hl.
Qed.

Lemma parseExtInfo_named (line : jsstring) :
  truthy_opt (tvgName (parseExtInfo line)) = true
  /\ truthy_opt (groupTitle (parseExtInfo line)) = true.
Proof.
  unfold parseExtInfo. cbn [tvgName groupTitle truthy_opt]. split.
  - destruct (truthy (display_name _)) eqn:E; [exact E|].
    unfold or_else. destruct (match1 (re_attr k_tvg_name) _) as [s|];
      [|reflexivity].
    destruct (truthy s) eqn:Es; [exact Es|reflexivity].
  - unfold or_else. destruct (match1 (re_attr k_group_title) _) as [s|];
      [|reflexivity].
    destruct (truthy s) eqn:Es; [exact Es|reflexivity].
Qed.

Lemma make_channel_well_formed (info : M3UChannel) (line : jsstring)
  (n : nat) :
  truthy_opt (tvgName info) = true -> pending_ok info = true ->
  startsWith s_http (trim line) = true ->
  well_formed (make_channel info (trim line) n) = true.
Proof.
  intros Hn Hp Hu. unfold well_formed, make_channel.
  cbn [id tvgName groupTitle url truthy_opt].
  unfold pending_ok in Hp. rewrite Hn in Hp. cbn [negb orb] in Hp.
  rewrite Hn, Hp, Hu. cbn [andb].
  apply solid_trim. intros E. rewrite E in Hu. discriminate Hu.
Qed.

Lemma parse_line_sound (st : list M3UChannel * StreamingM3UParser)
  (line : jsstring) :
  parser_sound (snd st) -> parser_sound (snd (parse_line st line)).
Proof.
  destruct st as [nc p]. cbn [snd]. intros [Hc Hp].
  unfold parse_line.
  destruct (negb (truthy (trim line)) || startsWith s_EXTM3U (trim line));
    [now split|].
  destruct (startsWith s_EXTINF (trim line)).
  { split; [exact Hc|]. cbn [snd currentInfo]. unfold pending_ok.
    destruct (parseExtInfo_named (trim line)) as [_ Hg]. rewrite Hg.
    apply orb_true_r. }
  destruct (startsWith s_http (trim line)) eqn:Hu; [|now split].
  destruct (truthy_opt (tvgName (currentInfo p))) eqn:Hn.
  - split; [|reflexivity]. cbn [snd channels].
    rewrite forallb_app, Hc. cbn [forallb andb]. rewrite andb_true_r.
    now apply make_channel_well_formed.
  - now split.
Qed.

Lemma fold_parse_line_sound (lines : list jsstring)
  (st : list M3UChannel * StreamingM3UParser) :
  parser_sound (snd st) ->
  parser_sound (snd (fold_left parse_line lines st)).
Proof.
  revert st; induction lines as [|l lines IH]; intros st H; [exact H|].
  cbn [fold_left]. apply IH. now apply parse_line_sound.
Qed.

Lemma parse_sound (p : StreamingM3UParser) (chunk : jsstring) :
  parser_sound p -> parser_sound (snd (parse p chunk)).
Proof.
  intros H. unfold parse.
  destruct (pop (split_lines (buffer p ++ chunk))) as [lines last].
  apply fold_parse_line_sound. exact H.
Qed.

Lemma feed_all_sound (chunks : list jsstring) (p : StreamingM3UParser) :
  parser_sound p -> parser_sound (feed_all p chunks).
Proof.
  revert p; induction chunks as [|c chunks IH]; intros p H; [exact H|].
  cbn [feed_all fold_left]. apply IH. now apply parse_sound.
Qed.

(** X1.  Whatever the text and however it is cut into chunks, every entry
    of a parse run has an id, a name and a group that are not empty, and a
    URL that starts with [http] and has no surrounding whitespace. *)
Theorem parsed_entries_well_formed :
  (forall chunks : list jsstring,
     forallb well_formed (parse_texts chunks) = true)
  /\ (forall chunks : list (list Byte.byte),
       forallb well_formed (parse_bytes chunks) = true).
Proof.
  assert (H : forall chunks : list jsstring,
            forallb well_formed (parse_texts chunks) = true).
  { intros chunks. unfold parse_texts.
    destruct (feed_all_sound chunks new_parser) as [Hc Hp];
      [split; reflexivity|].
    unfold finalize.
    destruct (truthy (trim (buffer (feed_all new_parser chunks)))
              && startsWith s_http
                   (trim (buffer (feed_all new_parser chunks)))
              && truthy_opt
                   (tvgName (currentInfo (feed_all new_parser chunks))))
      eqn:E; [|exact Hc].
    apply andb_true_iff in E as [E Hn]. apply andb_true_iff in E as [_ Hu].
    cbn [fst channels]. rewrite forallb_app, Hc. cbn [forallb andb].
    rewrite andb_true_r. now apply make_channel_well_formed. }
  split; [exact H|]. intros chunks. apply H.
Qed.

End WellFormed.

(** *** Chunks of text and chunks of ASCII bytes *)

Section Chunking.
Import Route Spec Utf8.

(** X2.  On decoded text the cut into chunks is invisible: two lists of
    chunks of the same text give the same entries, whether a cut falls
    inside a line, inside a CR LF pair or between lines. *)
Theorem text_chunking_invisible (chunks1 chunks2 : list jsstring) :
  concat chunks1 = concat chunks2 ->
  parse_texts chunks1 = parse_texts chunks2.
Proof.
  intros H. rewrite (text_chunks_invariant chunks1),
    (text_chunks_invariant chunks2). now rewrite H.
Qed.

Lemma text_chunking_invisible_witness :
  parse_texts [firstn 20 sample_playlist; skipn 20 sample_playlist]
  = parse_texts [sample_playlist].
Proof.
  apply text_chunking_invisible. cbn [concat].
  rewrite !app_nil_r. apply firstn_skipn.
Defined.

Lemma run_ascii (bs : list Byte.byte) :
  ascii_only bs = true -> run fresh bs = (fresh, List.map Byte.to_N bs).
Proof.
  induction bs as [|b bs IH]; intros H; [reflexivity|].
  cbn [ascii_only forallb] in H. apply andb_true_iff in H as [Hb H].
  cbn [run List.map].
  assert (E : handler fresh (Byte.to_N b) = (fresh, [Byte.to_N b])).
  { unfold handler. cbn [bytes_needed fresh].
    change (0 =? 0) with true. cbv iota. unfold lead_byte.
    change 0x7F with 127. now rewrite Hb. }
  rewrite E, (IH H). reflexivity.
Qed.

Lemma code_units_ascii (cps : list N) :
  forallb (fun c => c <=? 127) cps = true ->
  flat_map code_units cps = cps.
Proof.
  induction cps as [|c cps IH]; intros H; [reflexivity|].
  cbn [forallb] in H. apply andb_true_iff in H as [Hc H].
  cbn [flat_map]. rewrite (IH H). unfold code_units.
  apply N.leb_le in Hc.
  destruct (c <? 0x10000) eqn:E; [reflexivity|].
  apply N.ltb_ge in E. lia.
Qed.

(** A chunk of ASCII bytes decodes to the same numbers. *)
Lemma decode_ascii (bs : list Byte.byte) :
  ascii_only bs = true -> decode_stream_fresh bs = List.map Byte.to_N bs.
Proof.
  intros H. unfold decode_stream_fresh. rewrite (run_ascii bs H).
  cbn [snd].
  assert (Hall : forallb (fun c => c <=? 127) (List.map Byte.to_N bs) = true).
  { clear -H. induction bs as [|b bs IH]; [reflexivity|].
    cbn [ascii_only forallb List.map] in *.
    apply andb_true_iff in H as [Hb H]. now rewrite Hb, (IH H). }
  assert (Hs : strip_bom (List.map Byte.to_N bs) = List.map Byte.to_N bs).
  { destruct bs as [|b bs]; [reflexivity|]. cbn [List.map strip_bom].
    cbn [List.map forallb] in Hall. apply andb_true_iff in Hall as [Hb _].
    apply N.leb_le in Hb.
    destruct (Byte.to_N b =? 0xFEFF) eqn:E; [|reflexivity].
    apply N.eqb_eq in E. lia. }
  rewrite Hs. now apply code_units_ascii.
Qed.

Lemma ascii_only_concat (chunks : list (list Byte.byte)) :
  ascii_only (concat chunks) = true ->
  List.map decode_stream_fresh chunks = List.map (List.map Byte.to_N) chunks.
Proof.
  induction chunks as [|c chunks IH]; intros H; [reflexivity|].
  cbn [concat] in H. unfold ascii_only in H. rewrite forallb_app in H.
  apply andb_true_iff in H as [Hc H].
  cbn [List.map]. rewrite (decode_ascii c Hc), (IH H). reflexivity.
Qed.

(** X3.  For a file of ASCII bytes the cut into chunks is invisible too:
    any chunks of the file, and the 64 KiB chunks of the upload loop among
    them, give the entries of the whole text. *)
Theorem ascii_chunking_invisible (data : list Byte.byte)
  (chunks : list (list Byte.byte)) :
  ascii_only data = true ->
  concat chunks = data ->
  parse_bytes chunks = parse_texts [List.map Byte.to_N data]
  /\ parse_bytes (file_chunks data) = parse_bytes chunks.
Proof.
  intros Ha Hc.
  assert (H : forall cs, concat cs = data ->
            parse_bytes cs = parse_texts [List.map Byte.to_N data]).
  { intros cs E. unfold parse_bytes.
    rewrite ascii_only_concat by now rewrite E.
    apply text_chunking_invisible. cbn [concat]. rewrite app_nil_r.
    rewrite <- concat_map. now rewrite E. }
  split; [now apply H|].
  rewrite (H chunks Hc). apply H. apply file_chunks_concat.
Qed.

Lemma ascii_chunking_invisible_witness :
  parse_bytes [firstn 20 (ascii_bytes sample_playlist);
               skipn 20 (ascii_bytes sample_playlist)]
  = parse_texts [List.map Byte.to_N (ascii_bytes sample_playlist)]
  /\ parse_bytes (file_chunks (ascii_bytes sample_playlist))
     = parse_bytes [firstn 20 (ascii_bytes sample_playlist);
                    skipn 20 (ascii_bytes sample_playlist)].
Proof.
  apply ascii_chunking_invisible.
  - vm_compute. reflexivity.
  - cbn [concat]. rewrite app_nil_r. apply firstn_skipn.
Defined.

End Chunking.

(** *** The totals of the parse endpoint *)

Section Totals.
Import Route Spec.

Lemma map_set_sum (k : jsstring) (v : nat) (m : list (jsstring * nat)) :
  (total_count (map_set k v m)
   + match map_get k m with Some n => n | None => 0 end
   = total_count m + v)%nat.
Proof.
  unfold total_count, list_sum.
  induction m as [|[k' v'] m IH]; [cbn; lia|].
  cbn [map_set map_get]. destruct (eqs k k').
  - cbn [List.map snd fold_right]. lia.
  - cbn [List.map snd fold_right]. lia.
Qed.

Lemma count_group_sum (m : list (jsstring * nat)) (c : M3UChannel) :
  total_count (count_group m c) = S (total_count m).
Proof.
  unfold count_group.
  pose proof (map_set_sum (group_of c)
                (match map_get (group_of c) m with
                 | Some n => n | None => 0 end + 1)%nat m) as H.
  lia.
Qed.

Lemma fold_count_sum (chs : list M3UChannel) (m : list (jsstring * nat)) :
  total_count (fold_left count_group chs m)
  = (total_count m + length chs)%nat.
Proof.
  revert m; induction chs as [|c chs IH]; intros m;
    [cbn [fold_left length]; lia|].
  cbn [fold_left length]. rewrite IH, count_group_sum. lia.
Qed.

(** X4.  In every answer of status 200 of the parse endpoint the field
    [totalChannels] is the number of entries, and the counts of the group
    summary add up to it. *)
Theorem parse_endpoint_totals (request : Request) (r : M3UParseResult) :
  POST request = JsonResult r ->
  totalChannels r = length (r_channels r)
  /\ total_count (groups r) = totalChannels r.
Proof.
  intros H. unfold POST in H.
  destruct request as [[|v|f]|]; try discriminate H.
  - destruct (truthy v); discriminate H.
  - destruct (negb (endsWith s_m3u (toLowerCase (name f)))
              && negb (endsWith s_m3u8 (toLowerCase (name f))));
      [discriminate H|].
    destruct (MAX_FILE_SIZE <? size f); [discriminate H|].
    injection H as <-. cbn [totalChannels r_channels groups].
    split; [reflexivity|].
    unfold group_summary. now rewrite fold_count_sum.
Qed.

Lemma parse_endpoint_totals_witness :
  exists r, POST (Some (Upload sample_file)) = JsonResult r
            /\ totalChannels r = length (r_channels r)
            /\ total_count (groups r) = totalChannels r.
Proof.
  eexists. split; [vm_compute; reflexivity|].
  apply (parse_endpoint_totals (Some (Upload sample_file))).
  vm_compute. reflexivity.
Defined.

End Totals.

(** *** Entries and lines *)

Section Lines.
Import Route Spec.

Lemma split_lines_snoc (s : jsstring) :
  exists lines t, split_lines s = lines ++ [t].
Proof.
  destruct (split_lines_app s) as (la & t & H & _). now exists la, t.
Qed.

Lemma parse_line_counts (st : list M3UChannel * StreamingM3UParser)
  (line : jsstring) :
  (length (channels (snd (parse_line st line)))
   + pending_count (snd (parse_line st line))
   <= length (channels (snd st)) + pending_count (snd st)
      + (if is_info_line line then 1 else 0))%nat
  /\ (length (channels (snd (parse_line st line)))
      <= length (channels (snd st))
         + (if is_url_line line then 1 else 0))%nat.
Proof.
  destruct st as [nc p]. cbn [snd]. unfold parse_line, is_info_line,
    is_url_line, pending_count.
  destruct (negb (truthy (trim line)) || startsWith s_EXTM3U (trim line)).
  { cbn [snd]. split; lia. }
  destruct (startsWith s_EXTINF (trim line)).
  { cbn [snd channels currentInfo].
    destruct (truthy_opt (tvgName (parseExtInfo (trim line))));
      destruct (truthy_opt (tvgName (currentInfo p))); split; lia. }
  destruct (startsWith s_http (trim line)).
  - destruct (truthy_opt (tvgName (currentInfo p))) eqn:E;
      cbn [snd channels currentInfo empty_info tvgName truthy_opt];
      rewrite ?length_app; cbn [length]; split; lia.
  - cbn [snd]. split; lia.
Qed.

Lemma fold_parse_line_counts (lines : list jsstring)
  (st : list M3UChannel * StreamingM3UParser) :
  (length (channels (snd (fold_left parse_line lines st)))
   + pending_count (snd (fold_left parse_line lines st))
   <= length (channels (snd st)) + pending_count (snd st)
      + length (filter is_info_line lines))%nat
  /\ (length (channels (snd (fold_left parse_line lines st)))
      <= length (channels (snd st))
         + length (filter is_url_line lines))%nat.
Proof.
  revert st; induction lines as [|l lines IH]; intros st.
  - cbn [fold_left filter length]. split; lia.
  - cbn [fold_left filter].
    destruct (IH (parse_line st l)) as [H1 H2].
    destruct (parse_line_counts st l) as [H3 H4].
    destruct (is_info_line l); destruct (is_url_line l); cbn [length];
      split; lia.
Qed.

(** X5.  A parse run never returns more entries than the text has info
    lines, nor more than it has URL lines, however the text is cut. *)
Theorem entries_bounded_by_lines (chunks : list jsstring) :
  (length (parse_texts chunks)
   <= count_lines is_info_line (concat chunks))%nat
  /\ (length (parse_texts chunks)
      <= count_lines is_url_line (concat chunks))%nat.
Proof.
  rewrite (text_chunks_invariant chunks).
  generalize (concat chunks). intros text.
  destruct (split_lines_snoc text) as (lines & t & E).
  unfold parse_texts, count_lines. cbn [feed_all fold_left].
  rewrite (@parse_split new_parser text lines t) by exact E.
  rewrite E, !filter_app, !length_app.
  destruct (fold_parse_line_counts lines ([], new_parser)) as [H1 H2].
  cbn [snd new_parser channels length] in H1, H2.
  change (pending_count new_parser) with 0%nat in H1.
  set (p := snd (fold_left parse_line lines ([], new_parser))) in *.
  assert (K : (length (fst (finalize (with_buffer t p)))
               <= length (channels p)
                  + (if is_url_line t then pending_count p else 0))%nat).
  { unfold finalize, is_url_line, pending_count.
    cbn [with_buffer buffer currentInfo channels channelId].
    destruct (truthy (trim t)); cbn [andb fst]; [|lia].
    destruct (startsWith s_http (trim t)); cbn [andb fst]; [|lia].
    destruct (truthy_opt (tvgName (currentInfo p))); cbn [fst channels];
      rewrite ?length_app; cbn [length]; lia. }
  cbn [filter].
  assert (Hb : (pending_count p <= 1)%nat)
    by (unfold pending_count; destruct (truthy_opt _); lia).
  destruct (is_url_line t); destruct (is_info_line t); cbn [length];
    split; lia.
Qed.

End Lines.

(** *** The guard on every hostname *)

Section GuardExact.
Import Download Spec.

Lemma rep_within (p : char -> bool) (lo : nat) (hi : option nat)
  (s x : jsstring) :
  In x (rep p lo hi s) -> exists w, s = w ++ x /\ forallb p w = true.
Proof.
  revert lo hi; induction s as [|c s IH]; intros lo hi H.
  - cbn [rep] in H. destruct lo; [|destruct H].
    destruct H as [<-|[]]. now exists [].
  - cbn [rep] in H.
    assert (Stop : In x (match lo with O => [c :: s] | S _ => [] end) ->
                   exists w, c :: s = w ++ x /\ forallb p w = true).
    { destruct lo; [|intros []]. intros [<-|[]]. now exists []. }
    destruct (p c) eqn:Ec; [|now apply Stop].
    destruct (can_take hi); [|now apply Stop].
    cbn [andb] in H.
    apply in_app_or in H as [H|H]; [|now apply Stop].
    apply IH in H as (w & -> & Hw). exists (c :: w).
    split; [reflexivity|]. cbn [forallb]. now rewrite Ec, Hw.
Qed.

(** What a pattern consumes is made of the characters it allows. *)
Lemma matches_within (P : char -> bool) (r : regex) :
  within P r ->
  forall (s s' : jsstring) (c : option jsstring),
    In (s', c) (matches r s) ->
    exists w, s = w ++ s' /\ forallb P w = true.
Proof.
  induction r as [l|p|r1 IH1 r2 IH2|r1 IH1|lo hi p|n r1 IH1|r1 IH1|];
    intros W s s' c H; cbn [within] in W; cbn [matches] in H.
  - destruct (startsWith l s) eqn:E; [|destruct H].
    destruct H as [[= <- _]|[]].
    exists l. split; [|exact W].
    clear W. revert s E; induction l as [|x l IH]; intros s E;
      [reflexivity|].
    destruct s as [|y s]; [discriminate E|]. cbn [startsWith] in E.
    apply andb_true_iff in E as [Ex E]. apply N.eqb_eq in Ex. subst y.
    cbn [length skipn app]. now rewrite <- (IH s E).
  - destruct s as [|x s]; [destruct H|].
    destruct (p x) eqn:E; [|destruct H]. destruct H as [[= <- _]|[]].
    exists [x]. split; [reflexivity|]. cbn [forallb].
    now rewrite (W x E).
  - destruct W as [W1 W2].
    apply in_flat_map in H as ([s1 c1] & H1 & H).
    apply in_map_iff in H as ([s2 c2] & [= <- _] & H2).
    cbn [fst] in H2.
    apply (IH1 W1) in H1 as (w1 & -> & P1).
    apply (IH2 W2) in H2 as (w2 & -> & P2).
    exists (w1 ++ w2). split; [now rewrite app_assoc|].
    now rewrite forallb_app, P1, P2.
  - apply in_app_or in H as [H|[[= <- _]|[]]];
      [now apply (IH1 W) in H|].
    now exists [].
  - apply in_map_iff in H as (x & [= <- _] & H).
    apply rep_within in H as (w & -> & Hw). exists w.
    split; [reflexivity|].
    clear - W Hw. induction w as [|y w IH]; [reflexivity|].
    cbn [forallb] in *. apply andb_true_iff in Hw as [Hy Hw].
    now rewrite (W y Hy), (IH Hw).
  - assert (T : forall n s c0 s' c,
                In (s', c) (times (matches r1) n s c0) ->
                exists w, s = w ++ s' /\ forallb P w = true).
    { clear - IH1 W. induction n as [|n IHn]; intros s c0 s' c H;
        cbn [times] in H.
      - destruct H as [[= <- _]|[]]. now exists [].
      - apply in_flat_map in H as ([s1 c1] & H1 & H).
        apply (IH1 W) in H1 as (w1 & -> & P1). cbn [fst] in H.
        apply IHn in H as (w2 & -> & P2). exists (w1 ++ w2).
        split; [now rewrite app_assoc|].
        now rewrite forallb_app, P1, P2. }
    now apply T in H.
  - apply in_map_iff in H as ([s1 c1] & [= <- _] & H1).
    now apply (IH1 W) in H1.
  - destruct s; [|destruct H]. destruct H as [[= <- _]|[]]. now exists [].
Qed.

Lemma within_dotted_quad : within quad_char re_dotted_quad.
Proof.
  unfold re_dotted_quad, Chr, quad_char. cbn [within].
  repeat split; intros c H; rewrite H; try reflexivity.
  apply orb_true_r.
Qed.

(** A hostname of dotted-quad shape is made of digits and dots. *)
Lemma dotted_quad_chars (host : jsstring) :
  test_at_start re_dotted_quad host = true ->
  forallb quad_char host = true.
Proof.
  unfold test_at_start, match_at_start.
  destruct (matches re_dotted_quad host) as [|[s' c] tl] eqn:E;
    [discriminate|].
  intros _.
  assert (H : In (s', c) (matches re_dotted_quad host))
    by (rewrite E; now left).
  pose proof (matches_within quad_char re_dotted_quad within_dotted_quad
                host s' c H) as (w & Hw & Pw).
  unfold re_dotted_quad in H.
  apply in_matches_Cat_inv in H as (s1 & c1 & c2 & _ & H & _).
  apply in_matches_Cat_inv in H as (s2 & c3 & c4 & _ & H & _).
  apply in_matches_Eos_inv in H as (_ & -> & _).
  rewrite app_nil_r in Hw. now subst w.
Qed.

Lemma forallb_existsb_negb (p : char -> bool) (s : jsstring) :
  forallb p s = true -> existsb (fun c => negb (p c)) s = false.
Proof.
  induction s as [|c s IH]; [reflexivity|]. cbn [forallb existsb].
  intros H. apply andb_true_iff in H as [Hc H].
  now rewrite Hc, (IH H).
Qed.

(** X6.  The guard on a dotted quad with four parts of one to three
    digits is decided by the numbers of the parts alone: it blocks the
    quad exactly when a part is above 255 or the address lies in 10/8,
    127/8, 192.168/16, 172.16/12, 169.254/16 or 0/8; every other quad
    passes. *)
Theorem guard_on_quads (a b c d : jsstring) :
  is_part a = true -> is_part b = true -> is_part c = true ->
  is_part d = true ->
  isBlockedHostname (quad a b c d)
  = quad_verdict (digits_value a) (digits_value b)
                 (digits_value c) (digits_value d).
Proof.
  intros Ha Hb Hc Hd. unfold isBlockedHostname.
  rewrite (toLowerCase_quad _ _ _ _ Ha Hb Hc Hd).
  pose proof (quad_parts _ _ _ _ Ha Hb Hc Hd) as Hp.
  assert (H1 : eqs (quad a b c d) s_localhost = false).
  { apply eqs_neq. intros E. rewrite E in Hp. vm_compute in Hp.
    discriminate Hp. }
  assert (H3 : eqs (quad a b c d) s_ipv6_loopback = false).
  { apply eqs_neq. intros E. rewrite E in Hp. vm_compute in Hp.
    discriminate Hp. }
  rewrite H1, H3, orb_false_r. cbn [orb].
  destruct (eqs (quad a b c d) s_127_0_0_1) eqn:H2.
  - apply eqs_eq in H2. rewrite H2 in Hp.
    change (List.map Number (split_on dot s_127_0_0_1))
      with [Some 127; Some 0; Some 0; Some 1] in Hp.
    injection Hp as <- <- <- <-. reflexivity.
  - rewrite (quad_shape _ _ _ _ Ha Hb Hc Hd), Hp.
    cbn [existsb out_of_range part_is part_ge part_le nth].
    unfold quad_verdict. rewrite orb_false_r.
    destruct (255 <? digits_value a); [reflexivity|].
    destruct (255 <? digits_value b); [reflexivity|].
    destruct (255 <? digits_value c); [reflexivity|].
    destruct (255 <? digits_value d); [reflexivity|].
    cbn [orb].
    destruct (digits_value a =? 10); [reflexivity|].
    destruct (digits_value a =? 127); [reflexivity|].
    cbn [orb].
    destruct ((digits_value a =? 192) && (digits_value b =? 168));
      [reflexivity|].
    cbn [orb].
    destruct ((digits_value a =? 172) && (16 <=? digits_value b)
              && (digits_value b <=? 31)); [reflexivity|].
    cbn [orb].
    destruct ((digits_value a =? 169) && (digits_value b =? 254));
      [reflexivity|].
    cbn [orb].
    destruct (digits_value a =? 0); reflexivity.
Qed.

Lemma guard_on_quads_witness :
  isBlockedHostname (quad (js "172") (js "32") (js "0") (js "1"))
  = quad_verdict 172 32 0 1.
Proof.
  apply (guard_on_quads (js "172") (js "32") (js "0") (js "1"));
    reflexivity.
Defined.

(** X7.  A hostname with a character that is neither a digit nor a dot
    is blocked only when, in lower case, it is [localhost] or [::1]:
    every other name, and every address written another way, passes the
    guard. *)
Theorem guard_on_names (hostname : jsstring) :
  existsb (fun c => negb (quad_char c)) (toLowerCase hostname) = true ->
  isBlockedHostname hostname
  = eqs (toLowerCase hostname) s_localhost
    || eqs (toLowerCase hostname) s_ipv6_loopback.
Proof.
  intros H. unfold isBlockedHostname.
  set (host := toLowerCase hostname) in *.
  assert (H2 : eqs host s_127_0_0_1 = false).
  { apply eqs_neq. intros E. rewrite E in H. vm_compute in H.
    discriminate H. }
  assert (Hq : test_at_start re_dotted_quad host = false).
  { destruct (test_at_start re_dotted_quad host) eqn:E; [|reflexivity].
    apply dotted_quad_chars in E.
    apply forallb_existsb_negb in E. congruence. }
  rewrite H2, Hq, orb_false_r.
  destruct (eqs host s_localhost || eqs host s_ipv6_loopback); reflexivity.
Qed.

Lemma guard_on_names_witness :
  isBlockedHostname bracketed_loopback = false.
Proof.
  apply (guard_on_names bracketed_loopback). vm_compute. reflexivity.
Defined.

End GuardExact.

(** *** The relay asks upstream only past its gates *)

Section RelayGates.
Import Download Spec.

Variable newURL : jsstring -> option URL.
Variable decodeURIComponent : jsstring -> option jsstring.
Variable encodeURIComponent : jsstring -> option jsstring.
Variable Body : Type.

(** X8.  Whatever the upstream does, the relay makes at most one outbound
    request, and makes it only when the [url] parameter parsed, its
    scheme is [http:] or [https:] and its hostname passed the guard; the
    request then goes to the [href] of the parsed URL. *)
Theorem relay_requests_past_gates (req : Request)
  (fetch : jsstring -> list (jsstring * jsstring)
           -> option (Upstream Body)) :
  snd (run fetch
         (GET newURL decodeURIComponent encodeURIComponent Body req)) = []
  \/ exists u,
       targets newURL req u /\ web_scheme u = true
       /\ isBlockedHostname (hostname u) = false
       /\ snd (run fetch
                 (GET newURL decodeURIComponent encodeURIComponent Body req))
          = [href u].
Proof.
  unfold GET, targets, web_scheme.
  destruct (truthy_opt (urlParam req)) eqn:Ht; [|now left].
  destruct (newURL (nullish (urlParam req) [])) as [u|] eqn:Eu;
    [|now left].
  destruct (eqs (protocol u) s_http_colon) eqn:E1;
    destruct (eqs (protocol u) s_https_colon) eqn:E2; cbn [negb andb];
    try (now left);
    (destruct (isBlockedHostname (hostname u)) eqn:Eb; [now left|];
     right; exists u; rewrite ?E1, ?E2, ?Eb; repeat split;
     solve [assumption | reflexivity]).
Qed.

End RelayGates.

(** *** File names *)

Section FileNames.
Import Download Spec.

Lemma forallb_incl (p : char -> bool) (a b : jsstring) :
  incl a b -> forallb p b = true -> forallb p a = true.
Proof.
  intros Hi Hb. apply forallb_forall. intros x Hx.
  apply (proj1 (forallb_forall p b) Hb). now apply Hi.
Qed.

Lemma drop_while_incl (p : char -> bool) (s : jsstring) :
  incl (drop_while p s) s.
Proof.
  destruct (drop_while_suffix p s) as [w E]. intros x Hx.
  rewrite E. apply in_or_app. now right.
Qed.

Lemma rev_drop_rev_incl (p : char -> bool) (s : jsstring) :
  incl (rev (drop_while p (rev s))) s.
Proof.
  intros x Hx. apply in_rev in Hx. apply drop_while_incl in Hx.
  now apply in_rev.
Qed.

Lemma trim_incl (s : jsstring) : incl (trim s) s.
Proof.
  unfold trim, trimEnd, trimStart. intros x Hx.
  apply rev_drop_rev_incl in Hx. now apply drop_while_incl in Hx.
Qed.

Lemma firstn_incl (n : nat) (s : jsstring) : incl (firstn n s) s.
Proof.
  intros x Hx. rewrite <- (firstn_skipn n s). apply in_or_app. now left.
Qed.

Lemma collapse_ws_chars (s : jsstring) (b : bool) :
  forallb (fun c => negb (is_illegal c)) s = true ->
  forallb name_char (collapse_ws b s) = true.
Proof.
  revert b; induction s as [|c s IH]; intros b H; [reflexivity|].
  cbn [forallb] in H. apply andb_true_iff in H as [Hc H].
  cbn [collapse_ws]. destruct (is_ws c) eqn:Ew.
  - destruct b; [now apply IH|]. cbn [forallb].
    now rewrite (IH true H).
  - cbn [forallb]. unfold name_char at 1. rewrite Hc, Ew.
    now rewrite (IH false H).
Qed.

Lemma filter_forallb (p : char -> bool) (s : jsstring) :
  forallb p (filter p s) = true.
Proof.
  induction s as [|c s IH]; [reflexivity|]. cbn [filter].
  destruct (p c) eqn:E; [|exact IH]. cbn [forallb]. now rewrite E, IH.
Qed.

(** X9.  Whatever the text, [sanitizeFilename] returns a name that is not
    empty, has at most 160 code units, and holds no control character, no
    character of the forbidden set (angle brackets, colon, double quote,
    slash, backslash, bar, question mark, asterisk) and no whitespace
    other than the plain space. *)
Theorem sanitizeFilename_safe (filename : jsstring) :
  sanitizeFilename filename <> []
  /\ (length (sanitizeFilename filename) <= 160)%nat
  /\ forallb name_char (sanitizeFilename filename) = true.
Proof.
  unfold sanitizeFilename.
  set (cleaned := firstn 160 _).
  assert (Hc : forallb name_char cleaned = true).
  { unfold cleaned.
    apply (forallb_incl name_char _ _ (firstn_incl 160 _)).
    apply (forallb_incl name_char _ _
             (rev_drop_rev_incl (fun c => (c =? dot) || (c =? space)) _)).
    apply (forallb_incl name_char _ _ (trim_incl _)).
    apply collapse_ws_chars. apply filter_forallb. }
  assert (Hl : (length cleaned <= 160)%nat)
    by (unfold cleaned; apply firstn_le_length).
  destruct (truthy cleaned) eqn:Et.
  - split; [|split; assumption]. intros E. rewrite E in Et.
    discriminate Et.
  - split; [discriminate|]. split; [cbn; lia|reflexivity].
Qed.

Lemma quoted_of_name (s : jsstring) :
  forallb name_char s = true ->
  forallb quoted_char (filter (fun c => (32 <=? c) && (c <=? 126)) s) = true.
Proof.
  induction s as [|c s IH]; [reflexivity|]. cbn [forallb filter].
  intros H. apply andb_true_iff in H as [Hc H].
  destruct ((32 <=? c) && (c <=? 126)) eqn:E; [|now apply IH].
  cbn [forallb]. rewrite (IH H), andb_true_r.
  unfold quoted_char. rewrite E. cbn [andb].
  unfold name_char, is_illegal in Hc.
  apply andb_true_iff in Hc as [Hc _]. apply negb_true_iff in Hc.
  repeat (apply orb_false_iff in Hc as [Hc ?]).
  repeat match goal with
         | H : (c =? ?k) = false |- _ =>
             first [ change k with 92 in H | change k with dquote in H ];
             rewrite H; clear H
         end.
  reflexivity.
Qed.

(** X10.  When the encoder does not throw, the Content-Disposition header
    is [attachment] with a quoted name and the encoded form of the
    sanitized name; the quoted name is never empty and holds only
    printable ASCII characters other than the double quote and the
    backslash, so that no file name can end the quoted string or add a
    line to the header. *)
Theorem content_disposition_quoted
  (encodeURIComponent : jsstring -> option jsstring)
  (filename header : jsstring) :
  createContentDispositionHeader encodeURIComponent filename = Some header ->
  exists quoted encoded,
    header = disposition quoted encoded
    /\ encodeURIComponent (sanitizeFilename filename) = Some encoded
    /\ quoted <> []
    /\ forallb quoted_char quoted = true.
Proof.
  unfold createContentDispositionHeader.
  destruct (encodeURIComponent (sanitizeFilename filename)) as [e|] eqn:Ee;
    [|discriminate].
  intros [= <-].
  destruct (sanitizeFilename_safe filename) as (_ & _ & Hn).
  pose proof (quoted_of_name _ Hn) as Hq.
  set (f := filter (fun c => (32 <=? c) && (c <=? 126))
                   (sanitizeFilename filename)) in *.
  exists (or_else (Some f) s_download), e.
  split; [reflexivity|]. split; [reflexivity|].
  unfold or_else. destruct (truthy f) eqn:Et.
  - split; [|exact Hq]. intros E. rewrite E in Et. discriminate Et.
  - split; [discriminate|reflexivity].
Qed.

Lemma content_disposition_quoted_witness :
  exists quoted encoded,
    disposition (js "ab b.ts") (js "ab b.ts") = disposition quoted encoded
    /\ toy_codec (sanitizeFilename (js "a/b" ++ [dquote] ++ js " b.ts"))
       = Some encoded
    /\ quoted <> []
    /\ forallb quoted_char quoted = true.
Proof.
  apply (content_disposition_quoted toy_codec
           (js "a/b" ++ [dquote] ++ js " b.ts")).
  vm_compute. reflexivity.
Defined.

End FileNames.

(** *** The text of the generator, for any names and attributes *)

Section GeneratedLines.
Import Route Spec.

Lemma escapeAttribute_chars (v : jsstring) :
  forallb attr_char (Download.escapeAttribute v) = true.
Proof.
  unfold Download.escapeAttribute. destruct (negb (truthy v)); [reflexivity|].
  induction v as [|c v IH]; [reflexivity|]. cbn [List.map filter].
  destruct (negb (Download.is_crlf (if c =? dquote then squote else c)))
    eqn:E; [|exact IH].
  cbn [forallb]. rewrite IH, andb_true_r. unfold attr_char. rewrite E.
  unfold not_dquote. destruct (c =? dquote) eqn:Ec; [reflexivity|].
  now rewrite Ec.
Qed.

Lemma escapeAttribute_fixed (w : jsstring) :
  forallb attr_char w = true -> Download.escapeAttribute w = w.
Proof.
  intros H. unfold Download.escapeAttribute.
  destruct w as [|x w]; [reflexivity|]. cbn [truthy negb].
  revert H. generalize (x :: w). clear. intros w.
  induction w as [|c w IH]; intros H; [reflexivity|].
  cbn [forallb] in H. apply andb_true_iff in H as [Hc H].
  unfold attr_char, not_dquote in Hc. apply andb_true_iff in Hc as [Hq Hn].
  apply negb_true_iff in Hq. cbn [List.map filter]. rewrite Hq, Hn.
  now rewrite (IH H).
Qed.

Lemma escapeValue_one_line (v : jsstring) :
  forallb (fun c => negb (Download.is_crlf c)) (Download.escapeValue v)
  = true.
Proof.
  unfold Download.escapeValue. destruct (negb (truthy v)); [reflexivity|].
  apply (forallb_incl _ _ _ (trim_incl _)). apply filter_forallb.
Qed.

(** X11.  What [escapeAttribute] returns holds no double quote and no
    line break, and escaping it again changes nothing; what [escapeValue]
    returns holds no line break and is either empty or free of surrounding
    whitespace. *)
Theorem escapes_clean (value : jsstring) :
  forallb attr_char (Download.escapeAttribute value) = true
  /\ Download.escapeAttribute (Download.escapeAttribute value)
     = Download.escapeAttribute value
  /\ one_line (Download.escapeValue value) = true
  /\ (Download.escapeValue value = []
      \/ solid (Download.escapeValue value) = true).
Proof.
  split; [apply escapeAttribute_chars|].
  split; [apply escapeAttribute_fixed, escapeAttribute_chars|].
  split; [apply escapeValue_one_line|].
  unfold Download.escapeValue. destruct (negb (truthy value));
    [right; reflexivity|].
  destruct (trim (filter (fun c => negb (Download.is_crlf c)) value))
    as [|c t] eqn:E; [now left|].
  right. rewrite <- E. apply solid_trim. rewrite E. discriminate.
Qed.

Lemma emitted_opt_plain (k : jsstring) (o : option jsstring) :
  In k six_keys -> plain_attrs (emitted_opt k o).
Proof.
  intros Hk. unfold emitted_opt. destruct (truthy_opt o); [|constructor].
  constructor; [|constructor]. cbn [fst snd]. split; [exact Hk|].
  generalize (escapeAttribute_chars (match o with Some x => x | None => [] end)).
  apply forallb_impl. intros c. unfold attr_char.
  intros H. now apply andb_true_iff in H as [_ H].
Qed.

Lemma emitted_plain (e : Download.Channel) : plain_attrs (emitted e).
Proof.
  destruct in_six_keys as (K1 & K2 & K3 & K4 & K5 & K6).
  unfold emitted, plain_attrs.
  repeat (apply Forall_app; split); now apply emitted_opt_plain.
Qed.

Lemma join_one_line (l : list (jsstring * jsstring)) :
  plain_attrs l ->
  forallb (fun c => negb (Download.is_crlf c))
          (Download.join_space (List.map render_raw l)) = true.
Proof.
  induction l as [|[k a] l IH]; intros Hl; [reflexivity|].
  apply Forall_cons_iff in Hl as [(Hk & Hc) Hl].
  cbn [fst snd] in Hk, Hc. cbn [List.map]. rewrite join_space_cons.
  unfold render_raw at 1. cbn [fst snd].
  rewrite !app_assoc, <- (app_assoc k), !forallb_app.
  pose proof (key_no_crlf k Hk) as Hkc. rewrite forallb_app in Hkc.
  apply andb_true_iff in Hkc as [Hk1 _]. rewrite Hk1, Hc.
  replace (forallb (fun c => negb (Download.is_crlf c)) [61; dquote])
    with true by reflexivity.
  replace (forallb (fun c => negb (Download.is_crlf c)) [dquote])
    with true by reflexivity.
  cbn [andb]. specialize (IH Hl).
  destruct (List.map render_raw l); [reflexivity|].
  cbn [forallb]. now rewrite IH.
Qed.

(** The info line of any channel holds no line break. *)
Lemma info_line_one_line (e : Download.Channel) :
  forallb (fun c => negb (Download.is_crlf c)) (info_line e) = true.
Proof.
  unfold info_line.
  rewrite !forallb_app, (join_one_line _ (emitted_plain e)).
  cbn [forallb]. rewrite (escapeValue_one_line (Download.tvgName e)).
  reflexivity.
Qed.

Lemma split_lines_any (es : list Download.Channel) :
  forallb (fun e => one_line (Download.url e)) es = true ->
  split_lines (concat (List.map Download.channel_lines es))
  = flat_map lines_of es ++ [[]].
Proof.
  induction es as [|e es IH]; intros H; [reflexivity|].
  cbn [forallb] in H. apply andb_true_iff in H as [He Hes].
  cbn [List.map concat flat_map]. rewrite channel_lines_eq.
  rewrite <- !app_assoc. cbn [app].
  rewrite (split_lines_line _ _ (info_line_one_line e)).
  rewrite <- app_assoc. cbn [app].
  rewrite (split_lines_line _ _ He).
  now rewrite (IH Hes).
Qed.

Lemma generated_split (es : list Download.Channel) :
  forallb (fun e => one_line (Download.url e)) es = true ->
  split_lines (Download.generateM3UContent es)
  = (s_EXTM3U :: flat_map lines_of es) ++ [[]].
Proof.
  intros H. unfold Download.generateM3UContent. rewrite fold_left_append.
  unfold Download.s_EXTM3U_nl. rewrite <- app_assoc. cbn [app].
  rewrite (split_lines_line s_EXTM3U _ eq_refl).
  now rewrite (split_lines_any es H).
Qed.

(** X12.  Whatever the names and the attribute values of the channels,
    the text of the generator has the header line, then for each channel
    its info line and its URL, and an empty last piece: as long as no URL
    holds a line break, no field of a channel can add a line to the
    playlist or take one away.  Each pair of lines is what
    [generateM3UContent] appends for the channel. *)
Theorem generated_lines (es : list Download.Channel) :
  forallb (fun e => one_line (Download.url e)) es = true ->
  split_lines (Download.generateM3UContent es)
  = (s_EXTM3U :: flat_map lines_of es) ++ [[]]
  /\ length (split_lines (Download.generateM3UContent es))
     = (2 * length es + 2)%nat
  /\ forall e,
       Download.channel_lines e
       = info_line e ++ LF :: Download.url e ++ [LF]
       /\ one_line (info_line e) = true
       /\ startsWith Download.s_EXTINF_1 (info_line e) = true.
Proof.
  intros H. split; [now apply generated_split|]. split.
  - rewrite (generated_split es H), length_app. cbn [length].
    assert (L : length (flat_map lines_of es) = (2 * length es)%nat).
    { clear. induction es as [|e es IH]; [reflexivity|].
      cbn [flat_map lines_of app length]. rewrite IH. lia. }
    rewrite L. lia.
  - intros e. split; [apply channel_lines_eq|].
    split; [apply info_line_one_line|].
    unfold info_line. apply startsWith_app_self.
Qed.

Lemma generated_lines_witness :
  length (split_lines (Download.generateM3UContent odd_entries)) = 6%nat.
Proof.
  apply (proj1 (proj2 (generated_lines odd_entries eq_refl))).
Defined.

(** *** Any channel with a URL line comes back *)

Lemma drop_while_app_keep (p : char -> bool) (u v : jsstring) (c : char) :
  p c = false -> exists u', drop_while p (u ++ c :: v) = u' ++ c :: v.
Proof.
  intros Hc. induction u as [|x u IH]; cbn [app drop_while].
  - rewrite Hc. now exists [].
  - destruct (p x); [exact IH|]. now exists (x :: u).
Qed.

(** Trimming a line that starts with the info directive keeps the
    directive. *)
Lemma trim_directive (t : jsstring) :
  exists t', trim (s_EXTINF ++ t) = s_EXTINF ++ t'.
Proof.
  unfold trim.
  assert (E : trimStart (s_EXTINF ++ t) = s_EXTINF ++ t) by reflexivity.
  rewrite E. unfold trimEnd. rewrite rev_app_distr.
  change (rev s_EXTINF) with (58 :: rev (removelast s_EXTINF)).
  destruct (drop_while_app_keep is_ws (rev t) (rev (removelast s_EXTINF)) 58
              eq_refl) as [u' Eu].
  exists (rev u').
  transitivity (rev (u' ++ 58 :: rev (removelast s_EXTINF)));
    [f_equal; exact Eu|].
  rewrite rev_app_distr. cbn [rev]. rewrite rev_involutive.
  rewrite <- app_assoc. reflexivity.
Qed.

Lemma parse_line_info_any (e : Download.Channel) (nc : list M3UChannel)
  (p : StreamingM3UParser) :
  parse_line (nc, p) (info_line e)
  = (nc, mkParser (channels p) (parseExtInfo (trim (info_line e)))
                  (buffer p) (channelId p)).
Proof.
  unfold parse_line.
  assert (Ei : exists t, info_line e = s_EXTINF ++ t).
  { unfold info_line. exists (js "-1 "
      ++ Download.join_space (List.map render_raw (emitted e))
      ++ comma :: Download.escapeValue (Download.tvgName e)).
    reflexivity. }
  destruct Ei as [t ->]. destruct (trim_directive t) as [t' ->].
  reflexivity.
Qed.

Lemma parse_line_pair_any (e : Download.Channel) (nc : list M3UChannel)
  (p : StreamingM3UParser) :
  url_ok (Download.url e) = true ->
  let ch := make_channel (parseExtInfo (trim (info_line e)))
                         (Download.url e) (channelId p) in
  fold_left parse_line (lines_of e) (nc, p)
  = (nc ++ [ch],
     mkParser (channels p ++ [ch]) empty_info (buffer p) (S (channelId p))).
Proof.
  intros Hu ch. cbn [lines_of fold_left]. rewrite parse_line_info_any.
  destruct (url_ok_facts _ Hu) as (Hh & Hs & _).
  destruct (http_not_directive _ Hh) as (Hd1 & Hd2).
  destruct (parseExtInfo_named (trim (info_line e))) as [Hn _].
  unfold parse_line. rewrite (trim_solid _ Hs), (solid_truthy _ Hs).
  rewrite Hd1, Hd2, Hh. cbn [negb orb currentInfo].
  rewrite Hn. reflexivity.
Qed.

Lemma fold_entries_any (es : list Download.Channel) :
  forallb (fun e => url_ok (Download.url e)) es = true ->
  forall (nc : list M3UChannel) (p : StreamingM3UParser),
  exists chs,
    channels (snd (fold_left parse_line (flat_map lines_of es) (nc, p)))
    = channels p ++ chs
    /\ List.map url chs = List.map (fun e => Some (Download.url e)) es.
Proof.
  induction es as [|e es IH]; intros H nc p.
  - exists []. split; [now rewrite app_nil_r|reflexivity].
  - cbn [forallb] in H. apply andb_true_iff in H as [He Hes].
    cbn [flat_map]. rewrite fold_left_app, (parse_line_pair_any e nc p He).
    set (ch := make_channel (parseExtInfo (trim (info_line e)))
                            (Download.url e) (channelId p)).
    destruct (IH Hes (nc ++ [ch])
                (mkParser (channels p ++ [ch]) empty_info (buffer p)
                          (S (channelId p))))
      as (chs & E & F).
    exists (ch :: chs). split.
    + rewrite E. cbn [channels]. now rewrite <- app_assoc.
    + cbn [List.map]. now rewrite F.
Qed.

(** X13.  Every channel whose URL is a URL line - it starts with [http]
    and has no surrounding whitespace or line break - comes back from the
    generated text, whatever its name and its attributes hold: the parser
    returns as many entries as there were channels, with the same URLs in
    the same order, in whatever chunks the text arrives. *)
Theorem generated_urls_round_trip (es : list Download.Channel)
  (chunks : list jsstring) :
  forallb (fun e => url_ok (Download.url e)) es = true ->
  concat chunks = Download.generateM3UContent es ->
  List.map url (parse_texts chunks)
  = List.map (fun e => Some (Download.url e)) es
  /\ length (parse_texts chunks) = length es.
Proof.
  intros H E.
  assert (K : List.map url (parse_texts chunks)
              = List.map (fun e => Some (Download.url e)) es).
  { rewrite text_chunks_invariant, E.
    unfold parse_texts. cbn [feed_all fold_left].
    assert (H1 : forallb (fun e => one_line (Download.url e)) es = true).
    { clear - H. induction es as [|e es IH]; [reflexivity|].
      cbn [forallb] in *. apply andb_true_iff in H as [He H].
      destruct (url_ok_facts _ He) as (_ & _ & Hc).
      unfold one_line at 1. now rewrite Hc, (IH H). }
    pose proof (generated_split es H1) as S.
    rewrite (parse_split new_parser _ _ _ S). cbn [fold_left].
    replace (parse_line ([], new_parser) s_EXTM3U) with
      (([] : list M3UChannel), new_parser) by reflexivity.
    destruct (fold_entries_any es H [] new_parser) as (chs & Ec & F).
    unfold finalize.
    replace (trim (buffer (with_buffer [] (snd (fold_left parse_line
               (flat_map lines_of es) ([], new_parser))))))
      with ([] : jsstring) by reflexivity.
    cbn [truthy andb fst with_buffer channels]. rewrite Ec. exact F. }
  split; [exact K|].
  apply (f_equal (@length _)) in K. now rewrite !length_map in K.
Qed.

Lemma generated_urls_round_trip_witness :
  List.map url
    (parse_texts
       [firstn 40 (Download.generateM3UContent odd_entries);
        skipn 40 (Download.generateM3UContent odd_entries)])
  = List.map (fun e => Some (Download.url e)) odd_entries
  /\ length
       (parse_texts
          [firstn 40 (Download.generateM3UContent odd_entries);
           skipn 40 (Download.generateM3UContent odd_entries)])
     = length odd_entries.
Proof.
  apply generated_urls_round_trip.
  - vm_compute. reflexivity.
  - cbn [concat]. rewrite app_nil_r. apply firstn_skipn.
Defined.

End GeneratedLines.

(** *** The parser of the player and the parser of the route *)

Section TwoParsers.
Import Route Spec.

Lemma within_duration : within duration_char re_duration.
Proof.
  unfold re_duration, Chr, Star, Plus, duration_char. cbn [within].
  repeat split; intros c H; rewrite H; rewrite ?orb_true_r; reflexivity.
Qed.

Lemma attr_not_at_duration (K : jsstring) (x : char) (rest : jsstring) :
  In K six_keys -> duration_char x = true ->
  matches (re_attr K) (x :: rest) = [].
Proof.
  intros HK Hx.
  assert (H116 : (116 =? x) = false).
  { destruct (116 =? x) eqn:E; [|reflexivity]. apply N.eqb_eq in E.
    subst x. discriminate Hx. }
  assert (H103 : (103 =? x) = false).
  { destruct (103 =? x) eqn:E; [|reflexivity]. apply N.eqb_eq in E.
    subst x. discriminate Hx. }
  unfold six_keys in HK. cbn [In] in HK.
  destruct HK as [<-|[<-|[<-|[<-|[<-|[<-|[]]]]]]];
    unfold re_attr; cbn [matches];
    match goal with
    | |- context [startsWith ?l (x :: rest)] =>
        replace (startsWith l (x :: rest)) with false; [reflexivity|]
    end;
    cbv [k_tvg_name k_tvg_logo k_tvg_id k_tvg_country k_tvg_language
         k_group_title]; cbn [app startsWith];
    rewrite ?H116, ?H103; reflexivity.
Qed.

Lemma attr_skip_duration (K w s : jsstring) :
  In K six_keys -> forallb duration_char w = true ->
  match1 (re_attr K) (w ++ s) = match1 (re_attr K) s.
Proof.
  intros HK. induction w as [|x w IH]; intros H; [reflexivity|].
  cbn [forallb] in H. apply andb_true_iff in H as [Hx H].
  cbn [app]. rewrite match1_cons_nil by now apply attr_not_at_duration.
  now apply IH.
Qed.

(** The attribute patterns find the same in the info line with and
    without its duration. *)
Lemma attr_same (K s : jsstring) :
  In K six_keys ->
  match1 (re_attr K) (remove_at_start re_duration s)
  = match1 (re_attr K) s.
Proof.
  intros HK. unfold remove_at_start, match_at_start.
  destruct (matches re_duration s) as [|[s' c] tl] eqn:E; [reflexivity|].
  assert (H : In (s', c) (matches re_duration s)) by (rewrite E; now left).
  destruct (matches_within duration_char re_duration within_duration
              s s' c H) as (w & -> & Hw).
  cbn [fst]. symmetry. now apply attr_skip_duration.
Qed.

Lemma parse_info_named (line : jsstring) :
  truthy_opt (Player.tvgName (Player.parse_info line)) = true.
Proof.
  unfold Player.parse_info. cbn [Player.tvgName truthy_opt].
  destruct (truthy (display_name _)) eqn:E; [exact E|].
  unfold or_else. destruct (match1 (re_attr k_tvg_name) _) as [s|];
    [|reflexivity].
  destruct (truthy s) eqn:Es; [exact Es|reflexivity].
Qed.

Lemma info_same (line : jsstring) :
  same_info (Player.parse_info line) (parseExtInfo line).
Proof.
  destruct in_six_keys as (K1 & K2 & K3 & K4 & K5 & K6).
  destruct (parseExtInfo_named line) as [Hn _].
  unfold same_info. rewrite Hn, parse_info_named.
  unfold Player.parse_info, parseExtInfo.
  cbn [Player.tvgLogo Player.tvgId Player.tvgCountry Player.tvgLanguage
       Player.groupTitle tvgLogo tvgId tvgCountry tvgLanguage groupTitle].
  rewrite !attr_same by assumption.
  repeat split. right.
  now exists (match1 (re_attr k_group_title) (substring_from 8 line)).
Qed.

Lemma empty_same : same_info Player.empty_info empty_info.
Proof. unfold same_info. repeat split. now left. Qed.

Lemma parse_line_in_step (ps : list Player.M3UChannel * Player.M3UChannel)
  (nc : list M3UChannel) (p : StreamingM3UParser) (line : jsstring) :
  in_step ps p ->
  in_step (Player.parse_line ps line) (snd (parse_line (nc, p) line)).
Proof.
  destruct ps as [pcs pinfo]. intros (Hc & Hid & Hi).
  cbn [fst snd] in Hc, Hi.
  unfold Player.parse_line, parse_line.
  destruct (negb (truthy (trim line)) || startsWith s_EXTM3U (trim line)).
  { now split. }
  destruct (startsWith s_EXTINF (trim line)).
  { split; [exact Hc|]. split; [exact Hid|]. apply info_same. }
  destruct (startsWith s_http (trim line)); [|now split].
  pose proof Hi as (Hn & Hl & Hd & Hy & Hg & Hgr).
  rewrite Hn.
  destruct (truthy_opt (tvgName (currentInfo p))) eqn:En.
  - unfold in_step. cbn [fst snd channels channelId currentInfo].
    split; [|split; [|apply empty_same]].
    + apply Forall2_app; [exact Hc|]. constructor; [|constructor].
      unfold same_parsed, make_channel, same_info.
      cbn [Player.id Player.url Player.tvgName Player.tvgLogo Player.tvgId
           Player.tvgCountry Player.tvgLanguage Player.groupTitle
           id url tvgName tvgLogo tvgId tvgCountry tvgLanguage groupTitle].
      rewrite (Forall2_length Hc), Hid, Hn, En.
      repeat split; assumption.
    + rewrite length_app. cbn [length]. lia.
  - unfold in_step. cbn [fst snd channels channelId currentInfo].
    split; [exact Hc|]. split; [exact Hid|apply empty_same].
Qed.

Lemma fold_in_step (lines : list jsstring)
  (ps : list Player.M3UChannel * Player.M3UChannel)
  (st : list M3UChannel * StreamingM3UParser) :
  in_step ps (snd st) ->
  in_step (fold_left Player.parse_line lines ps)
          (snd (fold_left parse_line lines st)).
Proof.
  revert ps st; induction lines as [|l lines IH]; intros ps st H;
    [exact H|].
  cbn [fold_left]. apply IH. destruct st as [nc p].
  now apply parse_line_in_step.
Qed.

(** The last line: the loop of the player against [finalize]. *)
Lemma last_line_in_step (ps : list Player.M3UChannel * Player.M3UChannel)
  (p : StreamingM3UParser) (t : jsstring) :
  in_step ps p ->
  Forall2 same_parsed (fst (Player.parse_line ps t))
          (fst (finalize (with_buffer t p))).
Proof.
  destruct ps as [pcs pinfo]. intros (Hc & Hid & Hi).
  cbn [fst snd] in Hc, Hi.
  unfold Player.parse_line, finalize.
  cbn [with_buffer buffer currentInfo channels channelId].
  destruct (startsWith s_http (trim t)) eqn:Eh.
  - destruct (http_not_directive _ Eh) as (Hd1 & Hd2).
    rewrite Hd1, Hd2.
    assert (Et : truthy (trim t) = true).
    { destruct (trim t); [discriminate Eh|reflexivity]. }
    rewrite Et. cbn [negb orb andb].
    pose proof Hi as (Hn & Hl & Hd & Hy & Hg & Hgr). rewrite Hn.
    destruct (truthy_opt (tvgName (currentInfo p))) eqn:En;
      cbn [fst channels]; [|exact Hc].
    apply Forall2_app; [exact Hc|]. constructor; [|constructor].
    unfold same_parsed, make_channel, same_info.
    cbn [Player.id Player.url Player.tvgName Player.tvgLogo Player.tvgId
         Player.tvgCountry Player.tvgLanguage Player.groupTitle
         id url tvgName tvgLogo tvgId tvgCountry tvgLanguage groupTitle].
    rewrite (Forall2_length Hc), Hid, Hn, En.
    repeat split; assumption.
  - rewrite andb_false_r. cbn [andb fst].
    destruct (negb (truthy (trim t)) || startsWith s_EXTM3U (trim t));
      [exact Hc|].
    destruct (startsWith s_EXTINF (trim t)); exact Hc.
Qed.

(** X14.  On every text the parser of the player and the streaming parser
    of the route, fed the text in any chunks, return the same number of
    entries, with the same ids, the same URLs and the same logo, id,
    country and language attributes, entry by entry; the groups are the
    same captured value or, without one, the word of each parser.  (The
    names can differ: see C3.) *)
Theorem player_and_route_agree (text : jsstring) (chunks : list jsstring) :
  concat chunks = text ->
  Forall2 same_parsed (Player.parseM3U text) (parse_texts chunks).
Proof.
  intros <-. rewrite text_chunks_invariant.
  generalize (concat chunks). clear chunks. intros text.
  destruct (split_lines_snoc text) as (lines & t & E).
  unfold Player.parseM3U, parse_texts. cbn [feed_all fold_left].
  rewrite (parse_split new_parser text lines t E), E, fold_left_app.
  cbn [fold_left].
  apply last_line_in_step.
  apply (fold_in_step lines ([], Player.empty_info) ([], new_parser)).
  split; [constructor|]. split; [reflexivity|apply empty_same].
Qed.

Lemma player_and_route_agree_witness :
  Forall2 same_parsed (Player.parseM3U sample_playlist)
    (parse_texts [firstn 20 sample_playlist; skipn 20 sample_playlist]).
Proof.
  apply player_and_route_agree. cbn [concat].
  rewrite app_nil_r. apply firstn_skipn.
Defined.

End TwoParsers.

(** *** The round trip through the generator, in the player *)

Section PlayerRoundTrip.
Import Route Spec.

Lemma info_line_after_directive (e : Download.Channel) :
  entry_ok e = true ->
  substring_from 8 (info_line e)
  = js "-1 " ++ info_rest (info_line e).
Proof.
  intros H. rewrite (info_rest_info_line e H). reflexivity.
Qed.

(** The info line of a channel, read by the player. *)
Lemma parse_info_info_line (e : Download.Channel) (n : nat) :
  entry_ok e = true ->
  same_entry_player e
    (player_channel (Player.parse_info (info_line e)) (Download.url e) n).
Proof.
  intros H.
  unfold same_entry_player, player_channel, Player.parse_info.
  cbn [Player.url Player.groupTitle Player.tvgName Player.tvgNameAttribute
       Player.tvgLogo Player.tvgId Player.tvgCountry Player.tvgLanguage].
  rewrite (info_line_after_directive e H).
  destruct in_six_keys as (K1 & K2 & K3 & K4 & K5 & K6).
  rewrite !(attr_skip_duration _ (js "-1 ")) by (assumption || reflexivity).
  rewrite (display_name_skip (js "-1 ")) by reflexivity.
  rewrite (info_rest_info_line e H).
  destruct (emitted_ok e H) as (Hok & rest & Erest).
  destruct (entry_ok_facts e H)
    as (Hn & _ & (g & Eg & Hg) & Hl & Hi & Hc & Hla).
  destruct (name_ok_facts _ Hn) as (Hs & Ev & _ & Hlt & _).
  destruct (value_ok_facts g Hg) as (Htg & Eeg & _).
  assert (look : forall K v, In K six_keys -> assoc K (emitted e) = Some v ->
            match1 (re_attr K)
              (Download.join_space (List.map render_raw (emitted e))
               ++ comma :: Download.escapeValue (Download.tvgName e))
            = Some v).
  { intros K v HK Ha. now apply attr_lookup. }
  assert (Hd : display_name
                 (Download.join_space (List.map render_raw (emitted e))
                  ++ comma :: Download.escapeValue (Download.tvgName e))
               = Download.tvgName e).
  { rewrite display_name_skip by now apply info_no_comma.
    rewrite Ev.
    destruct (Download.tvgName e) as [|x d] eqn:En; [discriminate Hs|].
    rewrite display_name_here.
    - now rewrite (trim_solid _ Hs).
    - cbn [solid] in Hs. apply andb_true_iff in Hs as [Hs _].
      now apply negb_true_iff in Hs.
    - exact Hlt. }
  rewrite Hd, (solid_truthy _ Hs).
  split; [|split; [|split; [|split; [|split; [|split; [|split]]]]]].
  - reflexivity.
  - rewrite (look k_group_title g K6).
    + rewrite Eg. cbn [or_else]. now rewrite Htg.
    + unfold emitted. rewrite !assoc_app.
      rewrite !assoc_emitted_other by reflexivity.
      rewrite Eg, (assoc_emitted_same _ g Htg). now rewrite Eeg.
  - reflexivity.
  - apply (look k_tvg_name _ K1). rewrite Erest. reflexivity.
  - intros v Ev' Ht. apply (look k_tvg_logo v K2).
    unfold emitted. rewrite !assoc_app.
    rewrite assoc_emitted_other by reflexivity.
    now rewrite (kept_lookup k_tvg_logo e _ v Hl Ev' Ht).
  - intros v Ev' Ht. apply (look k_tvg_id v K3).
    unfold emitted. rewrite !assoc_app.
    rewrite !assoc_emitted_other by reflexivity.
    now rewrite (kept_lookup k_tvg_id e _ v Hi Ev' Ht).
  - intros v Ev' Ht. apply (look k_tvg_country v K4).
    unfold emitted. rewrite !assoc_app.
    rewrite !assoc_emitted_other by reflexivity.
    now rewrite (kept_lookup k_tvg_country e _ v Hc Ev' Ht).
  - intros v Ev' Ht. apply (look k_tvg_language v K5).
    unfold emitted. rewrite !assoc_app.
    rewrite !assoc_emitted_other by reflexivity.
    now rewrite (kept_lookup k_tvg_language e _ v Hla Ev' Ht).
Qed.

Lemma player_line_pair (e : Download.Channel)
  (pcs : list Player.M3UChannel) (pinfo : Player.M3UChannel) :
  entry_ok e = true ->
  fold_left Player.parse_line (lines_of e) (pcs, pinfo)
  = (pcs ++ [player_channel (Player.parse_info (info_line e))
               (Download.url e) (length pcs)],
     Player.empty_info).
Proof.
  intros H. cbn [lines_of fold_left].
  assert (E1 : Player.parse_line (pcs, pinfo) (info_line e)
               = (pcs, Player.parse_info (info_line e))).
  { unfold Player.parse_line. rewrite (trim_info_line e H). reflexivity. }
  rewrite E1.
  destruct (entry_ok_facts e H) as (Hn & Hu & _).
  destruct (url_ok_facts _ Hu) as (Hh & Hs & _).
  destruct (http_not_directive _ Hh) as (Hd1 & Hd2).
  unfold Player.parse_line. rewrite (trim_solid _ Hs), (solid_truthy _ Hs).
  rewrite Hd1, Hd2, Hh. cbn [negb orb].
  rewrite parse_info_named. reflexivity.
Qed.

Lemma player_fold_entries (es : list Download.Channel) :
  forallb entry_ok es = true ->
  forall (pcs : list Player.M3UChannel) (pinfo : Player.M3UChannel),
  exists chs,
    fold_left Player.parse_line (flat_map lines_of es) (pcs, pinfo)
    = (pcs ++ chs, match es with [] => pinfo | _ => Player.empty_info end)
    /\ Forall2 same_entry_player es chs.
Proof.
  induction es as [|e es IH]; intros H pcs pinfo.
  - exists []. split; [now rewrite app_nil_r|constructor].
  - cbn [forallb] in H. apply andb_true_iff in H as [He Hes].
    cbn [flat_map]. rewrite fold_left_app, (player_line_pair e pcs pinfo He).
    set (ch := player_channel (Player.parse_info (info_line e))
                 (Download.url e) (length pcs)).
    destruct (IH Hes (pcs ++ [ch]) Player.empty_info) as (chs & E & F).
    exists (ch :: chs). split.
    + rewrite E, <- app_assoc. cbn [app]. now destruct es.
    + constructor; [|exact F]. now apply parse_info_info_line.
Qed.

(** X15.  The round trip of X20 holds in the player as well: for entries
    that pass the same checks, [parseM3U] on the text of the generator
    gives for each entry, in order, the same URL, group and display name,
    the same value for every optional attribute that is not empty, and
    the escaped name as [tvgNameAttribute]. *)
Theorem player_round_trip (es : list Download.Channel) :
  forallb entry_ok es = true ->
  Forall2 same_entry_player es
    (Player.parseM3U (Download.generateM3UContent es)).
Proof.
  intros H. unfold Player.parseM3U.
  assert (H1 : forallb (fun e => one_line (Download.url e)) es = true).
  { clear - H. induction es as [|e es IH]; [reflexivity|].
    cbn [forallb] in *. apply andb_true_iff in H as [He H].
    destruct (entry_ok_facts e He) as (_ & Hu & _).
    destruct (url_ok_facts _ Hu) as (_ & _ & Hc).
    unfold one_line at 1. now rewrite Hc, (IH H). }
  rewrite (generated_split es H1). cbn [app fold_left].
  replace (Player.parse_line ([], Player.empty_info) s_EXTM3U)
    with (([] : list Player.M3UChannel), Player.empty_info) by reflexivity.
  rewrite fold_left_app.
  destruct (player_fold_entries es H [] Player.empty_info)
    as (chs & E & F).
  rewrite E. cbn [fold_left app].
  replace (fst (Player.parse_line
                  (chs, match es with
                        | [] => Player.empty_info
                        | _ :: _ => Player.empty_info
                        end) []))
    with chs by reflexivity.
  exact F.
Qed.

Lemma player_round_trip_witness :
  Forall2 same_entry_player plain_entries
    (Player.parseM3U (Download.generateM3UContent plain_entries)).
Proof.
  apply player_round_trip. vm_compute. reflexivity.
Defined.

End PlayerRoundTrip.

(** *** The file name of a generated playlist *)

Section GeneratedName.
Import Download Spec.

(** X16.  The name [generateFilename] returns is a stem, the number of
    channels and the date, joined by underscores.  The stem is what is
    left of the channel name - its kept characters (ASCII letters and
    digits, the Turkish letters, whitespace, hyphen), trimmed and cut to
    50 code units - whenever that is not empty, and [channels] exactly
    when it is empty.  In both cases the stem is not empty, has at most 50
    code units, holds only kept characters and does not start with
    whitespace. *)
Theorem generateFilename_stem (date channelName : jsstring) (count : nat) :
  exists stem,
    generateFilename date channelName count
    = stem ++ [95] ++ number_to_string count ++ [95] ++ date
    /\ stem = (if truthy (firstn 50 (trim (filter is_kept channelName)))
               then firstn 50 (trim (filter is_kept channelName))
               else s_channels)
    /\ stem <> []
    /\ (length stem <= 50)%nat
    /\ forallb is_kept stem = true
    /\ is_ws (hd 0 stem) = false.
Proof.
  unfold generateFilename.
  set (safeName := firstn 50 (trim (filter is_kept channelName))).
  exists (or_else (Some safeName) s_channels).
  split; [reflexivity|]. split; [reflexivity|].
  assert (Hk : forallb is_kept safeName = true).
  { unfold safeName.
    apply (forallb_incl is_kept _ _ (firstn_incl 50 _)).
    apply (forallb_incl is_kept _ _ (trim_incl _)).
    apply filter_forallb. }
  assert (Hl : (length safeName <= 50)%nat)
    by (unfold safeName; apply firstn_le_length).
  assert (Hh : safeName <> [] -> is_ws (hd 0 safeName) = false).
  { unfold safeName.
    destruct (trim (filter is_kept channelName)) as [|c t] eqn:E;
      [now rewrite firstn_nil|].
    intros _. cbn [firstn hd].
    assert (Hs : solid (trim (filter is_kept channelName)) = true)
      by (apply solid_trim; rewrite E; discriminate).
    rewrite E in Hs. cbn [solid] in Hs.
    apply andb_true_iff in Hs as [Hs _]. now apply negb_true_iff in Hs. }
  unfold or_else. destruct (truthy safeName) eqn:Et.
  - assert (Hne : safeName <> [])
      by (intros E; rewrite E in Et; discriminate Et).
    split; [exact Hne|]. split; [exact Hl|]. split; [exact Hk|].
    now apply Hh.
  - split; [discriminate|]. split; [cbn; lia|].
    split; reflexivity.
Qed.

End GeneratedName.

(** *** The pages of the player *)

Section Pages.
Import PlayerView Spec.

Lemma firstn_add (A : Type) (a b : nat) (l : list A) :
  firstn (a + b) l = firstn a l ++ firstn b (skipn a l).
Proof.
  revert l; induction a as [|a IH]; intros l; [reflexivity|].
  destruct l as [|x l]; [now rewrite !firstn_nil|].
  cbn [Nat.add firstn skipn app]. now rewrite IH.
Qed.

Lemma concat_pages (A : Type) (d n : nat) (l : list A) :
  concat (List.map (fun k => firstn d (skipn (k * d) l)) (seq 0 n))
  = firstn (n * d) l.
Proof.
  induction n as [|n IH]; [reflexivity|].
  rewrite seq_S, map_app, concat_app, IH. cbn [List.map concat Nat.add].
  rewrite app_nil_r.
  replace (S n * d)%nat with (n * d + d)%nat by lia.
  symmetry. apply firstn_add.
Qed.

(** A page is the next [itemsPerPage] entries after those of the pages
    before it. *)
Lemma displayed_page (A : Type) (l : list A) (p ipp : Z) :
  (0 < ipp)%Z -> (1 <= p)%Z ->
  displayedChannels l p ipp
  = firstn (Z.to_nat ipp) (skipn (Z.to_nat ((p - 1) * ipp)) l).
Proof.
  intros Hi Hp. unfold displayedChannels, slice.
  set (start := ((p - 1) * ipp)%Z).
  assert (Hs : (0 <= start)%Z) by (unfold start; nia).
  replace (start <? 0)%Z with false by (symmetry; apply Z.ltb_ge; lia).
  replace (start + ipp <? 0)%Z with false
    by (symmetry; apply Z.ltb_ge; lia).
  set (len := Z.of_nat (length l)).
  destruct (Z_lt_le_dec start len) as [Hlt|Hge].
  - rewrite (Z.min_l start len) by lia.
    destruct (Z_le_gt_dec (start + ipp) len) as [He|He].
    + rewrite (Z.min_l (start + ipp) len) by lia.
      f_equal. lia.
    + rewrite (Z.min_r (start + ipp) len) by lia.
      assert (L : length (skipn (Z.to_nat start) l)
                  = Z.to_nat (len - start)).
      { rewrite length_skipn. unfold len. lia. }
      rewrite !firstn_all2; [reflexivity| |]; rewrite L; lia.
  - rewrite (Z.min_r start len), (Z.min_r (start + ipp) len) by lia.
    rewrite (skipn_all2 l (n := Z.to_nat len)) by (unfold len; lia).
    rewrite (skipn_all2 l (n := Z.to_nat start)) by (unfold len in Hge; lia).
    now rewrite !firstn_nil.
Qed.

Lemma ceil_div_covers (n d : Z) :
  (0 < d)%Z -> (n <= ceil_div n d * d)%Z /\ (ceil_div n d * d < n + d)%Z.
Proof.
  intros Hd. unfold ceil_div.
  pose proof (Z.mul_div_le (- n) d Hd).
  pose proof (Z.mul_succ_div_gt (- n) d Hd). nia.
Qed.

(** X17.  With a positive page size, the pages 1 to [totalPages] of the
    player, one after the other, are the whole list of entries, each
    entry once and in order; no page holds more than [itemsPerPage]
    entries, and every page after the last is empty. *)
Theorem pages_cover_list (A : Type) (filteredChannels : list A)
  (itemsPerPage : Z) :
  (0 < itemsPerPage)%Z ->
  concat (List.map
            (fun p => displayedChannels filteredChannels p itemsPerPage)
            (page_numbers
               (Z.to_nat (totalPages filteredChannels itemsPerPage))))
  = filteredChannels
  /\ (forall p, (1 <= p)%Z ->
        (Z.of_nat (length (displayedChannels filteredChannels p
                             itemsPerPage))
         <= itemsPerPage)%Z)
  /\ (forall p, (totalPages filteredChannels itemsPerPage < p)%Z ->
        displayedChannels filteredChannels p itemsPerPage = []).
Proof.
  intros Hi.
  destruct (ceil_div_covers (Z.of_nat (length filteredChannels))
              itemsPerPage Hi) as [Hc1 Hc2].
  fold (totalPages filteredChannels itemsPerPage) in Hc1, Hc2.
  assert (Ht : (0 <= totalPages filteredChannels itemsPerPage)%Z) by nia.
  split; [|split].
  - unfold page_numbers. rewrite map_map.
    rewrite (map_ext _
               (fun k => firstn (Z.to_nat itemsPerPage)
                           (skipn (k * Z.to_nat itemsPerPage)
                                  filteredChannels))).
    + rewrite concat_pages. apply firstn_all2. nia.
    + intros k. rewrite displayed_page by lia. f_equal. f_equal. nia.
  - intros p Hp. rewrite displayed_page by lia.
    pose proof (firstn_le_length (Z.to_nat itemsPerPage)
                  (skipn (Z.to_nat ((p - 1) * itemsPerPage))
                         filteredChannels)).
    lia.
  - intros p Hp. rewrite displayed_page by lia.
    rewrite skipn_all2; [apply firstn_nil|]. nia.
Qed.

Lemma pages_cover_list_witness :
  concat (List.map (fun p => displayedChannels (seq 0 45) p 20)
            (page_numbers (Z.to_nat (totalPages (seq 0 45) 20))))
  = seq 0 45.
Proof.
  apply (proj1 (pages_cover_list nat (seq 0 45) 20 eq_refl)).
Defined.

(** X18.  For a current page between 1 and [totalPages], the page buttons
    are a run of [min(5, totalPages)] consecutive page numbers that lies
    between 1 and [totalPages] and holds the current page. *)
Theorem page_buttons_window (total current : Z) :
  (1 <= current <= total)%Z ->
  exists first,
    page_buttons total current
    = run_from first (Z.to_nat (Z.min 5 total))
    /\ (1 <= first)%Z
    /\ (first + Z.min 5 total - 1 <= total)%Z
    /\ (first <= current < first + Z.min 5 total)%Z.
Proof.
  intros H. unfold page_buttons, run_from, pageNum.
  destruct (total <=? 5)%Z eqn:E1.
  { apply Z.leb_le in E1. exists 1%Z.
    split; [apply map_ext; intros; lia|lia]. }
  apply Z.leb_gt in E1.
  destruct (current <=? 3)%Z eqn:E2.
  { apply Z.leb_le in E2. exists 1%Z.
    split; [apply map_ext; intros; lia|lia]. }
  apply Z.leb_gt in E2.
  destruct (total - 2 <=? current)%Z eqn:E3.
  { apply Z.leb_le in E3. exists (total - 4)%Z.
    split; [apply map_ext; intros; lia|lia]. }
  apply Z.leb_gt in E3. exists (current - 2)%Z.
  split; [apply map_ext; intros; lia|lia].
Qed.

Lemma page_buttons_window_witness :
  exists first,
    page_buttons 9 8 = run_from first (Z.to_nat (Z.min 5 9))
    /\ (1 <= first)%Z
    /\ (first + Z.min 5 9 - 1 <= 9)%Z
    /\ (first <= 8 < first + Z.min 5 9)%Z.
Proof.
  apply (page_buttons_window 9 8). lia.
Defined.

End Pages.

(** *** Chunks of bytes cut between characters *)

Section CleanCut.
Import Route Spec Utf8.

Lemma run_app (a b : list Byte.byte) (d : decoder) :
  run d (a ++ b)
  = (fst (run (fst (run d a)) b), snd (run d a) ++ snd (run (fst (run d a)) b)).
Proof.
  revert d; induction a as [|x a IH]; intros d.
  - cbn [app run fst snd]. now destruct (run d b).
  - cbn [app run]. destruct (handler d (Byte.to_N x)) as [d1 o1].
    rewrite IH. destruct (run d1 a) as [d2 o2]. cbn [fst snd].
    now rewrite app_assoc.
Qed.

(** From a fresh decoder, a decoder with no sequence open is fresh. *)
Lemma lead_byte_state (b : N) :
  bytes_needed (fst (lead_byte b)) = 0 -> fst (lead_byte b) = fresh.
Proof.
  unfold lead_byte.
  repeat match goal with
         | |- context [if ?c then _ else _] => destruct c
         end; cbn [fst bytes_needed]; try reflexivity; discriminate.
Qed.

Lemma handler_state (d : decoder) (b : N) :
  (d = fresh \/ bytes_needed d <> 0) ->
  fst (handler d b) = fresh \/ bytes_needed (fst (handler d b)) <> 0.
Proof.
  intros Hd. unfold handler.
  assert (L : fst (lead_byte b) = fresh
              \/ bytes_needed (fst (lead_byte b)) <> 0).
  { destruct (N.eq_dec (bytes_needed (fst (lead_byte b))) 0) as [E|E];
      [left; now apply lead_byte_state|now right]. }
  destruct (bytes_needed d =? 0) eqn:E0; [exact L|].
  apply N.eqb_neq in E0.
  destruct (negb _).
  - destruct (lead_byte b) as [d' out]. exact L.
  - destruct (bytes_seen d + 1 =? bytes_needed d); [now left|].
    right. exact E0.
Qed.

Lemma run_state (bs : list Byte.byte) (d : decoder) :
  (d = fresh \/ bytes_needed d <> 0) ->
  fst (run d bs) = fresh \/ bytes_needed (fst (run d bs)) <> 0.
Proof.
  revert d; induction bs as [|b bs IH]; intros d Hd; [exact Hd|].
  cbn [run]. pose proof (handler_state d (Byte.to_N b) Hd) as H.
  destruct (handler d (Byte.to_N b)) as [d1 o1]. cbn [fst] in H.
  specialize (IH d1 H). destruct (run d1 bs) as [d2 o2]. exact IH.
Qed.

Lemma complete_fresh (chunk : list Byte.byte) :
  complete chunk = true -> fst (run fresh chunk) = fresh.
Proof.
  unfold complete. intros H. apply N.eqb_eq in H.
  destruct (run_state chunk fresh (or_introl eq_refl)) as [E|E];
    [exact E|contradiction].
Qed.

(** The code points of complete chunks, decoded one after the other by
    one decoder, are those of each chunk decoded alone. *)
Lemma run_concat (chunks : list (list Byte.byte)) :
  forallb complete chunks = true ->
  run fresh (concat chunks)
  = (fresh, concat (List.map (fun c => snd (run fresh c)) chunks)).
Proof.
  induction chunks as [|c chunks IH]; intros H; [reflexivity|].
  cbn [forallb] in H. apply andb_true_iff in H as [Hc H].
  cbn [concat List.map]. rewrite run_app, (complete_fresh c Hc).
  now rewrite (IH H).
Qed.

Lemma strip_bom_none (chunks : list (list Byte.byte)) :
  forallb (fun c => negb (starts_with_bom c)) chunks = true ->
  strip_bom (concat (List.map (fun c => snd (run fresh c)) chunks))
  = concat (List.map (fun c => snd (run fresh c)) chunks)
  /\ List.map (fun c => strip_bom (snd (run fresh c))) chunks
     = List.map (fun c => snd (run fresh c)) chunks.
Proof.
  induction chunks as [|c chunks IH]; intros H; [now split|].
  cbn [forallb] in H. apply andb_true_iff in H as [Hc H].
  destruct (IH H) as [IH1 IH2]. cbn [List.map concat].
  unfold starts_with_bom in Hc.
  destruct (snd (run fresh c)) as [|x o] eqn:E.
  - cbn [app]. split; [exact IH1|]. now rewrite IH2.
  - apply negb_true_iff in Hc. cbn [app strip_bom]. rewrite Hc.
    split; [reflexivity|]. now rewrite IH2.
Qed.

Lemma decode_concat (chunks : list (list Byte.byte)) :
  clean_cut chunks = true ->
  concat (List.map decode_stream_fresh chunks)
  = decode_stream_fresh (concat chunks).
Proof.
  unfold clean_cut. intros H. apply andb_true_iff in H as [Hc Hb].
  unfold decode_stream_fresh at 2. rewrite (run_concat chunks Hc).
  cbn [snd].
  destruct chunks as [|c chunks]; [reflexivity|].
  cbn [tl] in Hb. cbn [forallb] in Hc.
  apply andb_true_iff in Hc as [_ Hc].
  destruct (strip_bom_none chunks Hb) as [S1 S2].
  cbn [List.map concat].
  assert (T : concat (List.map decode_stream_fresh chunks)
              = flat_map code_units
                  (concat (List.map (fun c => snd (run fresh c)) chunks))).
  { unfold decode_stream_fresh.
    rewrite <- (map_map (fun c => strip_bom (snd (run fresh c)))
                        (flat_map code_units)).
    rewrite S2. clear.
    induction chunks as [|c chunks IH]; [reflexivity|].
    cbn [List.map concat]. now rewrite flat_map_app, IH. }
  rewrite T. unfold decode_stream_fresh at 1.
  destruct (snd (run fresh c)) as [|x o] eqn:E.
  - cbn [app strip_bom flat_map]. now rewrite S1.
  - cbn [app strip_bom]. destruct (x =? 0xFEFF);
      [now rewrite flat_map_app|].
    cbn [flat_map]. now rewrite flat_map_app, app_assoc.
Qed.

(** X19.  When every cut between chunks falls between two characters
    (no chunk ends inside a UTF-8 sequence) and no chunk after the first
    starts with a byte order mark, the chunks, each decoded by a decoder
    of its own, give the entries of the whole file decoded at once; when
    the 64 KiB chunks of the upload loop are such a cut, so does the
    upload. *)
Theorem clean_cut_invisible (data : list Byte.byte)
  (chunks : list (list Byte.byte)) :
  concat chunks = data -> clean_cut chunks = true ->
  parse_bytes chunks = parse_texts [decode_stream_fresh data]
  /\ (clean_cut (file_chunks data) = true ->
      parse_bytes (file_chunks data) = parse_bytes chunks).
Proof.
  intros Hc Hk.
  assert (H : forall cs, concat cs = data -> clean_cut cs = true ->
            parse_bytes cs = parse_texts [decode_stream_fresh data]).
  { intros cs E K. unfold parse_bytes.
    rewrite text_chunks_invariant, (decode_concat cs K). now rewrite E. }
  split; [now apply H|].
  intros Kf. rewrite (H chunks Hc Hk). apply H; [|exact Kf].
  apply file_chunks_concat.
Qed.

Lemma clean_cut_invisible_witness :
  parse_bytes [firstn 13 wide_bytes; skipn 13 wide_bytes]
  = parse_texts [decode_stream_fresh wide_bytes]
  /\ parse_bytes (file_chunks wide_bytes)
     = parse_bytes [firstn 13 wide_bytes; skipn 13 wide_bytes].
Proof.
  assert (H : parse_bytes [firstn 13 wide_bytes; skipn 13 wide_bytes]
              = parse_texts [decode_stream_fresh wide_bytes]
              /\ (clean_cut (file_chunks wide_bytes) = true ->
                  parse_bytes (file_chunks wide_bytes)
                  = parse_bytes [firstn 13 wide_bytes;
                                 skipn 13 wide_bytes])).
  { apply clean_cut_invisible.
    - cbn [concat]. rewrite app_nil_r. apply firstn_skipn.
    - vm_compute. reflexivity. }
  destruct H as [H1 H2]. split; [exact H1|].
  apply H2. vm_compute. reflexivity.
Defined.

End CleanCut.
